(** * Runhouse HTTP dispatch server: registry, object routing and streaming

    A shallow embedding of [runhouse/servers/http/http_server.py].  Global
    dictionaries become fields of a [World] record threaded through a small
    state-and-exception monad; Python generators become functions that
    return the list of yielded responses together with a completion status;
    everything the server observes from outside (remote results, log files
    growing on disk) is supplied tick by tick by a script. *)

From Stdlib Require Import String List Bool Arith Lia.
From stdpp Require Import base option list strings gmap fin_maps.
Import ListNotations.

Local Open Scope string_scope.

(** ** Python values, exceptions and outcomes *)

(** Exceptions the server can observe.  All of them are subclasses of
    Python's [Exception], so a bare [except Exception] catches each one. *)
Inductive exn : Type :=
| GetTimeoutError                  (* ray.exceptions.GetTimeoutError *)
| PyException (msg : string)       (* raise Exception(msg) *)
| RayError (msg : string)          (* RayTaskError, TaskCancelledError, ... *)
| ValueError (msg : string)
| TypeError (msg : string)
| OSError (msg : string).          (* open() / readlines() failures *)

#[local] Set Warnings "-register-all".

Inductive pyval : Type :=
| PNone
| PBool (b : bool)
| PInt (z : Z)
| PStr (s : string)
| PList (l : list pyval)
| PTuple (l : list pyval)
| PExn (e : exn)
| PPickle (v : pyval).             (* the text pickle_b64 produces from v *)

Inductive outcome (A : Type) : Type :=
| Ret (a : A)
| Raise (e : exn).
Arguments Ret {A} a.
Arguments Raise {A} e.

Definition is_timeout (e : exn) : bool :=
  match e with GetTimeoutError => true | _ => false end.

(** Python truthiness of an optional string ([None] and [""] are falsy). *)
Definition truthy (o : option string) : bool :=
  match o with
  | None => false
  | Some s => negb (String.eqb s "")
  end.

(** [a or b] on optional strings. *)
Definition py_or (a b : option string) : option string :=
  if truthy a then a else b.

(** [a or "base"] where the right operand is a string literal. *)
Definition or_default (a : option string) (d : string) : string :=
  match py_or a (Some d) with Some s => s | None => d end.

(** ** The wire protocol (http_utils) *)

(** Modelled from the spec: [http_utils.OutputType] is imported by the server
    but not part of the sources at hand; the spec lists these four tags. *)
Inductive OutputType : Type := RESULT | RESULT_STREAM | STDOUT | EXCEPTION.

Definition OutputType_eqb (a b : OutputType) : bool :=
  match a, b with
  | RESULT, RESULT | RESULT_STREAM, RESULT_STREAM
  | STDOUT, STDOUT | EXCEPTION, EXCEPTION => true
  | _, _ => false
  end.

(** Modelled from the spec: [http_utils.Response]; absent fields are [PNone]. *)
Record Response : Type := mkResponse {
  data : pyval;
  error : pyval;
  traceback : pyval;
  output_type : OutputType
}.

(** Modelled from the spec: [http_utils.Message]. *)
Record Message : Type := mkMessage {
  key : option string;
  env : option string;
  mdata : pyval;
  stream_logs : bool;
  save : bool;
  remote : bool
}.

(** Modelled from the spec: [pickle_b64] / [b64_unpickle] of http_utils, taken
    as a lossless encoding of the value. *)
Definition pickle_b64 (v : pyval) : pyval := PPickle v.

Definition b64_unpickle (v : pyval) : outcome pyval :=
  match v with
  | PPickle x => Ret x
  | _ => Raise (TypeError "a bytes-like object is required")
  end.

(** [traceback.format_exc()] inside an [except] block handling [e]. *)
Definition exn_text (e : exn) : string :=
  match e with
  | GetTimeoutError => "ray.exceptions.GetTimeoutError"
  | PyException m => "Exception: " ++ m
  | RayError m => "ray.exceptions.RayError: " ++ m
  | ValueError m => "ValueError: " ++ m
  | TypeError m => "TypeError: " ++ m
  | OSError m => "OSError: " ++ m
  end.

Definition format_exc (e : exn) : string :=
  "Traceback (most recent call last):" ++ exn_text e.

(** The response every [except Exception as e] handler of the server builds. *)
Definition exception_response (e : exn) : Response :=
  {| data := PNone;
     error := pickle_b64 (PExn e);
     traceback := pickle_b64 (PStr (format_exc e));
     output_type := EXCEPTION |}.

Definition stdout_response (ret_lines : list string) : Response :=
  {| data := PList (map PStr ret_lines);
     error := PNone;
     traceback := PNone;
     output_type := STDOUT |}.

Definition is_terminal (r : Response) : bool :=
  match output_type r with
  | RESULT | EXCEPTION => true
  | _ => false
  end.

Definition has_type (t : OutputType) (r : Response) : bool :=
  OutputType_eqb (output_type r) t.

(** ** Ray actors and the process-wide state *)

(** What [env_servlets] can hold: a Ray actor handle, or a servlet object
    living in the server process (the [else] branch of
    [call_servlet_method]).  The number indexes [actors]. *)
Inductive servlet_handle : Type :=
| ActorHandle (a : nat)
| LocalServlet (a : nat).

Definition handle_actor (h : servlet_handle) : nat :=
  match h with ActorHandle a | LocalServlet a => a end.

Inductive arg : Type :=
| AVal (v : pyval)
| AMsg (m : Message)
| AWait.                           (* HTTPServer.LOGGING_WAIT_TIME *)

(** An optional string passed where Python passes [None] or a [str]. *)
Definition of_opt (o : option string) : pyval :=
  match o with Some s => PStr s | None => PNone end.

(** A Ray [ObjectRef]: the pending remote method call it stands for. *)
Record ObjectRef : Type := mkRef {
  ref_actor : nat;
  ref_method : string;
  ref_args : list arg
}.

(** What a servlet call hands back to the server. *)
Inductive ret : Type :=
| RNone
| RResp (r : Response)
| RRef (o : ObjectRef)
| RVal (v : pyval).

(** One log file of a call: its path and the lines written so far, or
    [None] when the file cannot be read. *)
Abbreviation logfile := (string * option (list string))%type.

(** Modelled from the spec: the state of one [EnvServlet] actor
    (runhouse/rns/servlet.py is not among the sources): its name and its
    object store. *)
Record Servlet : Type := mkServlet {
  servlet_env : string;
  store : gmap string pyval
}.

Record World : Type := mkWorld {
  env_servlets : gmap string servlet_handle;   (* rh_config.env_servlets *)
  ray_named : gmap string nat;                 (* named actors, namespace runhouse *)
  actors : list Servlet;                       (* every actor constructed so far *)
  env_for_key : gmap string string;            (* obj_store.get_env *)
  obj_store : gmap string ret;                 (* the server's own obj_store *)
  rns_env : gmap string string;                (* rns_client.load_config(name)["env"] *)
  last_active : nat;                           (* set_last_active_time_to_now calls *)
  clock : string;                              (* timestamp used for default names *)
  logs : gmap string (list logfile);           (* .rh/logs/<key>/, in glob order *)
  issued : list ObjectRef;                     (* remote calls started and not waited
                                                  for by the caller, oldest first *)
  collaborators : string -> string -> list arg -> outcome ret
    (* replies of the servlet methods the spec leaves to external
       collaborators (install, put_resource, run_module, ...), by
       environment name and method name *)
}.

Definition set_env_servlets (f : gmap string servlet_handle -> gmap string servlet_handle)
    (w : World) : World :=
  mkWorld (f (env_servlets w)) (ray_named w) (actors w) (env_for_key w)
          (obj_store w) (rns_env w) (last_active w) (clock w) (logs w)
          (issued w) (collaborators w).

Definition set_ray_named (f : gmap string nat -> gmap string nat) (w : World) : World :=
  mkWorld (env_servlets w) (f (ray_named w)) (actors w) (env_for_key w)
          (obj_store w) (rns_env w) (last_active w) (clock w) (logs w)
          (issued w) (collaborators w).

Definition set_actors (f : list Servlet -> list Servlet) (w : World) : World :=
  mkWorld (env_servlets w) (ray_named w) (f (actors w)) (env_for_key w)
          (obj_store w) (rns_env w) (last_active w) (clock w) (logs w)
          (issued w) (collaborators w).

Definition set_env_for_key (f : gmap string string -> gmap string string)
    (w : World) : World :=
  mkWorld (env_servlets w) (ray_named w) (actors w) (f (env_for_key w))
          (obj_store w) (rns_env w) (last_active w) (clock w) (logs w)
          (issued w) (collaborators w).

Definition set_obj_store (f : gmap string ret -> gmap string ret) (w : World) : World :=
  mkWorld (env_servlets w) (ray_named w) (actors w) (env_for_key w)
          (f (obj_store w)) (rns_env w) (last_active w) (clock w) (logs w)
          (issued w) (collaborators w).

Definition set_last_active (f : nat -> nat) (w : World) : World :=
  mkWorld (env_servlets w) (ray_named w) (actors w) (env_for_key w)
          (obj_store w) (rns_env w) (f (last_active w)) (clock w) (logs w)
          (issued w) (collaborators w).

Definition set_logs (f : gmap string (list logfile) -> gmap string (list logfile))
    (w : World) : World :=
  mkWorld (env_servlets w) (ray_named w) (actors w) (env_for_key w)
          (obj_store w) (rns_env w) (last_active w) (clock w) (f (logs w))
          (issued w) (collaborators w).

Definition set_issued (f : list ObjectRef -> list ObjectRef) (w : World) : World :=
  mkWorld (env_servlets w) (ray_named w) (actors w) (env_for_key w)
          (obj_store w) (rns_env w) (last_active w) (clock w) (logs w)
          (f (issued w)) (collaborators w).

(** ** A state-and-exception monad for the server's code *)

Definition M (A : Type) : Type := World -> outcome A * World.

Definition pure {A} (a : A) : M A := fun w => (Ret a, w).

Definition raise {A} (e : exn) : M A := fun w => (Raise e, w).

Definition bind {A B} (c : M A) (k : A -> M B) : M B :=
  fun w =>
    match c w with
    | (Ret a, w') => k a w'
    | (Raise e, w') => (Raise e, w')
    end.

(** [try: body except Exception as e: handler e].  State changes made by
    the body before it raised are kept, as in Python. *)
Definition try_except {A} (body : M A) (handler : exn -> M A) : M A :=
  fun w =>
    match body w with
    | (Ret a, w') => (Ret a, w')
    | (Raise e, w') => handler e w'
    end.

Notation "'let!' x ':=' c 'in' k" := (bind c (fun x => k))
  (at level 10, x name, c at level 200, k at level 200, only parsing).
Notation "'run!' c 'in' k" := (bind c (fun _ => k))
  (at level 10, c at level 200, k at level 200, only parsing).

(** ** The environment servlet (modelled from the spec) *)

Module EnvServlet.

Definition actor_unavailable : exn := RayError "The actor is unavailable".

(** Modelled from the spec: [obj_store.put] inside an environment, an
    unconditional upsert that also records which environment now owns
    the key. *)
Definition put_object (a : nat) (k : string) (v : pyval) : M ret :=
  fun w =>
    match actors w !! a with
    | None => (Raise actor_unavailable, w)
    | Some s =>
        let s' := mkServlet (servlet_env s) (<[k := v]> (store s)) in
        (Ret (RResp (mkResponse PNone PNone PNone RESULT)),
         set_env_for_key (insert k (servlet_env s))
           (set_actors (fun l => <[a := s']> l) w))
    end.

(** Modelled from the spec: [get(key, timeout) -> value | absent]; an
    absent key gives [None] once the bounded wait is over. *)
Definition get (a : nat) (k : string) : M ret :=
  fun w =>
    match actors w !! a with
    | None => (Raise actor_unavailable, w)
    | Some s =>
        match store s !! k with
        | Some v => (Ret (RResp (mkResponse v PNone PNone RESULT)), w)
        | None => (Ret RNone, w)
        end
    end.

(** Modelled from the spec: the log files of a call, listed the way the
    server's own [_get_logfiles] does. *)
Definition get_logfiles (k : string) : M ret :=
  fun w =>
    match logs w !! k with
    | Some files => (Ret (RVal (PList (map (fun f => PStr (fst f)) files))), w)
    | None => (Ret RNone, w)
    end.

(** Modelled from the spec: what the servlet queues for a call whose return
    value is a lazy sequence (the iteration protocol of section 4.2): one
    RESULT_STREAM response per element, in the order produced, then the
    final RESULT. *)
Definition stream_response (v : pyval) : Response :=
  mkResponse (pickle_b64 v) PNone PNone RESULT_STREAM.

Definition lazy_sequence_responses (elems : list pyval) (final : pyval) : list Response :=
  (map stream_response elems ++ [mkResponse final PNone PNone RESULT])%list.

(** Dispatch of [getattr(servlet, method)] applied to the arguments. *)
Definition call (a : nat) (method : string) (args : list arg) : M ret :=
  if String.eqb method "put_object" then
    match args with
    | [AVal (PStr k); AVal v] => put_object a k v
    | _ => raise (TypeError "put_object(key, data)")
    end
  else if String.eqb method "get" then
    match args with
    | [AVal (PStr k); AWait] => get a k
    | _ => raise (TypeError "get(key, timeout)")
    end
  else if String.eqb method "get_logfiles" then
    match args with
    | [AVal (PStr k)] => get_logfiles k
    | _ => raise (TypeError "get_logfiles(key)")
    end
  else
    fun w =>
      match actors w !! a with
      | None => (Raise actor_unavailable, w)
      | Some s => (collaborators w (servlet_env s) method args, w)
      end.

End EnvServlet.

(** ** Ray primitives used by the server *)

(** [ray.remote(EnvServlet).options(name=env_name, get_if_exists=True,
    lifetime="detached", namespace="runhouse", ...).remote(env_name=env_name)]:
    Ray hands back the actor already registered under the name, and only
    constructs one when there is none. *)
Definition ray_get_if_exists (env_name : string) : M servlet_handle :=
  fun w =>
    match ray_named w !! env_name with
    | Some a => (Ret (ActorHandle a), w)
    | None =>
        let a := length (actors w) in
        (Ret (ActorHandle a),
         set_ray_named (insert env_name a)
           (set_actors (fun l => (l ++ [mkServlet env_name ∅])%list) w))
    end.

(** A blocking [ray.get(obj_ref)]: the remote method runs to completion and
    its result, or the exception it raised, comes back to the caller. *)
Definition ray_get (o : ObjectRef) : M ret :=
  EnvServlet.call (ref_actor o) (ref_method o) (ref_args o).

(** Ray running the oldest call in flight on its actor: the method runs to
    completion there, whatever the caller is doing meanwhile, and its
    outcome is what a later [ray.get] on the reference finds. *)
Definition ray_runs_next : M (option ret) :=
  fun w =>
    match issued w with
    | [] => (Ret None, w)
    | o :: rest =>
        match ray_get o (set_issued (fun _ => rest) w) with
        | (Ret r, w') => (Ret (Some r), w')
        | (Raise e, w') => (Raise e, w')
        end
    end.

(** ** Log files on disk and the streaming scripts *)

(** A log file opened with [open(f, "r")]: its path and how many lines
    earlier [readlines()] calls have consumed. *)
Record LogHandle : Type := mkHandle {
  name : string;
  pos : nat
}.

Definition ends_with (suffix s : string) : bool :=
  let n := String.length suffix in
  let m := String.length s in
  (n <=? m)%nat && String.eqb (substring (m - n) n s) suffix.

Definition one_of (a b : string) (c : string) : bool :=
  String.eqb c a || String.eqb c b.

(** The glob patterns of [_get_logfiles]. *)
Definition glob_matches (log_type : option string) (path : string) : bool :=
  match log_type with
  | Some "stdout" => ends_with ".out" path
  | Some "stderr" => ends_with ".err" path
  | _ =>
      let m := String.length path in
      (4 <=? m)%nat
      && String.eqb (substring (m - 4) 1 path) "."
      && one_of "o" "e" (substring (m - 3) 1 path)
      && one_of "u" "r" (substring (m - 2) 1 path)
      && one_of "t" "r" (substring (m - 1) 1 path)
  end.

(** What the world outside lets a poll of the pending result see. *)
Inductive poll_event : Type :=
| PollTimeout                      (* the result is not ready within the wait *)
| PollEmpty                        (* the servlet answered None: nothing queued *)
| PollReady                        (* the servlet answered with the next queued response *)
| PollFail (e : exn).              (* ray.get raised e *)

(** One iteration of the streaming loop as the outside world shapes it:
    the outcome of the poll, and the call's log directory at the time of the
    flush ([None]: the directory does not exist). *)
Record tick : Type := mkTick {
  poll : poll_event;
  disk : option (list logfile)
}.

(** One round of the object-fetch loop: writes other callers made since the
    previous round (environment actor, key, value), and the log directory. *)
Record otick : Type := mkOTick {
  arrivals : list (nat * string * pyval);
  odisk : option (list logfile)
}.

Definition set_disk (k : string) (d : option (list logfile)) (w : World) : World :=
  set_logs (fun m => match d with Some files => <[k := files]> m | None => delete k m end) w.

(** Every log file in the directory can be opened and read. *)
Definition readable (d : option (list logfile)) : Prop :=
  match d with
  | Some files => Forall (fun f : logfile => snd f <> None) files
  | None => True
  end.

Inductive status : Type :=
| Returned                         (* the generator ran to its end *)
| Propagated (e : exn)             (* an exception escaped the generator *)
| Suspended.                       (* still looping when the script ended *)

(** ** HTTPServer *)

Module HTTPServer.

Definition register_activity : M unit :=
  fun w => (Ret tt, set_last_active S w).

Definition EnvironmentNotFound (env_name : string) : exn :=
  PyException ("Environment " ++ env_name ++
               " does not exist. Please send it to the cluster first.").

Definition get_env_servlet (env_name : string) (create : bool) : M servlet_handle :=
  fun w =>
    match env_servlets w !! env_name with
    | Some h => (Ret h, w)
    | None =>
        if create then
          (let! new_env := ray_get_if_exists env_name in
           fun w' => (Ret new_env, set_env_servlets (insert env_name new_env) w')) w
        else (Raise (EnvironmentNotFound env_name), w)
    end.

(** [call_servlet_method].  On an actor, [.remote] starts the method and
    hands back its reference at once; with [block] the caller
    waits for it in [ray.get], and without it the call stays in flight:
    it is recorded in [issued], and Ray runs it on the actor in its own
    time. *)
Definition call_servlet_method (servlet : servlet_handle) (method : string)
    (args : list arg) (block : bool) : M ret :=
  match servlet with
  | ActorHandle a =>
      let obj_ref := mkRef a method args in
      if block then ray_get obj_ref
      else fun w => (Ret (RRef obj_ref), set_issued (fun l => (l ++ [obj_ref])%list) w)
  | LocalServlet a => EnvServlet.call a method args
  end.

Definition lookup_env_for_name (name : string) (check_rns : bool) : M (option string) :=
  fun w =>
    let env := env_for_key w !! name in
    if truthy env then (Ret env, w)
    else if check_rns then
      match rns_env w !! name with
      | Some e => (Ret (Some e), w)
      | None => (Ret None, w)
      end
    else (Ret None, w).

Definition call_in_env_servlet (method : string) (args : list arg)
    (env : option string) (create : bool)
    (lookup_env_for_name_arg : option string) (block : bool) : M ret :=
  run! register_activity in
  try_except
    (let! env :=
       (if truthy lookup_env_for_name_arg then
          if truthy env then pure env
          else lookup_env_for_name (default "" lookup_env_for_name_arg) false
        else pure env) in
     let! servlet := get_env_servlet (or_default env "base") create in
     call_servlet_method servlet method args block)
    (fun e =>
       run! register_activity in
       pure (RResp (exception_response e))).

Definition _get_logfiles (log_key : string) (log_type : option string)
    (w : World) : option (list string) :=
  match logs w !! log_key with
  | Some files =>
      Some (map fst (filter (fun f => glob_matches log_type (fst f) = true) files))
  | None => None
  end.

(** [open(f, "r")] on a file of the call's log directory. *)
Definition open_file (k f : string) (w : World) : outcome LogHandle :=
  match List.find (fun lf => String.eqb (fst lf) f) (default [] (logs w !! k)) with
  | Some (_, Some _) => Ret (mkHandle f 0)
  | Some (_, None) => Raise (OSError ("Permission denied: " ++ f))
  | None => Raise (OSError ("No such file or directory: " ++ f))
  end.

(** The [for f in logfiles] loop of [open_new_logfiles].  The list is
    extended in place, so the handles appended before a failing [open]
    stay in it. *)
Fixpoint open_each (k : string) (logfiles : list string) (open_files : list LogHandle)
    (w : World) : option exn * list LogHandle :=
  match logfiles with
  | [] => (None, open_files)
  | f :: rest =>
      if existsb (fun o => String.eqb (name o) f) open_files
      then open_each k rest open_files w
      else
        match open_file k f w with
        | Ret h => open_each k rest (open_files ++ [h])%list w
        | Raise e => (Some e, open_files)
        end
  end.

Definition open_new_logfiles (k : string) (open_files : list LogHandle)
    (w : World) : option exn * list LogHandle :=
  match _get_logfiles k None w with
  | Some (f :: rest) => open_each k (f :: rest) open_files w
  | _ => (None, open_files)
  end.

(** [f.readlines()]: everything written since the previous read. *)
Definition readlines (k : string) (h : LogHandle) (w : World)
    : outcome (list string * LogHandle) :=
  match List.find (fun lf => String.eqb (fst lf) (name h)) (default [] (logs w !! k)) with
  | Some (_, Some lines) => Ret (drop (pos h) lines, mkHandle (name h) (length lines))
  | Some (_, None) => Raise (OSError ("Input/output error: " ++ name h))
  | None => Ret ([], h)
  end.

(** The [for i, f in enumerate(open_logfiles)] loop collecting [ret_lines]. *)
Fixpoint read_all (k : string) (open_files : list LogHandle) (w : World)
    : option exn * list string * list LogHandle :=
  match open_files with
  | [] => (None, [], [])
  | h :: rest =>
      match readlines k h w with
      | Raise e => (Some e, [], h :: rest)
      | Ret (file_lines, h') =>
          match read_all k rest w with
          | (oe, ret_lines, rest') => (oe, (file_lines ++ ret_lines)%list, h' :: rest')
          end
      end
  end.

(** The local variables of [_get_results_and_logs_generator], with what it
    has yielded so far, the paths it has opened, and the responses the
    servlet still holds for the call. *)
Record gstate : Type := mkG {
  obj_ref : ret;
  waiting_for_results : bool;
  open_logfiles : list LogHandle;
  yielded : list Response;
  opened : list string;
  queue : list Response
}.

(** [if not obj_ref]: only [None] is falsy among what the variable holds. *)
Definition is_none (r : ret) : bool :=
  match r with RNone | RVal PNone => true | _ => false end.

(** Modelled from the spec: [ray.get(obj_ref, timeout=LOGGING_WAIT_TIME)] on
    the reference returned for [_get_result_from_stream], a servlet method
    that is not among the sources: it hands over the next response queued
    for the call, or [None] while nothing is queued. *)
Definition ray_get_timeout (o : ret) (ev : poll_event) (q : list Response)
    : outcome (option Response) * list Response :=
  match o with
  | RRef _ =>
      match ev with
      | PollTimeout => (Raise GetTimeoutError, q)
      | PollFail e => (Raise e, q)
      | PollEmpty => (Ret None, q)
      | PollReady =>
          match q with
          | r :: q' => (Ret (Some r), q')
          | [] => (Ret None, q)
          end
      end
  | _ => (Raise (ValueError "'object_refs' must either be an ObjectRef or a list of ObjectRefs."), q)
  end.

Definition new_paths (before after : list LogHandle) : list string :=
  map name (drop (length before) after).

(** The log part of one loop iteration (lines 306-325). *)
Definition flush_logs (k : string) (stream_logs : bool) (st : gstate) (w : World)
    : option exn * gstate :=
  let '(oe, files) :=
    if stream_logs then open_new_logfiles k (open_logfiles st) w else (None, []) in
  let st1 := mkG (obj_ref st) (waiting_for_results st) files (yielded st)
                 (opened st ++ (if stream_logs then new_paths (open_logfiles st) files else []))%list
                 (queue st) in
  match oe with
  | Some e => (Some e, st1)
  | None =>
      match read_all k files w with
      | (Some e, _, files') =>
          (Some e, mkG (obj_ref st1) (waiting_for_results st1) files' (yielded st1)
                       (opened st1) (queue st1))
      | (None, ret_lines, files') =>
          (None, mkG (obj_ref st1) (waiting_for_results st1) files'
                     (match ret_lines with
                      | [] => yielded st1
                      | _ => yielded st1 ++ [stdout_response ret_lines]
                      end)%list
                     (opened st1) (queue st1))
      end
  end.

(** The body of [while waiting_for_results] from the [ray.get] on (lines
    288-325), with [o] the reference held in [obj_ref].  The first
    component is the exception that leaves the body, if any. *)
Definition poll_and_flush (k : string) (stream_logs : bool) (t : tick) (o : ret)
    (st : gstate) (w : World) : option exn * gstate :=
  let st := mkG o (waiting_for_results st) (open_logfiles st) (yielded st)
                (opened st) (queue st) in
  match ray_get_timeout o (poll t) (queue st) with
  | (Ret None, q) =>
      (* obj_ref = None; raise GetTimeoutError; caught two lines below *)
      flush_logs k stream_logs
        (mkG RNone (waiting_for_results st) (open_logfiles st) (yielded st)
             (opened st) q) w
  | (Ret (Some ret_val), q) =>
      flush_logs k stream_logs
        (mkG RNone
             (if OutputType_eqb (output_type ret_val) RESULT_STREAM
              then waiting_for_results st else false)
             (open_logfiles st) (yielded st ++ [ret_val])%list
             (opened st) q) w
  | (Raise e, q) =>
      let st := mkG (obj_ref st) (waiting_for_results st) (open_logfiles st)
                    (yielded st) (opened st) q in
      if is_timeout e then flush_logs k stream_logs st w
      else (Some e, st)
  end.

(** One pass through the body of [while waiting_for_results] (lines 281-325). *)
Definition iteration (k : string) (env : option string) (stream_logs : bool)
    (t : tick) (st : gstate) (w : World) : option exn * gstate * World :=
  let w := set_disk k (disk t) w in
  let '(called, w) :=
    if is_none (obj_ref st) then
      call_in_env_servlet "_get_result_from_stream" [AVal (PStr k)] env false None false w
    else (Ret (obj_ref st), w) in
  match called with
  | Raise e => (Some e, st, w)
  | Ret o => (poll_and_flush k stream_logs t o st w, w)
  end.

Inductive loop_exit : Type :=
| LoopDone
| LoopRaised (e : exn)
| LoopWaiting.

Fixpoint results_loop (k : string) (env : option string) (stream_logs : bool)
    (ticks : list tick) (st : gstate) (w : World) : loop_exit * gstate * World :=
  if waiting_for_results st then
    match ticks with
    | [] => (LoopWaiting, st, w)
    | t :: ticks' =>
        match iteration k env stream_logs t st w with
        | (Some e, st', w') => (LoopRaised e, st', w')
        | (None, st', w') => results_loop k env stream_logs ticks' st' w'
        end
    end
  else (LoopDone, st, w).

(** What a run of a generator leaves behind. *)
Record run : Type := mkRun {
  stream : list Response;
  exit : status;
  opened_files : list string;
  closed_files : list string;
  world : World
}.

(** [_get_results_and_logs_generator(key, env, stream_logs)], driven by a
    script of ticks, with [q] the responses the servlet will hand over. *)
Definition _get_results_and_logs_generator (k : string) (env : option string)
    (stream_logs : bool) (q : list Response) (ticks : list tick) (w : World) : run :=
  let st0 := mkG RNone true [] [] [] q in
  match results_loop k env stream_logs ticks st0 w with
  | (LoopDone, st, w') =>
      mkRun (yielded st) Returned (opened st) (map name (open_logfiles st)) w'
  | (LoopRaised e, st, w') =>
      (* except Exception as e: yield the EXCEPTION response; then finally *)
      mkRun (yielded st ++ [exception_response e])%list Returned (opened st)
            (map name (open_logfiles st)) w'
  | (LoopWaiting, st, w') =>
      mkRun (yielded st) Suspended (opened st) [] w'
  end.

(** Python truthiness of a value. *)
Definition py_truthy (v : pyval) : bool :=
  match v with
  | PNone => false
  | PBool b => b
  | PInt z => negb (Z.eqb z 0)
  | PStr s => negb (String.eqb s "")
  | PList l | PTuple l => match l with [] => false | _ => true end
  | PExn _ | PPickle _ => true
  end.

(** [key, stream_logs = b64_unpickle(message.data)]: whatever iterates to
    exactly two items unpacks, a pair, a two-element list or a string of two
    characters, and the key need not be a string; the flag is only ever
    tested for truth.  A pickled blob is itself a text longer than two
    characters. *)
Definition unpack_key_and_flag (d : pyval) : outcome (pyval * bool) :=
  match b64_unpickle d with
  | Raise e => Raise e
  | Ret (PTuple [k; flag]) | Ret (PList [k; flag]) => Ret (k, py_truthy flag)
  | Ret (PStr s) =>
      if Nat.eqb (String.length s) 2
      then Ret (PStr (substring 0 1 s), true)
      else Raise (ValueError "not enough or too many values to unpack (expected 2)")
  | Ret (PTuple _) | Ret (PList _) | Ret (PPickle _) =>
      Raise (ValueError "not enough or too many values to unpack (expected 2)")
  | Ret _ => Raise (TypeError "cannot unpack non-iterable object")
  end.

(** Modelled from the spec: keys are strings; a key of another type has no
    environment on record ([obj_store.get_env]) and no log directory. *)
Definition key_lookup (key : pyval) : option string :=
  match key with PStr s => Some s | _ => None end.

Definition key_dir (key : pyval) : string :=
  match key with PStr s => s | _ => "" end.

(** The local variables of [_get_object_and_logs_generator]. *)
Record ostate : Type := mkO {
  logfiles : ret;
  open_files : list LogHandle;
  ret_obj : ret;
  oyielded : list ret;
  oopened : list string
}.

(** [if not logfiles]. *)
Definition no_logfiles (r : ret) : bool :=
  match r with
  | RNone => true
  | RVal v => negb (py_truthy v)
  | _ => false
  end.

(** [[open(i, "r") for i in (logfiles or [])]]: the exception that ends
    the comprehension, if any, and the files opened up to there. *)
Fixpoint open_listed (k : string) (paths : list pyval) (w : World)
    : option exn * list LogHandle :=
  match paths with
  | [] => (None, [])
  | PStr f :: rest =>
      match open_file k f w with
      | Raise e => (Some e, [])
      | Ret h =>
          match open_listed k rest w with
          | (oe, hs) => (oe, h :: hs)
          end
      end
  | _ :: _ => (Some (TypeError "expected str, bytes or os.PathLike object"), [])
  end.

Definition open_logfiles_of (k : string) (lf : ret) (w : World)
    : option exn * list LogHandle :=
  if no_logfiles lf then (None, [])
  else
    match lf with
    | RVal (PList paths) | RVal (PTuple paths) => open_listed k paths w
    | _ => (Some (TypeError "expected str, bytes or os.PathLike object"), [])
    end.

Definition apply_arrivals (l : list (nat * string * pyval)) (w : World) : World :=
  fold_left (fun w p => snd (EnvServlet.put_object (fst (fst p)) (snd (fst p)) (snd p) w)) l w.

(** One pass through the body of [while not returned] (lines 382-421).
    When an [open] of the comprehension fails, [open_files] is not
    assigned, but the files opened before it have been opened. *)
Definition oiteration (key : pyval) (stream_logs : bool) (message : Message)
    (t : otick) (st : ostate) (w : World) : option exn * ostate * World :=
  let k := key_dir key in
  let w := set_disk k (odisk t) (apply_arrivals (arrivals t) w) in
  match call_in_env_servlet "get" [AVal key; AWait] (env message) false
          (key_lookup key) true w with
  | (Raise e, w) => (Some e, st, w)
  | (Ret r, w) =>
      let st := mkO (logfiles st) (open_files st) r (oyielded st) (oopened st) in
      if stream_logs then
        let '(listed, w) :=
          if no_logfiles (logfiles st) then
            call_in_env_servlet "get_logfiles" [AVal key] (env message) false
              (key_lookup key) true w
          else (Ret (logfiles st), w) in
        match listed with
        | Raise e => (Some e, st, w)
        | Ret lf =>
            let reopened :=
              if no_logfiles (logfiles st) then open_logfiles_of k lf w
              else (None, open_files st) in
            match reopened with
            | (Some e, partial) =>
                (Some e,
                 mkO lf (open_files st) r (oyielded st)
                     (oopened st ++ map name partial)%list, w)
            | (None, files) =>
                let opened' :=
                  (oopened st ++
                   (if no_logfiles (logfiles st) then map name files else []))%list in
                match read_all k files w with
                | (Some e, _, files') =>
                    (Some e, mkO lf files' r (oyielded st) opened', w)
                | (None, ret_lines, files') =>
                    (None,
                     mkO lf files' r
                         (match ret_lines with
                          | [] => oyielded st
                          | _ => oyielded st ++ [RResp (stdout_response ret_lines)]
                          end)%list
                         opened', w)
                end
            end
        end
      else (None, st, w)
  end.

Definition is_py_none (r : ret) : bool :=
  match r with RNone | RVal PNone => true | _ => false end.

Fixpoint object_loop (k : pyval) (stream_logs : bool) (message : Message)
    (ticks : list otick) (st : ostate) (w : World) : loop_exit * ostate * World :=
  match ticks with
  | [] => (LoopWaiting, st, w)
  | t :: ticks' =>
      match oiteration k stream_logs message t st w with
      | (Some e, st', w') => (LoopRaised e, st', w')
      | (None, st', w') =>
          (* returned = ret_obj is not None *)
          if is_py_none (ret_obj st') then object_loop k stream_logs message ticks' st' w'
          else (LoopDone, st', w')
      end
  end.

Record orun : Type := mkORun {
  ostream : list ret;
  oexit : status;
  oopened_files : list string;
  oclosed_files : list string;
  oworld : World
}.

(** [_get_object_and_logs_generator(message)], driven by a script. *)
Definition _get_object_and_logs_generator (message : Message)
    (ticks : list otick) (w : World) : orun :=
  match unpack_key_and_flag (mdata message) with
  | Raise e => mkORun [] (Propagated e) [] [] w
  | Ret (k, stream_logs) =>
      match object_loop k stream_logs message ticks (mkO RNone [] RNone [] []) w with
      | (LoopDone, st, w') =>
          mkORun (oyielded st ++ [ret_obj st])%list Returned (oopened st)
                 (if stream_logs then map name (open_files st) else []) w'
      | (LoopRaised e, st, w') =>
          mkORun (oyielded st) (Propagated e) (oopened st) [] w'
      | (LoopWaiting, st, w') =>
          mkORun (oyielded st) Suspended (oopened st) [] w'
      end
  end.

(** [HTTPServer.__init__], after Ray is up. *)
Definition init : M unit :=
  let! base_env := get_env_servlet "base" true in
  run! (fun w => (Ret tt, set_env_servlets (insert "base" base_env) w)) in
  register_activity.

Definition install (message : Message) : M ret :=
  call_in_env_servlet "install" [AMsg message] (env message) true (key message) true.

Definition put_resource (message : Message) : M ret :=
  call_in_env_servlet "put_resource" [AMsg message] (env message) true (key message) true.

Definition run_module (message : Message) : M ret :=
  call_in_env_servlet "run_module" [AMsg message] (env message) true (key message) true.

Definition put_object (message : Message) : M ret :=
  call_in_env_servlet "put_object" [AVal (of_opt (key message)); AVal (mdata message)]
    (env message) true None true.

Definition rename_object (message : Message) : M ret :=
  call_in_env_servlet "rename_object" [AMsg message] (env message) false None true.

Definition delete_obj (message : Message) : M ret :=
  call_in_env_servlet "delete_obj" [AMsg message] (env message) false (key message) true.

Definition get_run_object (message : Message) : M ret :=
  call_in_env_servlet "get_run_object" [AMsg message] (env message) false
    (key message) true.

Definition cancel_run (message : Message) : M ret :=
  call_in_env_servlet "cancel_run" [AMsg message] (env message) false (key message) true.

Definition add_secrets (message : Message) : M ret :=
  call_in_env_servlet "add_secrets" [AMsg message] (env message) true None true.

(** Modelled from the spec: [obj_store.keys()] of runhouse.rh_config, the
    keys the server's own store holds, in the store's order. *)
Definition obj_store_keys (w : World) : pyval :=
  PList (map (fun p => PStr (fst p)) (map_to_list (obj_store w))).

(** [get_keys(env)]: without an environment the server answers from its
    own store and does not go through the dispatcher. *)
Definition get_keys (env : option string) : M ret :=
  if truthy env
  then call_in_env_servlet "get_keys" [] env false None true
  else fun w =>
         (Ret (RResp (mkResponse (pickle_b64 (obj_store_keys w)) PNone PNone RESULT)), w).

(** [call_fn(fn_name, args)], the request body [Args] taken as an opaque
    value. *)
Definition call_fn (fn_name : string) (args : pyval) : M ret :=
  call_in_env_servlet "call_fn" [AVal (PStr fn_name); AVal args] None true
    (Some fn_name) true.

(** What a route hands to the transport: a single response, or a
    [StreamingResponse] over the results generator with its arguments. *)
Inductive reply : Type :=
| Plain (r : Response)
| Streaming (k : string) (env : option string) (stream_logs : bool).

(** Modelled from the spec: [_generate_default_name(prefix, precision="ms")]
    of runhouse.rns.utils.names, a timestamp appended to the prefix. *)
Definition _generate_default_name (prefix : string) : M string :=
  fun w => (Ret (prefix ++ "_" ++ clock w), w).

Definition set_key (k : option string) (m : Message) : Message :=
  mkMessage k (env m) (mdata m) (stream_logs m) (save m) (remote m).

(** [call_module_method(module, method, message)].  The message object is
    modified in place, so the route returns it next to its reply. *)
Definition call_module_method (module : string) (method : option string)
    (message : option Message) : M (reply * Message) :=
  run! register_activity in
  let method := if bool_decide (method = Some "None") then None else method in
  let message := default (mkMessage None None PNone false false false) message in
  let prefix :=
    if bool_decide (method = Some "__call__") || negb (truthy method)
    then module else module ++ "_" ++ default "" method in
  let! new_key :=
    (if truthy (key message) then pure (key message)
     else let! generated := _generate_default_name prefix in pure (Some generated)) in
  let message := set_key new_key message in
  let! r :=
    try_except
      (let! env :=
         (if truthy (env message) then pure (env message)
          else lookup_env_for_name module false) in
       let! obj_ref :=
         call_in_env_servlet "call_module_method"
           [AVal (PStr module); AVal (of_opt method); AMsg message]
           env true None false in
       match key message with
       | None => raise (TypeError "unsupported operand type(s) for +")
       | Some k =>
           run! (fun w => (Ret tt, set_obj_store (insert (k ++ "_ref") obj_ref) w)) in
           if remote message
           then pure (Plain (mkResponse (pickle_b64 (PStr k)) PNone PNone RESULT))
           else pure (Streaming k env (stream_logs message))
       end)
      (fun e =>
         run! register_activity in
         pure (Plain (exception_response e))) in
  pure (r, message).

(** [get_object]: creating the generator runs none of its body, so the
    [try] around it has nothing to catch. *)
Definition get_object (message : Message) : M Message :=
  run! register_activity in pure message.

(** [check_server], with the outcome of [ray status] and of writing the
    cluster configuration supplied from outside. *)
Definition check_server (message : Message) (ray_status : outcome string) : M Response :=
  run! register_activity in
  match ray_status with
  | Ret st => pure (mkResponse (pickle_b64 (PStr st)) PNone PNone RESULT)
  | Raise e =>
      run! register_activity in
      pure (exception_response e)
  end.

(** ** Two requests racing through [get_env_servlet]

    The function as the atomic steps a thread takes: the membership test
    on [env_servlets], the call into Ray, the registration. *)
Inductive pc : Type :=
| AtCheck
| AtCreate
| AtRegister (new_env : servlet_handle)
| Done (h : servlet_handle)
| Failed (e : exn).

Definition thread_step (env_name : string) (create : bool) (p : pc) (w : World)
    : pc * World :=
  match p with
  | AtCheck =>
      match env_servlets w !! env_name with
      | Some h => (Done h, w)
      | None =>
          if create then (AtCreate, w)
          else (Failed (EnvironmentNotFound env_name), w)
      end
  | AtCreate =>
      match ray_get_if_exists env_name w with
      | (Ret new_env, w') => (AtRegister new_env, w')
      | (Raise e, w') => (Failed e, w')
      end
  | AtRegister new_env =>
      (Done new_env, set_env_servlets (insert env_name new_env) w)
  | Done h => (Done h, w)
  | Failed e => (Failed e, w)
  end.

(** A schedule says which of the two threads moves next. *)
Fixpoint interleave (env_name : string) (schedule : list bool)
    (p1 p2 : pc) (w : World) : pc * pc * World :=
  match schedule with
  | [] => (p1, p2, w)
  | true :: rest =>
      let '(p1', w') := thread_step env_name true p1 w in
      interleave env_name rest p1' p2 w'
  | false :: rest =>
      let '(p2', w') := thread_step env_name true p2 w in
      interleave env_name rest p1 p2' w'
  end.

Definition finished (p : pc) : bool :=
  match p with Done _ | Failed _ => true | _ => false end.

(** How many turns a schedule gives to the first ([true]) or to the second
    ([false]) thread. *)
Fixpoint turns (who : bool) (schedule : list bool) : nat :=
  match schedule with
  | [] => 0
  | b :: rest => (if Bool.eqb b who then 1 else 0) + turns who rest
  end.

(** Steps a thread still has to take at most. *)
Definition steps_left (p : pc) : nat :=
  match p with
  | AtCheck => 3
  | AtCreate => 2
  | AtRegister _ => 1
  | Done _ | Failed _ => 0
  end.

(** The worlds a race for an unregistered name passes through: as found,
    after Ray has answered, after the registration; and the places a
    thread can be at while the world is at each of them. *)
Definition stage_world (w wR w1 : World) (s : nat) : World :=
  match s with 0 => w | 1 => wR | _ => w1 end.

Definition allowed (h : servlet_handle) (s : nat) (p : pc) : Prop :=
  match p with
  | AtCheck | AtCreate => True
  | AtRegister h' => h' = h /\ 1 <= s
  | Done h' => h' = h /\ 2 <= s
  | Failed _ => False
  end.

Definition race_inv (w wR w1 : World) (h : servlet_handle) (p : pc) (wc : World) : Prop :=
  exists s, s <= 2 /\ wc = stage_world w wR w1 s /\ allowed h s p.

(** The routes that receive a [Message]. *)
Inductive route : Type :=
| CheckServer (ray_status : outcome string)
| Install
| PutResource
| CallModuleMethod (module : string) (method : option string)
| RunModule
| GetObject
| PutObject
| RenameObject
| DeleteObj
| GetRunObject
| CancelRun
| GetKeys (env : option string)
| AddSecrets
| CallFn (fn_name : string) (args : pyval).

(** Serving one request; the result is the message object as the route
    leaves it.  The two routes that take no [Message] leave the one at
    hand alone. *)
Definition serve (r : route) (message : Message) : M Message :=
  match r with
  | CheckServer ray_status => run! check_server message ray_status in pure message
  | Install => run! install message in pure message
  | PutResource => run! put_resource message in pure message
  | CallModuleMethod module method =>
      let! p := call_module_method module method (Some message) in pure (snd p)
  | RunModule => run! run_module message in pure message
  | GetObject => get_object message
  | PutObject => run! put_object message in pure message
  | RenameObject => run! rename_object message in pure message
  | DeleteObj => run! delete_obj message in pure message
  | GetRunObject => run! get_run_object message in pure message
  | CancelRun => run! cancel_run message in pure message
  | GetKeys env => run! get_keys env in pure message
  | AddSecrets => run! add_secrets message in pure message
  | CallFn fn_name args => run! call_fn fn_name args in pure message
  end.

End HTTPServer.

(** ** The access control gate (modelled from the spec) *)

Module Auth.

Inductive access : Type := NoAccess | Read | Write.

Definition access_rank (a : access) : nat :=
  match a with NoAccess => 0 | Read => 1 | Write => 2 end.

(** Modelled from the spec: the permission cache of
    runhouse/servers/http/auth.py, which is not among the sources: access
    levels by (credential, resource identifier). *)
Definition level (cache : gmap (string * string) access)
    (credential resource : string) : access :=
  default NoAccess (cache !! (credential, resource)).

(** Modelled from the spec: [authorize(credential, resource_id,
    required_level) -> granted | denied]. *)
Definition authorize (cache : gmap (string * string) access)
    (credential resource : string) (required : access) : bool :=
  (access_rank required <=? access_rank (level cache credential resource))%nat.

(** Modelled from the spec: the special rule for invocations.  Write access
    to the environment is enough; otherwise the credential needs access of
    its own (read or write) to the target resource. *)
Definition authorize_invoke (cache : gmap (string * string) access)
    (credential environment resource : string) : bool :=
  match level cache credential environment with
  | Write => true
  | _ => authorize cache credential resource Read
  end.

End Auth.


(** ** Worlds used in the examples *)

Definition empty_world : World :=
  mkWorld ∅ ∅ [] ∅ ∅ ∅ 0 "20231103_171500_123" ∅ [] (fun _ _ _ => Ret RNone).

(** The server right after start-up: only "base" exists. *)
Definition started_world : World := snd (HTTPServer.init empty_world).

(** A server on which the callable behind "call_fn" raises. *)
Definition failing_world : World :=
  snd (HTTPServer.init
         (mkWorld ∅ ∅ [] ∅ ∅ ∅ 0 "20231103_171500_123" ∅ []
            (fun _ method _ =>
               if String.eqb method "call_fn"
               then Raise (PyException "division by zero")
               else Ret RNone))).

(** The results in a stream: everything but the log batches. *)
Definition results_of (l : list Response) : list Response :=
  List.filter (fun r => negb (has_type STDOUT r)) l.

(** How many polls of a script find the servlet ready to answer. *)
Fixpoint ready_polls (ticks : list tick) : nat :=
  match ticks with
  | [] => 0
  | t :: rest =>
      (match poll t with PollReady => 1 | _ => 0 end) + ready_polls rest
  end.

(** A tick at which the multiplexing loop itself cannot fail: the poll
    answers or times out, and the log files can be read (or are not
    streamed). *)
Definition calm (sl : bool) (t : tick) : Prop :=
  match poll t with PollFail err => is_timeout err = true | _ => True end
  /\ (readable (disk t) \/ sl = false).

(** Every registered handle, and every actor Ray knows by name, stands for
    a live servlet that carries that name. *)
Definition named_consistently (w : World) : Prop :=
  (forall n h, env_servlets w !! n = Some h ->
     exists s, actors w !! handle_actor h = Some s /\ servlet_env s = n)
  /\ (forall n a, ray_named w !! n = Some a ->
       exists s, actors w !! a = Some s /\ servlet_env s = n).

(** The value a key holds after a first write [v] and the [later] writes
    (key, value), in order. *)
Definition last_write (k : string) (v : pyval) (later : list (string * pyval)) : pyval :=
  fold_left (fun acc p => if String.eqb (fst p) k then snd p else acc) later v.

(** The [later] writes arriving one after the other on the put route, all
    addressed to environment [e]. *)
Definition put_all (e : option string) (later : list (string * pyval)) (w : World) : World :=
  fold_left
    (fun w p => snd (HTTPServer.put_object
                       (mkMessage (Some (fst p)) e (snd p) true false false) w))
    later w.

(** Environment [n] holds value [v] under key [k], and the key is known to
    live there. *)
Definition holds (n k : string) (v : pyval) (w : World) : Prop :=
  exists h s,
    env_servlets w !! n = Some h
    /\ actors w !! handle_actor h = Some s
    /\ servlet_env s = n
    /\ store s !! k = Some v
    /\ env_for_key w !! k = Some n.

(** The environment a request is routed to when a key may be looked up. *)
Definition routed (e lk : option string) (w : World) : string :=
  or_default
    (if truthy lk then
       if truthy e then e
       else if truthy (env_for_key w !! default "" lk)
            then env_for_key w !! default "" lk else None
     else e)
    "base".

(** The failures [open] and [readlines] can end in. *)
Definition is_os_error (e : exn) : Prop := exists m, e = OSError m.

(** ** Loop invariants used below *)

(** Whatever is yielded comes from the servlet's queue, is a batch of log
    lines, or is the EXCEPTION response of the generator's own handler. *)
Definition from_queue_or_logs (q0 : list Response) (sl : bool) (st : HTTPServer.gstate) : Prop :=
  (exists done, q0 = (done ++ HTTPServer.queue st)%list)
  /\ Forall (fun r => In r q0 \/ (sl = true /\ exists lines, r = stdout_response lines))
            (HTTPServer.yielded st)
  /\ (sl = false -> HTTPServer.opened st = []).

(** The reference held between two polls: none, or a pending remote call. *)
Definition pending (o : ret) : Prop := o = RNone \/ exists ref, o = RRef ref.

(** What the servlet's [get] can come back as through the dispatcher. *)
Definition fetched (r : ret) : Prop :=
  r = RNone
  \/ (exists v, r = RResp (mkResponse v PNone PNone RESULT))
  \/ (exists e0, r = RResp (exception_response e0)).

(** The shape of a finished stream: partial results and log batches, one
    terminal response, and at most the log lines of the last flush. *)
Definition non_terminal (r : Response) : Prop :=
  output_type r = RESULT_STREAM \/ output_type r = STDOUT.

Definition terminal (r : Response) : Prop :=
  output_type r = RESULT \/ output_type r = EXCEPTION.

Definition one_terminal_then_flush (sl : bool) (l : list Response) : Prop :=
  exists pre t post,
    l = (pre ++ [t] ++ post)%list
    /\ Forall non_terminal pre
    /\ terminal t
    /\ (post = []
        \/ (sl = true /\ exists lines, lines <> [] /\ post = [stdout_response lines])).

(** While the loop waits nothing terminal has been yielded; once it stops
    waiting the stream has its final shape. *)
Definition stream_shape (sl : bool) (st : HTTPServer.gstate) : Prop :=
  Forall (fun r => output_type r <> STDOUT) (HTTPServer.queue st)
  /\ if HTTPServer.waiting_for_results st
     then Forall non_terminal (HTTPServer.yielded st)
     else one_terminal_then_flush sl (HTTPServer.yielded st).

(** While a call to a registered actor is being streamed: the registry is
    the one the stream started with, the held reference is none or pending,
    and as long as the loop waits nothing terminal has been yielded. *)
Definition streaming_inv (w0 : World) (st : HTTPServer.gstate) (w : World) : Prop :=
  env_servlets w = env_servlets w0
  /\ pending (HTTPServer.obj_ref st)
  /\ (HTTPServer.waiting_for_results st = true ->
      Forall non_terminal (HTTPServer.yielded st)).

(** ** Notions used for the further properties *)

(** A handle has read its file to the end (a file that is gone has nothing
    more to give). *)
Definition caught_up (k : string) (w : World) (h : LogHandle) : Prop :=
  match List.find (fun lf => String.eqb (fst lf) (name h)) (default [] (logs w !! k)) with
  | Some (_, Some lines) => pos h = length lines
  | Some (_, None) => False
  | None => True
  end.





(** The bookkeeping of the results generator is in step: the paths it has
    opened are those of the handles it holds, no path twice, all of them
    log files of the call, and none at all when logs are not streamed. *)
Definition tracked (sl : bool) (st : HTTPServer.gstate) : Prop :=
  HTTPServer.opened st = map name (HTTPServer.open_logfiles st)
  /\ NoDup (HTTPServer.opened st)
  /\ Forall (fun f => sl = true /\ glob_matches None f = true) (HTTPServer.opened st).

(** A batch of log lines, as the object generator yields it. *)
Definition is_batch (r : ret) : Prop :=
  exists lines, lines <> [] /\ r = RResp (stdout_response lines).

(** Between two rounds of the object generator: only log batches have been
    yielded, the opened paths are those of the handles held, nothing is
    open before a listing has come back non-empty, and without the flag
    nothing is yielded or opened. *)
Definition object_inv (sl : bool) (st : HTTPServer.ostate) : Prop :=
  Forall is_batch (HTTPServer.oyielded st)
  /\ HTTPServer.oopened st = map name (HTTPServer.open_files st)
  /\ (HTTPServer.no_logfiles (HTTPServer.logfiles st) = true -> HTTPServer.open_files st = [])
  /\ (sl = false -> HTTPServer.oyielded st = [] /\ HTTPServer.oopened st = []).

(** Every registered environment is served by a Ray actor, as are all the
    environments the server creates itself. *)
Definition all_actors (w : World) : Prop :=
  forall n h, env_servlets w !! n = Some h -> exists a, h = ActorHandle a.

(** What the server keeps of its own: the registry, Ray's table of named
    actors and the server's object store. *)
Definition same_server_state (w w' : World) : Prop :=
  env_servlets w' = env_servlets w
  /\ ray_named w' = ray_named w
  /\ obj_store w' = obj_store w.

(** A poll of the results generator: the call of [_get_result_from_stream]
    it starts on actor [a] for key [k]. *)
Definition result_poll (a : nat) (k : string) : ObjectRef :=
  mkRef a "_get_result_from_stream" [AVal (PStr k)].

(** * Properties *)

Import HTTPServer.

Lemma OutputType_eqb_eq a b : OutputType_eqb a b = true <-> a = b.
Proof. destruct a, b; simpl; split; intros H; congruence. Qed.

Lemma OutputType_eqb_neq a b : OutputType_eqb a b = false <-> a <> b.
Proof. destruct a, b; simpl; split; intros H; congruence. Qed.

(** ** The dispatcher never raises *)

Lemma get_env_servlet_create_returns env_name w :
  exists h w', get_env_servlet env_name true w = (Ret h, w').
Proof.
  unfold get_env_servlet, bind, ray_get_if_exists.
  destruct (env_servlets w !! env_name); [eauto |].
  destruct (ray_named w !! env_name); eauto.
Qed.

Lemma try_except_returns {A} (body : M A) (handler : exn -> M A) w :
  (forall e w1, exists a w2, handler e w1 = (Ret a, w2)) ->
  exists a w', try_except body handler w = (Ret a, w').
Proof.
  intros Hh. unfold try_except.
  destruct (body w) as [[a | e] w1]; [eauto | apply Hh].
Qed.

Lemma call_in_env_servlet_returns method args e create lk block w :
  exists r w', call_in_env_servlet method args e create lk block w = (Ret r, w').
Proof.
  unfold call_in_env_servlet, bind at 1. simpl.
  apply try_except_returns. intros e0 w1. unfold bind, register_activity, pure. eauto.
Qed.

(** What the handler of [call_in_env_servlet] builds when the body raises. *)
Lemma call_in_env_servlet_raise method args e create lk block w (body_exn : exn) w1 :
  (let! env :=
     (if truthy lk then
        if truthy e then pure e else lookup_env_for_name (default "" lk) false
      else pure e) in
   let! servlet := get_env_servlet (or_default env "base") create in
   call_servlet_method servlet method args block) (set_last_active S w)
    = (Raise body_exn, w1) ->
  call_in_env_servlet method args e create lk block w
    = (Ret (RResp (exception_response body_exn)), set_last_active S w1).
Proof.
  intros H. unfold call_in_env_servlet, bind at 1. simpl.
  unfold try_except. rewrite H. reflexivity.
Qed.

(** ** Environment registry *)

Lemma truthy_Some n : n <> "" -> truthy (Some n) = true.
Proof. intros H. simpl. apply String.eqb_neq in H. now rewrite H. Qed.

Lemma or_default_Some n d : n <> "" -> or_default (Some n) d = n.
Proof. intros H. unfold or_default, py_or. now rewrite (truthy_Some n H). Qed.

Lemma get_env_servlet_registered env_name create h w :
  env_servlets w !! env_name = Some h ->
  get_env_servlet env_name create w = (Ret h, w).
Proof. intros H. unfold get_env_servlet. now rewrite H. Qed.

Lemma get_env_servlet_missing env_name w :
  env_servlets w !! env_name = None ->
  get_env_servlet env_name false w = (Raise (EnvironmentNotFound env_name), w).
Proof. intros H. unfold get_env_servlet. now rewrite H. Qed.

Lemma dispatch_unfold method args e create lk block w :
  call_in_env_servlet method args e create lk block w =
    match get_env_servlet (routed e lk w) create (set_last_active S w) with
    | (Ret h, w0) =>
        match call_servlet_method h method args block w0 with
        | (Ret r, w') => (Ret r, w')
        | (Raise ex, w') => (Ret (RResp (exception_response ex)), set_last_active S w')
        end
    | (Raise ex, w0) => (Ret (RResp (exception_response ex)), set_last_active S w0)
    end.
Proof.
  unfold call_in_env_servlet, try_except, bind, register_activity, pure, routed,
    lookup_env_for_name.
  simpl.
  change (env_for_key (set_last_active S w)) with (env_for_key w).
  set (w0 := set_last_active S w).
  assert (G : forall n,
    (let (o, w') :=
     let (o0, w'0) := get_env_servlet n create w0 in
         match o0 with
         | Ret a0 => call_servlet_method a0 method args block w'0
         | Raise e0 => (Raise e0, w'0)
         end in
   match o with
   | Ret a => (Ret a, w')
   | Raise e0 => (Ret (RResp (exception_response e0)), set_last_active S w')
   end) =
  (let (o, w1) := get_env_servlet n create w0 in
   match o with
   | Ret h =>
       let (o0, w') := call_servlet_method h method args block w1 in
       match o0 with
       | Ret r => (Ret r, w')
       | Raise ex =>
           (Ret (RResp (exception_response ex)), set_last_active S w')
       end
   | Raise ex => (Ret (RResp (exception_response ex)), set_last_active S w1)
   end)).
  { intros n. destruct (get_env_servlet n create w0) as [[h | ex] w1]; [| reflexivity].
    destruct (call_servlet_method h method args block w1) as [[r | ex] w2]; reflexivity. }
  destruct (truthy lk); [destruct (truthy e) |]; try apply G.
  change (env_for_key w0) with (env_for_key w).
  destruct (truthy (env_for_key w !! default "" lk)); apply G.
Qed.

Lemma dispatch_unregistered method args e lk block w :
  env_servlets w !! routed e lk w = None ->
  call_in_env_servlet method args e false lk block w
  = (Ret (RResp (exception_response (EnvironmentNotFound (routed e lk w)))),
     set_last_active S (set_last_active S w)).
Proof.
  intros Hreg. rewrite dispatch_unfold.
  now rewrite (get_env_servlet_missing _ (set_last_active S w)) by exact Hreg.
Qed.

(** A call started without waiting is in flight until Ray runs it; its
    effect reaches the actor then. *)
Example in_flight_call_reaches_the_actor :
  let started :=
    snd (call_servlet_method (ActorHandle 0) "put_object"
           [AVal (PStr "k"); AVal (PInt 1)] false started_world) in
  let done := snd (ray_runs_next started) in
  issued started = [mkRef 0 "put_object" [AVal (PStr "k"); AVal (PInt 1)]]
  /\ actors started = actors started_world
  /\ issued done = []
  /\ (actors done !! 0) = Some (mkServlet "base" (<["k" := PInt 1]> ∅)).
Proof. vm_compute. auto. Qed.

(** An environment name given as the empty string counts as none: the
    request goes to "base", which serves it, although no environment is
    registered under the empty name. *)
Lemma empty_environment_name_is_served_by_base :
  let w := snd (put_object (mkMessage (Some "k") None (PInt 1) false false false)
                           started_world) in
  env_servlets w !! "" = None
  /\ fst (call_in_env_servlet "get" [AVal (PStr "k"); AWait] (Some "") false None true w)
     = Ret (RResp (mkResponse (PInt 1) PNone PNone RESULT)).
Proof. vm_compute. auto. Qed.

(** C7, as the code has it: for every name that is not registered,
    [get_env_servlet] without [create] raises the "environment does not
    exist" exception and leaves the world as it was, creating nothing;
    every operation dispatched without [create] that is routed to that
    name, with or without a lookup key, comes back as an EXCEPTION response
    carrying that error, and neither the registry nor Ray's actor table nor
    the set of constructed actors has changed; a request is routed to the
    name whenever it names it as a non-empty environment, whatever its
    lookup key, and whenever it names no environment and the name is the
    one recorded for its non-empty key. *)
Theorem unregistered_env_not_found (w : World) (n method : string)
    (args : list arg) (block : bool) :
  env_servlets w !! n = None ->
  get_env_servlet n false w = (Raise (EnvironmentNotFound n), w)
  /\ (forall e lk,
        routed e lk w = n ->
        exists w',
          call_in_env_servlet method args e false lk block w
            = (Ret (RResp (exception_response (EnvironmentNotFound n))), w')
          /\ env_servlets w' = env_servlets w
          /\ ray_named w' = ray_named w
          /\ actors w' = actors w)
  /\ (n <> "" -> forall lk, routed (Some n) lk w = n)
  /\ (n <> "" -> forall e k,
        truthy e = false -> k <> "" -> env_for_key w !! k = Some n ->
        routed e (Some k) w = n).
Proof.
  intros Hnone. split_and!.
  - now apply get_env_servlet_missing.
  - intros e lk Hr. eexists. split.
    + rewrite <- Hr in Hnone. rewrite (dispatch_unregistered _ _ _ _ _ _ Hnone), Hr.
      reflexivity.
    + now simpl.
  - intros Hne lk. unfold routed. rewrite (truthy_Some n Hne).
    destruct (truthy lk); now apply or_default_Some.
  - intros Hne e k He Hk Hrec. unfold routed.
    rewrite (truthy_Some k Hk), He. simpl. rewrite Hrec, (truthy_Some n Hne).
    now apply or_default_Some.
Qed.

Lemma unregistered_env_not_found_witness :
  get_env_servlet "pytorch" false started_world
    = (Raise (EnvironmentNotFound "pytorch"), started_world)
  /\ (forall e lk,
        routed e lk started_world = "pytorch" ->
        exists w',
          call_in_env_servlet "delete_obj" [] e false lk true started_world
            = (Ret (RResp (exception_response (EnvironmentNotFound "pytorch"))), w')
          /\ env_servlets w' = env_servlets started_world
          /\ ray_named w' = ray_named started_world
          /\ actors w' = actors started_world)
  /\ ("pytorch" <> "" -> forall lk, routed (Some "pytorch") lk started_world = "pytorch")
  /\ ("pytorch" <> "" -> forall e k,
        truthy e = false -> k <> "" -> env_for_key started_world !! k = Some "pytorch" ->
        routed e (Some k) started_world = "pytorch").
Proof.
  apply (unregistered_env_not_found started_world "pytorch" "delete_obj" [] true).
  vm_compute. reflexivity.
Defined.

Lemma ray_get_if_exists_returns n w :
  exists a wR, ray_get_if_exists n w = (Ret (ActorHandle a), wR)
    /\ ray_named wR !! n = Some a
    /\ env_servlets wR = env_servlets w.
Proof.
  unfold ray_get_if_exists.
  destruct (ray_named w !! n) as [a |] eqn:E.
  - exists a, w. auto.
  - eexists _, _. split; [reflexivity |]. simpl. split; [apply lookup_insert_eq | reflexivity].
Qed.

Lemma ray_get_if_exists_known n a w :
  ray_named w !! n = Some a ->
  ray_get_if_exists n w = (Ret (ActorHandle a), w).
Proof. intros H. unfold ray_get_if_exists. now rewrite H. Qed.

Lemma set_env_servlets_twice n h w :
  set_env_servlets (insert n h) (set_env_servlets (insert n h) w)
    = set_env_servlets (insert n h) w.
Proof. unfold set_env_servlets. simpl. f_equal. apply insert_insert_eq. Qed.

(** An invariant kept by every step of either thread is kept by every
    interleaving. *)
Lemma interleave_invariant n (I : pc -> World -> Prop) :
  (forall p q wc, I p wc -> I q wc ->
     I (fst (thread_step n true p wc)) (snd (thread_step n true p wc))
     /\ I q (snd (thread_step n true p wc))) ->
  forall schedule p1 p2 wc p1' p2' w',
    I p1 wc -> I p2 wc ->
    interleave n schedule p1 p2 wc = (p1', p2', w') ->
    I p1' w' /\ I p2' w'.
Proof.
  intros Hstep schedule.
  induction schedule as [| b rest IH]; intros p1 p2 wc p1' p2' w' H1 H2 Hrun.
  - simpl in Hrun. inversion Hrun; subst. auto.
  - simpl in Hrun. destruct b.
    + destruct (Hstep p1 p2 wc H1 H2) as [Ha Hb].
      destruct (thread_step n true p1 wc) as [q wq]. simpl in *.
      exact (IH q p2 wq p1' p2' w' Ha Hb Hrun).
    + destruct (Hstep p2 p1 wc H2 H1) as [Ha Hb].
      destruct (thread_step n true p2 wc) as [q wq]. simpl in *.
      exact (IH p1 q wq p1' p2' w' Hb Ha Hrun).
Qed.

(** The name is registered from the start: both threads just read it. *)
Lemma interleave_registered n h0 w schedule p1 p2 w2 :
  env_servlets w !! n = Some h0 ->
  interleave n schedule AtCheck AtCheck w = (p1, p2, w2) ->
  finished p1 = true -> finished p2 = true ->
  p1 = Done h0 /\ p2 = Done h0 /\ w2 = w.
Proof.
  intros Hreg Hrun F1 F2.
  pose (I := fun (p : pc) (wc : World) => wc = w /\ (p = AtCheck \/ p = Done h0)).
  assert (Hinv : I p1 w2 /\ I p2 w2).
  { eapply (interleave_invariant n I); [| | | exact Hrun]; [| split; auto | split; auto].
    intros p q wc [-> Hp] [_ Hq]. unfold I.
    destruct Hp as [-> | ->]; simpl; [rewrite Hreg |]; simpl; auto. }
  destruct Hinv as [[-> [-> | ->]] [_ [-> | ->]]]; simpl in *; try discriminate. auto.
Qed.

Lemma allowed_mono h s s' p : s <= s' -> allowed h s p -> allowed h s' p.
Proof. destruct p; simpl; intuition lia. Qed.

(** One step of a thread racing for an unregistered name keeps both threads
    inside the three stages. *)
Lemma race_step n w wR w1 h p q wc :
  env_servlets w !! n = None ->
  env_servlets wR !! n = None ->
  env_servlets w1 !! n = Some h ->
  ray_get_if_exists n w = (Ret h, wR) ->
  ray_get_if_exists n wR = (Ret h, wR) ->
  ray_get_if_exists n w1 = (Ret h, w1) ->
  set_env_servlets (insert n h) wR = w1 ->
  set_env_servlets (insert n h) w1 = w1 ->
  race_inv w wR w1 h p wc -> race_inv w wR w1 h q wc ->
  race_inv w wR w1 h (fst (thread_step n true p wc)) (snd (thread_step n true p wc))
  /\ race_inv w wR w1 h q (snd (thread_step n true p wc)).
Proof.
  intros Hnone HwR Hw1 Hray HrayR Hray1 Hreg Hsame (s & Hs & -> & Hp) (sq & Hsq & Eq & Hq).
  (* the stage the step leads to *)
  assert (Hnext : exists s', s <= s' /\ s' <= 2
            /\ snd (thread_step n true p (stage_world w wR w1 s)) = stage_world w wR w1 s'
            /\ allowed h s' (fst (thread_step n true p (stage_world w wR w1 s)))).
  { destruct s as [| [| [| s]]]; try lia; destruct p; simpl in *;
      rewrite ?Hnone, ?HwR, ?Hw1, ?Hray, ?HrayR, ?Hray1; simpl;
      try contradiction;
      try match type of Hp with _ /\ _ => destruct Hp as [Hh Hp]; subst end; try lia.
    all: try (exists 0; simpl; repeat split; auto; lia).
    all: try (exists 1; simpl; repeat split; auto; lia).
    all: try (exists 2; simpl; rewrite ?Hreg, ?Hsame; repeat split; auto; lia). }
  destruct Hnext as (s' & Hle & Hs' & Hworld & Hallowed).
  split.
  - exists s'. rewrite Hworld. auto.
  - rewrite Hworld.
    destruct (Nat.le_gt_cases sq s') as [L | G].
    + exists s'. repeat split; auto. eapply allowed_mono; eauto.
    + (* the other thread is at a later stage of the same world: the step
         cannot have gone back *)
      exists sq. repeat split; auto.
      assert (Hdiff : stage_world w wR w1 s' = stage_world w wR w1 sq \/ s < s').
      { destruct (Nat.eq_dec s s') as [<- | Hne]; [left; auto | right; lia]. }
      destruct Hdiff as [E | Hlt]; [exact E |].
      (* s < s' < sq <= 2 forces s = 0, s' = 1, sq = 2, but then w = w1 *)
      assert (s = 0) as -> by lia. assert (s' = 1) as -> by lia.
      assert (sq = 2) as -> by lia. simpl in Eq.
      rewrite Eq in Hnone. rewrite Hw1 in Hnone. discriminate.
Qed.

(** The name is not registered: whoever reaches Ray first constructs the
    actor (unless Ray already holds one), and everybody registers that one. *)
Lemma interleave_unregistered n w h wR schedule p1 p2 w2 :
  env_servlets w !! n = None ->
  ray_get_if_exists n w = (Ret h, wR) ->
  interleave n schedule AtCheck AtCheck w = (p1, p2, w2) ->
  finished p1 = true -> finished p2 = true ->
  p1 = Done h /\ p2 = Done h /\ w2 = set_env_servlets (insert n h) wR.
Proof.
  intros Hnone Hray Hrun F1 F2.
  destruct (ray_get_if_exists_returns n w) as (a & wR' & Hray' & Hnamed & Henv).
  rewrite Hray in Hray'. inversion Hray'; subst h wR'. clear Hray'.
  set (w1 := set_env_servlets (insert n (ActorHandle a)) wR).
  assert (HwR : env_servlets wR !! n = None) by (now rewrite Henv).
  assert (Hw1 : env_servlets w1 !! n = Some (ActorHandle a))
    by (unfold w1; simpl; apply lookup_insert_eq).
  assert (HrayR : ray_get_if_exists n wR = (Ret (ActorHandle a), wR))
    by (now apply ray_get_if_exists_known).
  assert (Hray1 : ray_get_if_exists n w1 = (Ret (ActorHandle a), w1))
    by (apply ray_get_if_exists_known; exact Hnamed).
  assert (Hsame : set_env_servlets (insert n (ActorHandle a)) w1 = w1)
    by (unfold w1; apply set_env_servlets_twice).
  assert (Hinv : race_inv w wR w1 (ActorHandle a) p1 w2
                 /\ race_inv w wR w1 (ActorHandle a) p2 w2).
  { eapply (interleave_invariant n (race_inv w wR w1 (ActorHandle a)));
      [| | | exact Hrun].
    - intros p q wc Hp Hq. now apply race_step.
    - exists 0. simpl. auto.
    - exists 0. simpl. auto. }
  assert (G : forall p wc, finished p = true ->
            race_inv w wR w1 (ActorHandle a) p wc ->
            wc = w1 /\ p = Done (ActorHandle a)).
  { intros p wc F (s & Hs & -> & Hp).
    destruct p; simpl in F; try discriminate; simpl in Hp; [| contradiction].
    destruct Hp as [-> Hp]. assert (s = 2) as -> by lia. auto. }
  destruct Hinv as [H1 H2].
  destruct (G _ _ F1 H1) as [-> ->]. destruct (G _ _ F2 H2) as [_ ->]. auto.
Qed.

Lemma steps_left_step n p w :
  steps_left (fst (thread_step n true p w)) <= steps_left p - 1.
Proof.
  destruct p; simpl; try lia.
  - destruct (env_servlets w !! n); simpl; lia.
  - destruct (ray_get_if_exists n w) as [[h | e] w']; simpl; lia.
Qed.

(** Three turns are enough for a thread to be through, whatever the other
    thread does in between. *)
Lemma interleave_progress n schedule p1 p2 w p1' p2' w' :
  interleave n schedule p1 p2 w = (p1', p2', w') ->
  steps_left p1' <= steps_left p1 - turns true schedule
  /\ steps_left p2' <= steps_left p2 - turns false schedule.
Proof.
  revert p1 p2 w.
  induction schedule as [| b rest IH]; intros p1 p2 w Hrun; simpl in Hrun.
  - inversion Hrun; subst. simpl. lia.
  - destruct b.
    + pose proof (steps_left_step n p1 w) as Hs.
      destruct (thread_step n true p1 w) as [q wq]. simpl in Hs.
      destruct (IH _ _ _ Hrun) as [A B]. simpl. lia.
    + pose proof (steps_left_step n p2 w) as Hs.
      destruct (thread_step n true p2 w) as [q wq]. simpl in Hs.
      destruct (IH _ _ _ Hrun) as [A B]. simpl. lia.
Qed.

Lemma steps_left_finished p : steps_left p = 0 -> finished p = true.
Proof. destruct p; simpl; intros; auto; discriminate. Qed.

(** C6: [get_env_servlet] with [create] returns the handle already
    registered under the name when there is one, leaving the world alone;
    otherwise it registers a handle under the name before returning, having
    constructed exactly one actor (none when Ray already holds an actor of
    that name); a second call returns the same handle and constructs
    nothing; and any interleaving of two calls racing for the name ends with
    both holding that same handle, in the very world one call alone leaves
    behind, so no second actor is constructed. *)
Theorem get_env_servlet_idempotent_by_name (w : World) (n : string) :
  exists h w1,
    get_env_servlet n true w = (Ret h, w1)
    /\ env_servlets w1 !! n = Some h
    /\ (forall h0, env_servlets w !! n = Some h0 -> h = h0 /\ w1 = w)
    /\ (env_servlets w !! n = None ->
        match ray_named w !! n with
        | None => h = ActorHandle (length (actors w))
                  /\ actors w1 = (actors w ++ [mkServlet n ∅])%list
        | Some a => h = ActorHandle a /\ actors w1 = actors w
        end)
    /\ get_env_servlet n true w1 = (Ret h, w1)
    /\ (forall schedule p1 p2 w2,
          interleave n schedule AtCheck AtCheck w = (p1, p2, w2) ->
          (3 <= turns true schedule -> 3 <= turns false schedule ->
           finished p1 = true /\ finished p2 = true)
          /\ (finished p1 = true -> finished p2 = true ->
              p1 = Done h /\ p2 = Done h /\ w2 = w1)).
Proof.
  destruct (env_servlets w !! n) as [h0 |] eqn:Hreg.
  - exists h0, w. rewrite (get_env_servlet_registered n true h0 w Hreg).
    split; [reflexivity |]. split; [exact Hreg |].
    split; [intros h1 [= ->]; auto |].
    split; [intros [=] |].
    split; [reflexivity |].
    intros schedule p1 p2 w2 Hrun. split.
    + intros T1 T2. destruct (interleave_progress _ _ _ _ _ _ _ _ Hrun) as [A B].
      split; apply steps_left_finished; simpl in *; lia.
    + intros F1 F2.
      exact (interleave_registered n h0 w schedule p1 p2 w2 Hreg Hrun F1 F2).
  - destruct (ray_get_if_exists_returns n w) as (a & wR & Hray & Hnamed & Henv).
    exists (ActorHandle a), (set_env_servlets (insert n (ActorHandle a)) wR).
    assert (Hcall : get_env_servlet n true w
                    = (Ret (ActorHandle a), set_env_servlets (insert n (ActorHandle a)) wR)).
    { unfold get_env_servlet. rewrite Hreg. unfold bind. now rewrite Hray. }
    assert (Hnow : env_servlets (set_env_servlets (insert n (ActorHandle a)) wR) !! n
                   = Some (ActorHandle a)) by (simpl; apply lookup_insert_eq).
    split; [exact Hcall |]. split; [exact Hnow |].
    split; [intros h0 [=] |].
    split.
    { intros _. unfold ray_get_if_exists in Hray.
      destruct (ray_named w !! n) as [a0 |]; inversion Hray; subst; simpl; auto. }
    split; [now apply get_env_servlet_registered |].
    intros schedule p1 p2 w2 Hrun. split.
    + intros T1 T2. destruct (interleave_progress _ _ _ _ _ _ _ _ Hrun) as [A B].
      split; apply steps_left_finished; simpl in *; lia.
    + intros F1 F2.
      exact (interleave_unregistered n w (ActorHandle a) wR schedule p1 p2 w2
               Hreg Hray Hrun F1 F2).
Qed.

(** Two requests for "base" racing on a server whose registry is empty. *)
Example concurrent_base_requests :
  interleave "base" [true; false; false; true; true; false] AtCheck AtCheck empty_world
    = (Done (ActorHandle 0), Done (ActorHandle 0),
       snd (get_env_servlet "base" true empty_world))
  /\ length (actors (snd (get_env_servlet "base" true empty_world))) = 1.
Proof. vm_compute. split; reflexivity. Qed.

(** ** Access control *)

(** C5: with write access to the environment an invocation is authorized
    whatever the credential's access to the target resource, even none; with
    read access to the environment and no access to the resource it is
    denied. *)
Theorem environment_write_access_grants_invoke
    (cache : gmap (string * string) Auth.access) (c E r : string) :
  (Auth.level cache c E = Auth.Write -> Auth.authorize_invoke cache c E r = true)
  /\ (Auth.level cache c E = Auth.Read -> Auth.level cache c r = Auth.NoAccess ->
      Auth.authorize_invoke cache c E r = false).
Proof.
  unfold Auth.authorize_invoke, Auth.authorize. split.
  - intros ->. reflexivity.
  - intros -> ->. reflexivity.
Qed.

(** The two sharing scenarios of the test suite: the cluster shared with
    write access and the function not shared at all; the cluster shared
    read-only and the function not shared. *)
Example invoke_with_cluster_write_access :
  Auth.authorize_invoke {[ ("token", "cluster") := Auth.Write ]} "token" "cluster" "summer" = true
  /\ Auth.authorize_invoke {[ ("token", "cluster") := Auth.Read ]} "token" "cluster" "summer" = false
  /\ Auth.authorize_invoke {[ ("token", "summer") := Auth.Read ]} "token" "cluster" "summer" = true.
Proof. vm_compute. auto. Qed.

(** ** Messages *)

(** Not every route leaves the message it processes alone: from
    [call_module_method] a message that arrived without a key leaves with a
    generated one. *)
Lemma call_module_method_fills_missing_key :
  let message := mkMessage None None PNone true false false in
  exists rep message' w',
    call_module_method "summer" (Some "__call__") (Some message) started_world
      = (Ret (rep, message'), w')
    /\ key message' = Some "summer_20231103_171500_123"
    /\ key message' <> key message.
Proof.
  eexists _, _, _. split; [vm_compute; reflexivity |]. simpl. split; [reflexivity | discriminate].
Qed.

Lemma call_module_method_message module method message w :
  exists rep w',
    call_module_method module method (Some message) w
      = (Ret (rep,
              set_key (if truthy (key message) then key message
                       else Some ((if bool_decide
                                        ((if bool_decide (method = Some "None")
                                          then None else method) = Some "__call__")
                                      || negb (truthy (if bool_decide (method = Some "None")
                                                       then None else method))
                                   then module
                                   else module ++ "_" ++
                                        default "" (if bool_decide (method = Some "None")
                                                    then None else method))
                                  ++ "_" ++ clock w))
                      message), w').
Proof.
  unfold call_module_method. unfold bind at 1. simpl.
  set (method' := if bool_decide (method = Some "None") then None else method).
  set (prefix := if bool_decide (method' = Some "__call__") || negb (truthy method')
                 then module else module ++ "_" ++ default "" method').
  unfold bind at 1.
  destruct (truthy (key message)) eqn:Hk.
  - unfold pure at 1.
    unfold bind at 1.
    match goal with
    | |- context [try_except ?b ?h ?w0] =>
        destruct (try_except_returns b h w0) as (r & w1 & Hr)
    end.
    { intros e0 w1. unfold bind, register_activity, pure. eauto. }
    rewrite Hr. unfold pure. eauto.
  - unfold bind at 1, _generate_default_name, pure at 1. simpl.
    unfold bind at 1.
    match goal with
    | |- context [try_except ?b ?h ?w0] =>
        destruct (try_except_returns b h w0) as (r & w1 & Hr)
    end.
    { intros e0 w1. unfold bind, register_activity, pure. eauto. }
    rewrite Hr. unfold pure. eauto.
Qed.

(** C9, as the code has it: every route returns, and leaves the fields
    [env], [data], [stream_logs], [save] and [remote] of the message it
    processed as they were; the [key] is left as it was too, except that
    [call_module_method] gives a message that arrived without a key (absent
    or empty) a generated one. *)
Theorem routes_leave_message_fields (r : route) (message : Message) (w : World) :
  exists message' w',
    serve r message w = (Ret message', w')
    /\ env message' = env message
    /\ mdata message' = mdata message
    /\ stream_logs message' = stream_logs message
    /\ save message' = save message
    /\ remote message' = remote message
    /\ (key message' = key message
        \/ (truthy (key message) = false /\ truthy (key message') = true
            /\ exists module method, r = CallModuleMethod module method)).
Proof.
  assert (Hsame : forall (c : M ret),
            (exists x w1, c w = (Ret x, w1)) ->
            exists message' w',
              (run! c in pure message) w = (Ret message', w') /\ message' = message).
  { intros c (x & w1 & Hc). unfold bind, pure. rewrite Hc. eauto. }
  assert (Hdone : (exists message' w', serve r message w = (Ret message', w')
                                       /\ message' = message) ->
            exists message' w',
              serve r message w = (Ret message', w')
              /\ env message' = env message
              /\ mdata message' = mdata message
              /\ stream_logs message' = stream_logs message
              /\ save message' = save message
              /\ remote message' = remote message
              /\ (key message' = key message
                  \/ (truthy (key message) = false /\ truthy (key message') = true
                      /\ exists module method, r = CallModuleMethod module method))).
  { intros (m' & w' & H & ->). exists message, w'. repeat split; auto. }
  destruct r; try (apply Hdone; simpl; apply Hsame; apply call_in_env_servlet_returns).
  - apply Hdone. simpl. unfold check_server, bind, register_activity, pure.
    destruct ray_status; simpl; eauto.
  - clear Hdone Hsame. simpl.
    destruct (call_module_method_message module method message w) as (rep & w' & H).
    unfold bind at 1. rewrite H. unfold pure. simpl.
    eexists _, _. split; [reflexivity |]. simpl. repeat split.
    destruct (truthy (key message)) eqn:Hk; [left; reflexivity |].
    right. split; [reflexivity |]. split; [| eauto].
    simpl. destruct (_ ++ "_" ++ clock w) eqn:E; [| reflexivity].
    exfalso. revert E.
    match goal with |- (?a ++ ?b = "") -> _ => destruct a; simpl; discriminate end.
  - apply Hdone. simpl. unfold get_object, bind, register_activity, pure. eauto.
  - apply Hdone. simpl. apply Hsame. unfold get_keys.
    destruct (truthy env0); [apply call_in_env_servlet_returns | eauto].
Qed.

(** ** Reading the log files *)

Lemma os_error_not_timeout e : is_os_error e -> is_timeout e = false.
Proof. intros [m ->]. reflexivity. Qed.

Lemma find_some_in {A} (f : A -> bool) l x : List.find f l = Some x -> In x l /\ f x = true.
Proof. apply List.find_some. Qed.

Lemma open_file_raises k f w e : open_file k f w = Raise e -> is_os_error e.
Proof.
  unfold open_file.
  destruct (List.find _ _) as [[? [?|]] |]; intros [=]; subst; eexists; reflexivity.
Qed.

Lemma open_each_raises k logfiles open_files w e hs :
  open_each k logfiles open_files w = (Some e, hs) -> is_os_error e.
Proof.
  revert open_files. induction logfiles as [| f rest IH]; intros open_files; simpl.
  - intros [=].
  - destruct (existsb _ open_files); [apply IH |].
    destruct (open_file k f w) as [h | e0] eqn:Ho; [apply IH |].
    intros [= <- <-]. eapply open_file_raises; eauto.
Qed.

Lemma readlines_raises k h w e : readlines k h w = Raise e -> is_os_error e.
Proof.
  unfold readlines.
  destruct (List.find _ _) as [[? [?|]] |]; intros [=]; subst; eexists; reflexivity.
Qed.

Lemma read_all_raises k hs w e ls hs' :
  read_all k hs w = (Some e, ls, hs') -> is_os_error e.
Proof.
  revert ls hs'. induction hs as [| h rest IH]; intros ls hs'; simpl.
  - intros [=].
  - destruct (readlines k h w) as [[fl h'] | e0] eqn:Hr.
    + destruct (read_all k rest w) as [[oe rl] rest'] eqn:Hall.
      intros [= -> <- <-]. eapply IH; eauto.
    + intros [= <- <- <-]. eapply readlines_raises; eauto.
Qed.

(** On a readable directory nothing raises. *)
Lemma open_file_readable k f w files :
  logs w !! k = Some files ->
  readable (Some files) ->
  In f (map fst files) ->
  exists h, open_file k f w = Ret h.
Proof.
  intros Hl Hr Hin. unfold open_file. rewrite Hl. simpl.
  destruct (List.find (fun lf => String.eqb (fst lf) f) files) as [[f' c] |] eqn:Hf.
  - apply find_some_in in Hf as [Hf _].
    simpl in Hr. rewrite List.Forall_forall in Hr. specialize (Hr _ Hf). simpl in Hr.
    destruct c; [eauto | congruence].
  - exfalso. apply in_map_iff in Hin as ([f' c] & <- & Hin).
    apply (List.find_none _ _ Hf) in Hin. simpl in Hin.
    rewrite String.eqb_refl in Hin. discriminate.
Qed.

Lemma open_each_readable k logfiles open_files w files :
  logs w !! k = Some files ->
  readable (Some files) ->
  (forall f, In f logfiles -> In f (map fst files)) ->
  exists hs, open_each k logfiles open_files w = (None, hs).
Proof.
  intros Hl Hr. revert open_files.
  induction logfiles as [| f rest IH]; intros open_files Hsub; simpl; [eauto |].
  destruct (existsb _ open_files).
  - apply IH. intros; apply Hsub; now right.
  - destruct (open_file_readable k f w files Hl Hr) as [h ->]; [apply Hsub; now left |].
    apply IH. intros; apply Hsub; now right.
Qed.

Lemma get_logfiles_listed k lt w files l :
  logs w !! k = Some files ->
  _get_logfiles k lt w = Some l ->
  forall f, In f l -> In f (map fst files).
Proof.
  unfold _get_logfiles. intros ->. intros [= <-] f Hin.
  apply in_map_iff in Hin as (x & <- & Hin).
  apply in_map. apply list_elem_of_In in Hin. apply list_elem_of_filter in Hin as [_ Hin].
  now apply list_elem_of_In.
Qed.

Lemma open_new_logfiles_readable k open_files w :
  readable (logs w !! k) ->
  exists hs, open_new_logfiles k open_files w = (None, hs).
Proof.
  intros Hr. unfold open_new_logfiles.
  destruct (_get_logfiles k None w) as [[| f rest] |] eqn:Hg; eauto.
  destruct (logs w !! k) as [files |] eqn:Hl.
  - eapply open_each_readable; eauto. eapply get_logfiles_listed; eauto.
  - unfold _get_logfiles in Hg. rewrite Hl in Hg. discriminate.
Qed.

Lemma readlines_readable k h w :
  readable (logs w !! k) ->
  exists ls h', readlines k h w = Ret (ls, h').
Proof.
  intros Hr. unfold readlines.
  destruct (logs w !! k) as [files |]; simpl; [| eauto].
  destruct (List.find _ files) as [[f' c] |] eqn:Hf; [| eauto].
  apply find_some_in in Hf as [Hf _].
  simpl in Hr. rewrite List.Forall_forall in Hr. specialize (Hr _ Hf). simpl in Hr.
  destruct c; [eauto | congruence].
Qed.

Lemma read_all_readable k hs w :
  readable (logs w !! k) ->
  exists ls hs', read_all k hs w = (None, ls, hs').
Proof.
  intros Hr. induction hs as [| h rest IH]; simpl; [eauto |].
  destruct (readlines_readable k h w Hr) as (ls & h' & ->).
  destruct IH as (ls' & hs' & ->). eauto.
Qed.

Lemma logs_set_disk k d w : logs (set_disk k d w) !! k = d.
Proof.
  unfold set_disk. simpl. destruct d; [apply lookup_insert_eq | apply lookup_delete_eq].
Qed.

(** ** One flush of the logs *)

Lemma flush_logs_spec k sl st w oe st' :
  flush_logs k sl st w = (oe, st') ->
  obj_ref st' = obj_ref st
  /\ waiting_for_results st' = waiting_for_results st
  /\ queue st' = queue st
  /\ (exists flushed,
        yielded st' = (yielded st ++ flushed)%list
        /\ (flushed = []
            \/ exists lines, lines <> [] /\ flushed = [stdout_response lines]
                             /\ oe = None /\ sl = true))
  /\ (forall e, oe = Some e -> is_os_error e /\ sl = true)
  /\ (sl = false -> opened st' = opened st).
Proof.
  unfold flush_logs. intros H.
  assert (Hnil : forall l : list Response, exists flushed,
            l = (l ++ flushed)%list
            /\ (flushed = []
                \/ exists lines, lines <> [] /\ flushed = [stdout_response lines]
                                 /\ oe = None /\ sl = true)).
  { intros l. exists []. rewrite app_nil_r. auto. }
  destruct sl.
  - destruct (open_new_logfiles k (open_logfiles st) w) as [[e1 |] files] eqn:Ho.
    + inversion H; subst; simpl. split_and!; auto; [| discriminate].
      intros e' [= <-]. split; [| reflexivity]. unfold open_new_logfiles in Ho.
      destruct (_get_logfiles k None w) as [[| f rest] |]; try discriminate.
      eapply open_each_raises; eauto.
    + destruct (read_all k files w) as [[[e2 |] ret_lines] files'] eqn:Hr.
      * inversion H; subst; simpl. split_and!; auto; [| discriminate].
        intros e' [= <-]. split; [| reflexivity]. eapply read_all_raises; eauto.
      * inversion H; subst; simpl. split_and!; auto; try discriminate.
        destruct ret_lines as [| l ls]; [apply Hnil |].
        eexists. split; [reflexivity |]. right. exists (l :: ls).
        split_and!; auto.
  - simpl in H. inversion H; subst; simpl. rewrite app_nil_r.
    split_and!; auto; discriminate.
Qed.

Lemma flush_logs_quiet k sl st w :
  readable (logs w !! k) \/ sl = false ->
  exists st', flush_logs k sl st w = (None, st').
Proof.
  intros Hq. unfold flush_logs. destruct sl.
  - destruct Hq as [Hr | ?]; [| discriminate].
    destruct (open_new_logfiles_readable k (open_logfiles st) w Hr) as [hs ->].
    destruct (read_all_readable k hs w Hr) as (ls & hs' & ->). eauto.
  - simpl. eauto.
Qed.

(** ** What a dispatch leaves untouched *)

Lemma servlet_call_frame a method args w r w' :
  EnvServlet.call a method args w = (r, w') ->
  env_servlets w' = env_servlets w /\ logs w' = logs w /\ ray_named w' = ray_named w.
Proof.
  unfold EnvServlet.call.
  destruct (String.eqb method "put_object").
  { destruct args as [| [[] | |] [| [] [| ]]]; unfold raise; try (intros [= <- <-]; auto).
    unfold EnvServlet.put_object. destruct (actors w !! a); intros [= <- <-]; auto. }
  destruct (String.eqb method "get").
  { destruct args as [| [[] | |] [| [] [| ]]]; unfold raise; try (intros [= <- <-]; auto).
    unfold EnvServlet.get. destruct (actors w !! a) as [s0 |]; [| intros [= <- <-]; auto].
    destruct (store s0 !! s); intros [= <- <-]; auto. }
  destruct (String.eqb method "get_logfiles").
  { destruct args as [| [[] | |] [| ]]; unfold raise; try (intros [= <- <-]; auto).
    unfold EnvServlet.get_logfiles. destruct (logs w !! s); intros [= <- <-]; auto. }
  destruct (actors w !! a); intros [= <- <-]; auto.
Qed.

Lemma call_in_env_servlet_frame method args e lk block w r w' :
  call_in_env_servlet method args e false lk block w = (r, w') ->
  env_servlets w' = env_servlets w /\ logs w' = logs w /\ ray_named w' = ray_named w.
Proof.
  unfold call_in_env_servlet, bind at 1. simpl. unfold try_except.
  set (w0 := set_last_active S w).
  assert (F0 : env_servlets w0 = env_servlets w /\ logs w0 = logs w
               /\ ray_named w0 = ray_named w) by (simpl; auto).
  clearbody w0.
  match goal with |- context [bind ?c ?f w0] => destruct (bind c f w0) as [[x | ex] w1] eqn:Hb end.
  - intros [= <- <-]. revert Hb. unfold bind.
    match goal with |- context [?c w0] =>
      match type of c with M (option string) => destruct (c w0) as [[env' | ee] w2] eqn:Hl end end;
      [| discriminate].
    assert (w2 = w0) as ->.
    { revert Hl. unfold lookup_env_for_name, pure.
      repeat match goal with |- context [if ?b then _ else _] => destruct b end;
        intros [= <- <-]; auto. }
    unfold get_env_servlet.
    destruct (env_servlets w0 !! or_default env' "base") as [h |]; [| discriminate].
    unfold call_servlet_method. destruct h as [a | a].
    + destruct block; [unfold ray_get; simpl | unfold pure; intros [= <- <-]; auto].
      intros Hc. apply servlet_call_frame in Hc. intuition congruence.
    + intros Hc. apply servlet_call_frame in Hc. intuition congruence.
  - unfold bind, register_activity, pure. intros [= <- <-]. simpl.
    revert Hb. unfold bind.
    match goal with |- context [?c w0] =>
      match type of c with M (option string) => destruct (c w0) as [[env' | ee] w2] eqn:Hl end end.
    + assert (w2 = w0) as ->.
      { revert Hl. unfold lookup_env_for_name, pure.
        repeat match goal with |- context [if ?b then _ else _] => destruct b end;
          intros [= <- <-]; auto. }
      unfold get_env_servlet.
      destruct (env_servlets w0 !! or_default env' "base") as [h |];
        [| intros [= <- <-]; auto].
      unfold call_servlet_method. destruct h as [a | a].
      * destruct block; [unfold ray_get; simpl | unfold pure; discriminate].
        intros Hc. apply servlet_call_frame in Hc. intuition congruence.
      * intros Hc. apply servlet_call_frame in Hc. intuition congruence.
    + intros [= <- <-]. revert Hl. unfold lookup_env_for_name, pure.
      repeat match goal with |- context [if ?b then _ else _] => destruct b end;
        intros [=].
Qed.

(** ** One iteration of the streaming loop *)

Lemma ray_get_timeout_spec o ev q res q' :
  ray_get_timeout o ev q = (res, q') ->
  match res with
  | Ret (Some r) => q = r :: q'
  | _ => q' = q
  end.
Proof.
  unfold ray_get_timeout.
  destruct o; try (intros [= <- <-]; reflexivity).
  destruct ev; try (intros [= <- <-]; reflexivity).
  destruct q as [| r q0]; intros [= <- <-]; reflexivity.
Qed.

Lemma poll_and_flush_spec k sl t o st w oe st' :
  poll_and_flush k sl t o st w = (oe, st') ->
  exists polled flushed,
    yielded st' = (yielded st ++ polled ++ flushed)%list
    /\ queue st = (polled ++ queue st')%list
    /\ ((polled = [] /\ waiting_for_results st' = waiting_for_results st)
        \/ exists r, polled = [r]
             /\ waiting_for_results st'
                = (if OutputType_eqb (output_type r) RESULT_STREAM
                   then waiting_for_results st else false))
    /\ (flushed = []
        \/ exists lines, lines <> [] /\ flushed = [stdout_response lines]
                         /\ oe = None /\ sl = true)
    /\ (forall e, oe = Some e ->
          is_timeout e = false /\ flushed = []
          /\ (readable (logs w !! k) \/ sl = false -> polled = []))
    /\ (sl = false -> opened st' = opened st).
Proof.
  unfold poll_and_flush. simpl.
  destruct (ray_get_timeout o (poll t) (queue st)) as [[[r |] | e] q] eqn:Hg;
    pose proof (ray_get_timeout_spec _ _ _ _ _ Hg) as Hq; simpl in Hq.
  - intros Hf. pose proof Hf as Hf0.
    apply flush_logs_spec in Hf as (_ & Hw & Hqq & (fl & Hy & Hfl) & He & Ho). simpl in *.
    exists [r], fl. split_and!; auto.
    + rewrite Hy. now rewrite <- app_assoc.
    + rewrite Hqq. exact Hq.
    + right. exists r. auto.
    + intros e Hoe. destruct (He e Hoe) as [Hos Hsl]. split_and!.
      * now apply os_error_not_timeout.
      * destruct Hfl as [-> | (ls & _ & _ & Hnone & _)]; [reflexivity | congruence].
      * intros Hrd. exfalso. subst oe.
        match type of Hf0 with flush_logs ?k0 ?sl0 ?s0 ?w0 = _ =>
          destruct (flush_logs_quiet k0 sl0 s0 w0 Hrd) as [st2 Hst2] end.
        congruence.
  - intros Hf. subst q.
    pose proof Hf as Hf0.
    apply flush_logs_spec in Hf as (_ & Hw & Hqq & (fl & Hy & Hfl) & He & Ho). simpl in *.
    exists [], fl. split_and!; auto.
    intros e Hoe. destruct (He e Hoe) as [Hos Hsl]. split_and!; auto.
    + now apply os_error_not_timeout.
    + destruct Hfl as [-> | (ls & _ & _ & Hnone & _)]; [reflexivity | congruence].
  - subst q. destruct (is_timeout e) eqn:Ht.
    + intros Hf.
      apply flush_logs_spec in Hf as (_ & Hw & Hqq & (fl & Hy & Hfl) & He & Ho). simpl in *.
      exists [], fl. split_and!; auto.
      intros e0 Hoe. destruct (He e0 Hoe) as [Hos Hsl]. split_and!; auto.
      * now apply os_error_not_timeout.
      * destruct Hfl as [-> | (ls & _ & _ & Hnone & _)]; [reflexivity | congruence].
    + intros [= <- <-]. simpl. exists [], []. rewrite app_nil_r.
      split_and!; auto. intros e0 [= <-]. auto.
Qed.

Lemma call_for_result_registered k e a w :
  env_servlets w !! or_default e "base" = Some (ActorHandle a) ->
  call_in_env_servlet "_get_result_from_stream" [AVal (PStr k)] e false None false w
    = (Ret (RRef (mkRef a "_get_result_from_stream" [AVal (PStr k)])),
       set_issued
         (fun l => (l ++ [mkRef a "_get_result_from_stream" [AVal (PStr k)]])%list)
         (set_last_active S w)).
Proof.
  intros Hreg. unfold call_in_env_servlet, bind at 1. simpl.
  unfold try_except, bind, pure. simpl.
  unfold get_env_servlet. simpl. rewrite Hreg. reflexivity.
Qed.

Lemma iteration_unfold k e sl t st w :
  exists o w1,
    iteration k e sl t st w = (poll_and_flush k sl t o st w1, w1)
    /\ logs w1 !! k = disk t
    /\ env_servlets w1 = env_servlets w
    /\ (is_none (obj_ref st) = false -> o = obj_ref st)
    /\ (forall a, env_servlets w !! or_default e "base" = Some (ActorHandle a) ->
        is_none (obj_ref st) = true -> exists ref, o = RRef ref).
Proof.
  unfold iteration.
  destruct (is_none (obj_ref st)) eqn:Hn.
  - destruct (call_in_env_servlet_returns "_get_result_from_stream" [AVal (PStr k)]
                e false None false (set_disk k (disk t) w)) as (o & w1 & Hc).
    rewrite Hc. exists o, w1.
    pose proof (call_in_env_servlet_frame _ _ _ _ _ _ _ _ Hc) as (F1 & F2 & _).
    split_and!; auto.
    + rewrite F2. apply logs_set_disk.
    + discriminate.
    + intros a Hreg _.
      rewrite (call_for_result_registered k e a (set_disk k (disk t) w)) in Hc by exact Hreg.
      inversion Hc; subst. eauto.
  - exists (obj_ref st), (set_disk k (disk t) w). split_and!; auto.
    + apply logs_set_disk.
    + discriminate.
Qed.

Lemma iteration_spec k e sl t st w oe st' w' :
  iteration k e sl t st w = (oe, st', w') ->
  exists polled flushed,
    yielded st' = (yielded st ++ polled ++ flushed)%list
    /\ queue st = (polled ++ queue st')%list
    /\ ((polled = [] /\ waiting_for_results st' = waiting_for_results st)
        \/ exists r, polled = [r]
             /\ waiting_for_results st'
                = (if OutputType_eqb (output_type r) RESULT_STREAM
                   then waiting_for_results st else false))
    /\ (flushed = []
        \/ exists lines, lines <> [] /\ flushed = [stdout_response lines]
                         /\ oe = None /\ sl = true)
    /\ (forall e0, oe = Some e0 ->
          is_timeout e0 = false /\ flushed = []
          /\ (readable (disk t) \/ sl = false -> polled = []))
    /\ (sl = false -> opened st' = opened st)
    /\ env_servlets w' = env_servlets w.
Proof.
  destruct (iteration_unfold k e sl t st w) as (o & w1 & -> & Hlogs & Henv & _).
  destruct (poll_and_flush k sl t o st w1) as [oe1 st1] eqn:Hp.
  intros [= <- <- <-].
  destruct (poll_and_flush_spec _ _ _ _ _ _ _ _ Hp)
    as (polled & flushed & H1 & H2 & H3 & H4 & H5 & H6).
  exists polled, flushed. rewrite Hlogs in H5. split_and!; auto.
Qed.

(** ** The loop as a whole *)

(** A property of the loop variables and the world that every iteration
    of the script keeps holds when the loop stops, however it stops. *)
Lemma results_loop_invariant k e sl (P : gstate -> World -> Prop)
    (R : exn -> gstate -> World -> Prop) ticks :
  (forall t st w oe st' w',
      In t ticks ->
      waiting_for_results st = true -> P st w ->
      iteration k e sl t st w = (oe, st', w') ->
      match oe with None => P st' w' | Some e0 => R e0 st' w' end) ->
  forall st w ex st' w',
    P st w ->
    results_loop k e sl ticks st w = (ex, st', w') ->
    match ex with
    | LoopDone => P st' w' /\ waiting_for_results st' = false
    | LoopWaiting => P st' w' /\ waiting_for_results st' = true
    | LoopRaised e0 => R e0 st' w'
    end.
Proof.
  induction ticks as [| t rest IH]; intros Hstep st w ex st' w' HP; simpl.
  - destruct (waiting_for_results st) eqn:Hw; intros [= <- <- <-]; auto.
  - destruct (waiting_for_results st) eqn:Hw; [| intros [= <- <- <-]; auto].
    destruct (iteration k e sl t st w) as [[[e0 |] st1] w1] eqn:Hi.
    + intros [= <- <- <-]. exact (Hstep _ _ _ _ _ _ (or_introl eq_refl) Hw HP Hi).
    + apply IH.
      * intros t0 s0 w0 oe0 s0' w0' Hin. apply Hstep. now right.
      * exact (Hstep _ _ _ _ _ _ (or_introl eq_refl) Hw HP Hi).
Qed.

(** The loop over a script in two parts. *)
Lemma results_loop_app k e sl ticks1 ticks2 st w :
  results_loop k e sl (ticks1 ++ ticks2) st w =
    match results_loop k e sl ticks1 st w with
    | (LoopWaiting, st1, w1) => results_loop k e sl ticks2 st1 w1
    | other => other
    end.
Proof.
  revert st w. induction ticks1 as [| t rest IH]; intros st w; simpl.
  - destruct (waiting_for_results st) eqn:Hw; [reflexivity |].
    destruct ticks2; simpl; now rewrite Hw.
  - destruct (waiting_for_results st); [| reflexivity].
    destruct (iteration k e sl t st w) as [[[e0 |] st1] w1]; [reflexivity | apply IH].
Qed.

Lemma from_queue_or_logs_step k e sl q0 t st w oe st' w' :
  from_queue_or_logs q0 sl st ->
  iteration k e sl t st w = (oe, st', w') ->
  from_queue_or_logs q0 sl st' /\ (forall e0, oe = Some e0 -> is_timeout e0 = false).
Proof.
  intros ((done & Hq) & Hy & Ho) Hi.
  destruct (iteration_spec _ _ _ _ _ _ _ _ _ Hi)
    as (polled & flushed & H1 & H2 & H3 & H4 & H5 & H6 & _).
  split; [| intros e0 He0; now destruct (H5 e0 He0)].
  split_and!.
  - exists (done ++ polled)%list. rewrite Hq, H2. now rewrite app_assoc.
  - rewrite H1. rewrite !Forall_app. split_and!; auto.
    + apply List.Forall_forall. intros r Hr. left. rewrite Hq, H2.
      apply in_or_app. right. apply in_or_app. now left.
    + destruct H4 as [-> | (lines & _ & -> & _ & ->)]; [constructor |].
      constructor; [| constructor]. right. eauto.
  - intros Hsl. rewrite (H6 Hsl). auto.
Qed.

Lemma generator_stream_sources k e sl q ticks w :
  let run := _get_results_and_logs_generator k e sl q ticks w in
  Forall (fun r => In r q
                   \/ (sl = true /\ exists lines, r = stdout_response lines)
                   \/ (exists e0, is_timeout e0 = false /\ r = exception_response e0))
         (stream run)
  /\ (sl = false -> opened_files run = []).
Proof.
  intros run. unfold run, _get_results_and_logs_generator.
  destruct (results_loop k e sl ticks (mkG RNone true [] [] [] q) w) as [[ex st] w'] eqn:Hl.
  pose proof (results_loop_invariant k e sl
                (fun st _ => from_queue_or_logs q sl st)
                (fun e0 st _ => from_queue_or_logs q sl st /\ is_timeout e0 = false)
                ticks) as Hinv.
  simpl in Hinv.
  assert (Hweak : forall l : list Response,
            Forall (fun r => In r q \/ (sl = true /\ exists lines, r = stdout_response lines)) l ->
            Forall (fun r => In r q
                      \/ (sl = true /\ exists lines, r = stdout_response lines)
                      \/ (exists e0, is_timeout e0 = false /\ r = exception_response e0)) l).
  { intros l. apply List.Forall_impl. tauto. }
  assert (Hstep : forall t s0 w0 oe s1 w1,
            In t ticks -> waiting_for_results s0 = true ->
            from_queue_or_logs q sl s0 ->
            iteration k e sl t s0 w0 = (oe, s1, w1) ->
            match oe with
            | Some e0 => from_queue_or_logs q sl s1 /\ is_timeout e0 = false
            | None => from_queue_or_logs q sl s1
            end).
  { intros t s0 w0 oe s1 w1 _ _ HP Hi.
    destruct (from_queue_or_logs_step _ _ _ _ _ _ _ _ _ _ HP Hi) as [HP' Ht].
    destruct oe; auto. }
  assert (Hinit : from_queue_or_logs q sl (mkG RNone true [] [] [] q)).
  { split_and!; [exists []; reflexivity | constructor | reflexivity]. }
  specialize (Hinv Hstep _ _ _ _ _ Hinit Hl). clear Hstep Hinit.
  destruct ex as [| e0 |]; simpl.
  - destruct Hinv as [(_ & Hy & Ho) _]. auto.
  - destruct Hinv as [(_ & Hy & Ho) Ht]. split; [| auto].
    rewrite Forall_app. split; [auto |]. constructor; [| constructor]. right. right. eauto.
  - destruct Hinv as [(_ & Hy & Ho) _]. auto.
Qed.

(** ** Timeouts of the poll *)

(** C8: a poll that times out yields nothing of its own, keeps the pending
    reference, consumes nothing from the servlet's queue, leaves the loop
    waiting, and goes straight to the log flush, which can only add one
    batch of log lines; and no response of any stream carries a timeout as
    its error, unless the servlet itself queued such a response. *)
Theorem poll_timeout_is_no_result_yet :
  (forall k sl t ref st w,
     poll t = PollTimeout \/ poll t = PollFail GetTimeoutError ->
     poll_and_flush k sl t (RRef ref) st w
       = flush_logs k sl
           (mkG (RRef ref) (waiting_for_results st) (open_logfiles st) (yielded st)
                (opened st) (queue st)) w)
  /\ (forall k e sl t st w oe st' w' a,
        poll t = PollTimeout ->
        env_servlets w !! or_default e "base" = Some (ActorHandle a) ->
        pending (obj_ref st) ->
        iteration k e sl t st w = (oe, st', w') ->
        waiting_for_results st' = waiting_for_results st
        /\ queue st' = queue st
        /\ (exists ref, obj_ref st' = RRef ref)
        /\ (yielded st' = yielded st
            \/ exists lines, lines <> []
                 /\ yielded st' = (yielded st ++ [stdout_response lines])%list)
        /\ (forall e0, oe = Some e0 -> is_os_error e0))
  /\ (forall k e sl q ticks w r,
        In r (stream (_get_results_and_logs_generator k e sl q ticks w)) ->
        error r = pickle_b64 (PExn GetTimeoutError) ->
        In r q).
Proof.
  split_and!.
  - intros k sl t ref st w [Hp | Hp]; unfold poll_and_flush; simpl; now rewrite Hp.
  - intros k e sl t st w oe st' w' a Hp Hreg Hpend Hi.
    destruct (iteration_unfold k e sl t st w) as (o & w1 & Hu & _ & _ & Hkeep & Hnew).
    rewrite Hu in Hi. clear Hu.
    assert (Ho : exists ref, o = RRef ref).
    { destruct Hpend as [Hn | [ref Hr]].
      - apply (Hnew a Hreg). now rewrite Hn.
      - exists ref. rewrite <- Hr. apply Hkeep. now rewrite Hr. }
    destruct Ho as [ref ->].
    unfold poll_and_flush in Hi. simpl in Hi. rewrite Hp in Hi.
    simpl in Hi. inversion Hi as [[Hf Hw]]. clear Hi.
    apply flush_logs_spec in Hf as (Hobj & Hwait & Hq & (fl & Hy & Hfl) & He & _).
    simpl in *. split_and!; eauto.
    + destruct Hfl as [-> | (lines & Hne & -> & _)].
      * left. now rewrite app_nil_r in Hy.
      * right. eauto.
    + intros e0 He0. now destruct (He e0 He0).
  - intros k e sl q ticks w r Hin Herr.
    destruct (generator_stream_sources k e sl q ticks w) as [Hsrc _].
    rewrite List.Forall_forall in Hsrc.
    destruct (Hsrc r Hin) as [Hq | [(_ & lines & ->) | (e0 & Ht & ->)]]; auto.
    + discriminate.
    + simpl in Herr. inversion Herr; subst. discriminate.
Qed.

(** A call whose result is slow to come: two timeouts, then the value. *)
Example timeouts_leave_no_trace :
  stream (_get_results_and_logs_generator "k" None false
            [mkResponse (PInt 13) PNone PNone RESULT]
            [mkTick PollTimeout None; mkTick (PollFail GetTimeoutError) None;
             mkTick PollEmpty None; mkTick PollReady None]
            started_world)
    = [mkResponse (PInt 13) PNone PNone RESULT].
Proof. vm_compute. reflexivity. Qed.

(** ** Streaming without logs *)

Lemma call_module_method_streaming module method message w k e sl m' w' :
  call_module_method module method (Some message) w = (Ret (Streaming k e sl, m'), w') ->
  sl = stream_logs message.
Proof.
  unfold call_module_method. unfold bind at 1. simpl.
  set (method' := if bool_decide (method = Some "None") then None else method).
  set (prefix := if bool_decide (method' = Some "__call__") || negb (truthy method')
                 then module else module ++ "_" ++ default "" method').
  unfold bind at 1.
  assert (Hgen : forall (nk : option string) w0,
     (let! r := try_except
        (let! env :=
           (if truthy (env (set_key nk message)) then pure (env (set_key nk message))
            else lookup_env_for_name module false) in
         let! obj_ref :=
           call_in_env_servlet "call_module_method"
             [AVal (PStr module); AVal (of_opt method'); AMsg (set_key nk message)]
             env true None false in
         match key (set_key nk message) with
         | None => raise (TypeError "unsupported operand type(s) for +")
         | Some k =>
             run! (fun w => (Ret tt, set_obj_store (insert (k ++ "_ref") obj_ref) w)) in
             if remote (set_key nk message)
             then pure (Plain (mkResponse (pickle_b64 (PStr k)) PNone PNone RESULT))
             else pure (Streaming k env (stream_logs (set_key nk message)))
         end)
        (fun e =>
           run! register_activity in
           pure (Plain (exception_response e))) in
      pure (r, set_key nk message)) w0 = (Ret (Streaming k e sl, m'), w') ->
     sl = stream_logs message).
  { intros nk w0. unfold bind at 1. unfold try_except.
    match goal with |- context [match ?b w0 with _ => _ end] => destruct (b w0) as [[rep | ex] w1] eqn:Hb end.
    - unfold pure. intros [= -> <- <-]. revert Hb. unfold bind.
      repeat match goal with
      | |- context [match ?c ?ww with _ => _ end] => destruct (c ww) as [[? | ?] ?]; try discriminate
      end.
      all: simpl; destruct nk; simpl; unfold raise, pure, bind; try discriminate.
      all: destruct (remote message); simpl; intros [=]; subst; reflexivity.
    - unfold bind, register_activity, pure. intros [=]. }
  destruct (truthy (key message)).
  - unfold pure at 1. apply Hgen.
  - unfold bind at 1, _generate_default_name, pure at 1. apply Hgen.
Qed.

Lemma servlet_get_fetched a k w r w' :
  EnvServlet.call a "get" [AVal (PStr k); AWait] w = (Ret r, w') -> fetched r.
Proof.
  unfold EnvServlet.call. simpl. unfold EnvServlet.get.
  destruct (actors w !! a) as [s |]; [| discriminate].
  destruct (store s !! k) as [v |]; intros [= <- <-]; unfold fetched; eauto.
Qed.

Lemma dispatched_get_fetched k e lk w r w' :
  call_in_env_servlet "get" [AVal (PStr k); AWait] e false lk true w = (Ret r, w') ->
  fetched r.
Proof.
  unfold call_in_env_servlet, bind at 1. simpl. unfold try_except.
  match goal with |- context [bind ?c ?f ?w0] =>
    destruct (bind c f w0) as [[x | ex] w1] eqn:Hb end.
  - intros [= <- <-]. revert Hb. unfold bind.
    match goal with |- context [?c ?w0] =>
      match type of c with M (option string) =>
        destruct (c w0) as [[env' | ee] w2] end end; [| discriminate].
    destruct (get_env_servlet (or_default env' "base") false w2) as [[h | ?] w3];
      [| discriminate].
    unfold call_servlet_method. destruct h as [a | a]; [unfold ray_get; simpl |];
      apply servlet_get_fetched.
  - unfold bind, register_activity, pure. intros [= <- <-]. unfold fetched. eauto.
Qed.

Lemma fetched_not_stdout r resp : fetched r -> r = RResp resp -> output_type resp <> STDOUT.
Proof.
  intros [-> | [[v ->] | [e0 ->]]]; intros [= <-]; simpl; discriminate.
Qed.

(** Without log streaming the object loop yields nothing and opens nothing
    until the object is there. *)
Lemma object_loop_quiet k message ticks st w ex st' w' :
  oyielded st = [] -> oopened st = [] ->
  object_loop (PStr k) false message ticks st w = (ex, st', w') ->
  oyielded st' = [] /\ oopened st' = [] /\ (ex = LoopDone -> fetched (ret_obj st')).
Proof.
  revert st w. induction ticks as [| t rest IH]; intros st w Hy Ho; simpl.
  - intros [= <- <- <-]. split_and!; auto. discriminate.
  - unfold oiteration. cbn [key_dir key_lookup].
    destruct (call_in_env_servlet "get" [AVal (PStr k); AWait] (env message) false (Some k)
                true (set_disk k (odisk t) (apply_arrivals (arrivals t) w)))
      as [[r | e0] w1] eqn:Hc.
    + simpl. destruct (is_py_none r) eqn:Hn.
      * apply IH; auto.
      * intros [= <- <- <-]. simpl. split_and!; auto. intros _.
        eapply dispatched_get_fetched; eauto.
    + intros [= <- <- <-]. split_and!; auto. discriminate.
Qed.

(** On the object-fetch route the field [stream_logs] of the message decides
    nothing: the flag travels inside the pickled payload. *)
Lemma object_fetch_reads_the_flag_from_the_payload :
  let message :=
    mkMessage None None (pickle_b64 (PTuple [PStr "my_run"; PBool true])) false false false in
  let w := snd (put_object (mkMessage (Some "my_run") None (PInt 50) true false false)
                           started_world) in
  let run := _get_object_and_logs_generator message
               [mkOTick [] (Some [("/logs/my_run/my_run.out", Some ["Hello from the cluster! 0"])])]
               w in
  stream_logs message = false
  /\ ostream run = [RResp (stdout_response ["Hello from the cluster! 0"]);
                    RResp (mkResponse (PInt 50) PNone PNone RESULT)]
  /\ oopened_files run = ["/logs/my_run/my_run.out"].
Proof. vm_compute. auto. Qed.

(** C10, as the code has it: a call whose message has [stream_logs] false is
    streamed by a generator that opens no log file and, the servlet queueing
    no STDOUT response of its own, yields no STDOUT response; an object fetch
    whose payload carries a false [stream_logs] flag opens no log file and
    yields no STDOUT response either. *)
Theorem no_stdout_without_stream_logs :
  (forall module method message w k e sl m' w' q ticks,
     call_module_method module method (Some message) w
       = (Ret (Streaming k e sl, m'), w') ->
     stream_logs message = false ->
     Forall (fun r => output_type r <> STDOUT) q ->
     Forall (fun r => output_type r <> STDOUT)
            (stream (_get_results_and_logs_generator k e sl q ticks w'))
     /\ opened_files (_get_results_and_logs_generator k e sl q ticks w') = [])
  /\ (forall message k flag ticks w,
        mdata message = pickle_b64 (PTuple [PStr k; flag]) ->
        py_truthy flag = false ->
        (forall r, In (RResp r) (ostream (_get_object_and_logs_generator message ticks w)) ->
                   output_type r <> STDOUT)
        /\ oopened_files (_get_object_and_logs_generator message ticks w) = []).
Proof.
  split.
  - intros module method message w k e sl m' w' q ticks Hcall Hsl Hq.
    apply call_module_method_streaming in Hcall. rewrite Hsl in Hcall. subst sl.
    destruct (generator_stream_sources k e false q ticks w') as [Hsrc Hop].
    split; [| now apply Hop].
    rewrite List.Forall_forall in *. intros r Hin.
    destruct (Hsrc r Hin) as [Hr | [(Hf & _) | (e0 & _ & ->)]].
    + now apply Hq.
    + discriminate.
    + simpl. discriminate.
  - intros message k flag ticks w Hd Hflag.
    unfold _get_object_and_logs_generator, unpack_key_and_flag. rewrite Hd. simpl.
    rewrite Hflag.
    destruct (object_loop (PStr k) false message ticks (mkO RNone [] RNone [] []) w)
      as [[ex st] w1] eqn:Hl.
    destruct (object_loop_quiet k message ticks (mkO RNone [] RNone [] []) w ex st w1
                eq_refl eq_refl Hl) as (Hy & Ho & Hf).
    destruct ex; simpl; rewrite Hy; simpl; (split; [| exact Ho]);
      intros r Hin; simpl in Hin; try contradiction.
    destruct Hin as [Hr | []]. eapply fetched_not_stdout; eauto.
Qed.

(** A call made with [stream_logs=False] against a log directory that keeps
    growing: only the results come back. *)
Example call_without_logs :
  let message := mkMessage (Some "summer") None PNone false false false in
  let '(rep, w) :=
    match call_module_method "summer" None (Some message) started_world with
    | (Ret (rep, _), w) => (rep, w)
    | (Raise _, w) => (Plain (exception_response GetTimeoutError), w)
    end in
  rep = Streaming "summer" None false
  /\ stream (_get_results_and_logs_generator "summer" None false
               [mkResponse (PInt 13) PNone PNone RESULT]
               [mkTick PollTimeout (Some [("/logs/summer/summer.out", Some ["adding"])]);
                mkTick PollReady (Some [("/logs/summer/summer.out", Some ["adding"; "done"])])]
               w)
     = [mkResponse (PInt 13) PNone PNone RESULT].
Proof. vm_compute. auto. Qed.

(** ** The shape of a stream *)

Lemma flushed_non_terminal (sl : bool) (oe : option exn) (flushed : list Response) :
  (flushed = []
   \/ exists lines, lines <> [] /\ flushed = [stdout_response lines]
                    /\ oe = None /\ sl = true) ->
  Forall non_terminal flushed.
Proof.
  intros [-> | (lines & _ & -> & _)]; [constructor |].
  constructor; [| constructor]. now right.
Qed.

Lemma stream_shape_step k e sl t st w oe st' w' :
  readable (disk t) \/ sl = false ->
  waiting_for_results st = true ->
  stream_shape sl st ->
  iteration k e sl t st w = (oe, st', w') ->
  match oe with
  | None => stream_shape sl st'
  | Some _ => Forall non_terminal (yielded st')
  end.
Proof.
  intros Hrd Hw [Hq Hy] Hi. rewrite Hw in Hy.
  destruct (iteration_spec _ _ _ _ _ _ _ _ _ Hi)
    as (polled & flushed & H1 & H2 & H3 & H4 & H5 & _ & _).
  pose proof (flushed_non_terminal sl oe flushed H4) as Hfl.
  destruct oe as [e0 |].
  - destruct (H5 e0 eq_refl) as (_ & -> & Hp). rewrite (Hp Hrd) in H1.
    simpl in H1. rewrite app_nil_r in H1. now rewrite H1.
  - unfold stream_shape. rewrite H2 in Hq. apply Forall_app in Hq as [Hqp Hq']. split; [exact Hq' |].
    destruct H3 as [[-> ->] | (r & -> & ->)].
    + rewrite Hw, H1. simpl. apply Forall_app. auto.
    + rewrite Hw. inversion Hqp as [| ? ? Hr _]; subst.
      destruct (output_type r) eqn:Ht; simpl; try congruence.
      * exists (yielded st), r, flushed. split_and!; auto.
        -- left. exact Ht.
        -- destruct H4 as [-> | (lines & Hne & -> & _ & ->)]; [now left |].
           right. eauto.
      * rewrite H1. apply Forall_app. split; [exact Hy |].
        apply Forall_app. split; [| exact Hfl].
        constructor; [| constructor]. now left.
      * exists (yielded st), r, flushed. split_and!; auto.
        -- right. exact Ht.
        -- destruct H4 as [-> | (lines & Hne & -> & _ & ->)]; [now left |].
           right. eauto.
Qed.

(** The terminal response is not always the last element of a stream: when
    the last flush finds new log lines, they are yielded after the terminal
    RESULT. *)
Lemma log_lines_follow_the_terminal_result :
  let run := _get_results_and_logs_generator "summer" None true
               [mkResponse (PInt 13) PNone PNone RESULT]
               [mkTick PollReady (Some [("/logs/summer/summer.out", Some ["adding 5 and 8"])])]
               started_world in
  exit run = Returned
  /\ stream run = [mkResponse (PInt 13) PNone PNone RESULT;
                   stdout_response ["adding 5 and 8"]]
  /\ ~ (exists pre t, stream run = (pre ++ [t])%list /\ terminal t).
Proof.
  split_and!; [vm_compute; reflexivity .. |].
  intros (pre & t & Hs & Ht).
  assert (Hlast : List.last (pre ++ [t]) t = t) by apply List.last_last.
  rewrite <- Hs in Hlast. vm_compute in Hlast. subst t.
  destruct Ht as [Ht | Ht]; discriminate.
Qed.

(** When a log file turns unreadable right after the terminal response has
    been yielded, the handler adds an EXCEPTION response behind it. *)
Example unreadable_log_after_the_result :
  stream (_get_results_and_logs_generator "summer" None true
            [mkResponse (PInt 13) PNone PNone RESULT]
            [mkTick PollReady (Some [("/logs/summer/summer.out", None)])]
            started_world)
    = [mkResponse (PInt 13) PNone PNone RESULT;
       exception_response (OSError "Permission denied: /logs/summer/summer.out")].
Proof. vm_compute. reflexivity. Qed.

(** C3, as the code has it: when the log files stay readable (or logs are not
    streamed) and the servlet queues no STDOUT response of its own, a
    finished stream contains exactly one terminal response (RESULT or
    EXCEPTION); everything before it is RESULT_STREAM or STDOUT; and after it
    comes nothing, or the single STDOUT batch of the last log flush. *)
Theorem finished_stream_has_one_terminal (k : string) (e : option string) (sl : bool)
    (q : list Response) (ticks : list tick) (w : World) :
  Forall (fun r => output_type r <> STDOUT) q ->
  sl = false \/ Forall (fun t => readable (disk t)) ticks ->
  exit (_get_results_and_logs_generator k e sl q ticks w) = Returned ->
  one_terminal_then_flush sl (stream (_get_results_and_logs_generator k e sl q ticks w))
  /\ length (List.filter is_terminal
               (stream (_get_results_and_logs_generator k e sl q ticks w))) = 1.
Proof.
  intros Hq Hrd Hexit.
  assert (Hshape : one_terminal_then_flush sl
                     (stream (_get_results_and_logs_generator k e sl q ticks w))).
  { revert Hexit. unfold _get_results_and_logs_generator.
    destruct (results_loop k e sl ticks (mkG RNone true [] [] [] q) w)
      as [[ex st] w'] eqn:Hl.
    pose proof (results_loop_invariant k e sl
                  (fun st _ => stream_shape sl st)
                  (fun _ st _ => Forall non_terminal (yielded st)) ticks) as Hinv.
    simpl in Hinv.
    assert (Hstep : forall t s0 w0 oe s1 w1,
              In t ticks -> waiting_for_results s0 = true -> stream_shape sl s0 ->
              iteration k e sl t s0 w0 = (oe, s1, w1) ->
              match oe with
              | Some _ => Forall non_terminal (yielded s1)
              | None => stream_shape sl s1
              end).
    { intros t s0 w0 oe s1 w1 Hin Hw HP Hi.
      pose proof (stream_shape_step k e sl t s0 w0 oe s1 w1) as Hs.
      destruct oe; apply Hs; auto.
      all: destruct Hrd as [-> | Hall]; [now right | left];
        rewrite List.Forall_forall in Hall; now apply Hall. }
    assert (Hinit : stream_shape sl (mkG RNone true [] [] [] q))
      by (split; [exact Hq | constructor]).
    specialize (Hinv Hstep _ _ _ _ _ Hinit Hl).
    destruct ex as [| e0 |]; simpl; intros Hexit; try discriminate.
    - destruct Hinv as [[_ Hy] Hw]. now rewrite Hw in Hy.
    - exists (yielded st), (exception_response e0), []. split_and!; auto.
      now right. }
  split; [exact Hshape |].
  destruct Hshape as (pre & t & post & -> & Hpre & Ht & Hpost).
  rewrite !List.filter_app, !length_app.
  assert (Hn : forall l, Forall non_terminal l -> List.filter is_terminal l = []).
  { induction 1 as [| r l Hr _ IH]; [reflexivity |]. simpl. rewrite IH.
    unfold is_terminal. destruct Hr as [-> | ->]; reflexivity. }
  rewrite (Hn pre Hpre).
  assert (Hp : List.filter is_terminal post = []).
  { destruct Hpost as [-> | (_ & lines & _ & ->)]; reflexivity. }
  rewrite Hp. simpl. unfold is_terminal. destruct Ht as [-> | ->]; reflexivity.
Qed.

Lemma finished_stream_has_one_terminal_witness :
  let run := _get_results_and_logs_generator "summer" None true
               [mkResponse (PInt 13) PNone PNone RESULT]
               [mkTick PollReady (Some [("/logs/summer/summer.out", Some ["adding 5 and 8"])])]
               started_world in
  one_terminal_then_flush true (stream run)
  /\ length (List.filter is_terminal (stream run)) = 1.
Proof.
  apply (finished_stream_has_one_terminal "summer" None true
           [mkResponse (PInt 13) PNone PNone RESULT]
           [mkTick PollReady (Some [("/logs/summer/summer.out", Some ["adding 5 and 8"])])]
           started_world).
  - constructor; [simpl; discriminate | constructor].
  - right. constructor; [| constructor]. simpl. constructor; [simpl; discriminate | constructor].
  - vm_compute. reflexivity.
Defined.

(** ** Failures of the invoked callable *)

Lemma poll_and_flush_obj_ref k sl t o st w oe st' :
  poll_and_flush k sl t o st w = (oe, st') ->
  obj_ref st' = RNone \/ obj_ref st' = o.
Proof.
  unfold poll_and_flush. simpl.
  destruct (ray_get_timeout o (poll t) (queue st)) as [[[r |] | e0] q].
  - intros Hf. apply flush_logs_spec in Hf as (-> & _). now left.
  - intros Hf. apply flush_logs_spec in Hf as (-> & _). now left.
  - destruct (is_timeout e0).
    + intros Hf. apply flush_logs_spec in Hf as (-> & _). now right.
    + intros [= <- <-]. now right.
Qed.

Lemma streaming_inv_step k e sl a w0 t st w oe st' w' :
  env_servlets w0 !! or_default e "base" = Some (ActorHandle a) ->
  waiting_for_results st = true ->
  streaming_inv w0 st w ->
  iteration k e sl t st w = (oe, st', w') ->
  streaming_inv w0 st' w'.
Proof.
  intros Hreg Hw (Henv & Hpend & Hy) Hi. specialize (Hy Hw).
  destruct (iteration_spec _ _ _ _ _ _ _ _ _ Hi)
    as (polled & flushed & H1 & _ & H3 & H4 & _ & _ & H7).
  destruct (iteration_unfold k e sl t st w) as (o & w1 & Hu & _ & _ & Hkeep & Hnew).
  rewrite Hu in Hi. inversion Hi as [[Hp Hw1]]. clear Hi Hu.
  assert (Ho : exists ref, o = RRef ref).
  { destruct Hpend as [Hn | [ref Hr]].
    - apply (Hnew a); [now rewrite Henv | now rewrite Hn].
    - exists ref. rewrite <- Hr. apply Hkeep. now rewrite Hr. }
  split_and!.
  - congruence.
  - destruct (poll_and_flush k sl t o st w1) as [oe1 st1] eqn:Hpf.
    inversion Hp; subst.
    destruct (poll_and_flush_obj_ref _ _ _ _ _ _ _ _ Hpf) as [-> | ->];
      [now left | now right].
  - intros Hw'. rewrite H1. apply Forall_app. split; [exact Hy |].
    apply Forall_app. split; [| eapply flushed_non_terminal; eauto].
    destruct H3 as [[-> _] | (r & -> & Hwr)]; [constructor |].
    rewrite Hw' in Hwr. constructor; [| constructor]. left.
    destruct (OutputType_eqb (output_type r) RESULT_STREAM) eqn:Hr; [| discriminate].
    now apply OutputType_eqb_eq.
Qed.

Lemma iteration_poll_fails k e sl a w0 t st w err :
  env_servlets w0 !! or_default e "base" = Some (ActorHandle a) ->
  streaming_inv w0 st w ->
  poll t = PollFail err ->
  is_timeout err = false ->
  exists st' w',
    iteration k e sl t st w = (Some err, st', w') /\ yielded st' = yielded st.
Proof.
  intros Hreg (Henv & Hpend & _) Hp Ht.
  destruct (iteration_unfold k e sl t st w) as (o & w1 & Hu & _ & _ & Hkeep & Hnew).
  assert (Ho : exists ref, o = RRef ref).
  { destruct Hpend as [Hn | [ref Hr]].
    - apply (Hnew a); [now rewrite Henv | now rewrite Hn].
    - exists ref. rewrite <- Hr. apply Hkeep. now rewrite Hr. }
  destruct Ho as [ref ->]. rewrite Hu.
  unfold poll_and_flush. simpl. rewrite Hp, Ht. simpl. eauto.
Qed.

(** The shape of a stream that has ended, the log files having stayed
    readable. *)
Lemma finished_stream_shape k e sl q ticks w :
  Forall (fun r => output_type r <> STDOUT) q ->
  sl = false \/ Forall (fun t => readable (disk t)) ticks ->
  exit (_get_results_and_logs_generator k e sl q ticks w) = Returned ->
  one_terminal_then_flush sl (stream (_get_results_and_logs_generator k e sl q ticks w)).
Proof.
  intros Hq Hrd. unfold _get_results_and_logs_generator.
  destruct (results_loop k e sl ticks (mkG RNone true [] [] [] q) w)
    as [[ex st] w'] eqn:Hl.
  pose proof (results_loop_invariant k e sl
                (fun st _ => stream_shape sl st)
                (fun _ st _ => Forall non_terminal (yielded st)) ticks) as Hinv.
  simpl in Hinv.
  assert (Hstep : forall t s0 w0 oe s1 w1,
            In t ticks -> waiting_for_results s0 = true -> stream_shape sl s0 ->
            iteration k e sl t s0 w0 = (oe, s1, w1) ->
            match oe with
            | Some _ => Forall non_terminal (yielded s1)
            | None => stream_shape sl s1
            end).
  { intros t s0 w0 oe s1 w1 Hin Hw HP Hi.
    pose proof (stream_shape_step k e sl t s0 w0 oe s1 w1) as Hs.
    destruct oe; apply Hs; auto.
    all: destruct Hrd as [-> | Hall]; [now right | left];
      rewrite List.Forall_forall in Hall; now apply Hall. }
  assert (Hinit : stream_shape sl (mkG RNone true [] [] [] q))
    by (split; [exact Hq | constructor]).
  specialize (Hinv Hstep _ _ _ _ _ Hinit Hl).
  destruct ex as [| e0 |]; simpl; intros Hexit; try discriminate.
  - destruct Hinv as [[_ Hy] Hw]. now rewrite Hw in Hy.
  - exists (yielded st), (exception_response e0), []. split_and!; auto.
    now right.
Qed.

(** What the servlet queues for a callable that raises (spec section 4.3):
    partial results, then the terminal EXCEPTION response.  As long as the
    log files can be read, the stream ends with one EXCEPTION and holds no
    RESULT. *)
Lemma raised_call_stream_counts k e sl partials exc ticks w :
  Forall (fun r => output_type r = RESULT_STREAM) partials ->
  output_type exc = EXCEPTION ->
  sl = false \/ Forall (fun t => readable (disk t)) ticks ->
  let run := _get_results_and_logs_generator k e sl (partials ++ [exc]) ticks w in
  exit run = Returned ->
  length (List.filter (has_type EXCEPTION) (stream run)) = 1
  /\ List.filter (has_type RESULT) (stream run) = [].
Proof.
  intros Hp Hexc Hrd run Hexit.
  assert (Hq : Forall (fun r => output_type r <> STDOUT) (partials ++ [exc])).
  { apply Forall_app. split.
    - eapply List.Forall_impl; [| exact Hp]. cbv beta. intros r ->. discriminate.
    - constructor; [rewrite Hexc; discriminate | constructor]. }
  destruct (finished_stream_shape k e sl _ ticks w Hq Hrd Hexit)
    as (pre & t & post & Hs & Hpre & Ht & Hpost).
  destruct (generator_stream_sources k e sl (partials ++ [exc]) ticks w) as [Hsrc _].
  fold run in Hs, Hsrc. rewrite Hs in Hsrc |- *.
  assert (Htype : output_type t = EXCEPTION).
  { apply Forall_app in Hsrc as [_ Hsrc]. apply Forall_app in Hsrc as [Hsrc _].
    apply Forall_cons in Hsrc as [Hsrc _].
    destruct Hsrc as [Hin | [(_ & lines & ->) | (e0 & _ & ->)]].
    - apply in_app_or in Hin as [Hin | [<- | []]]; [| exact Hexc].
      rewrite List.Forall_forall in Hp. specialize (Hp t Hin).
      destruct Ht as [Ht | Ht]; congruence.
    - destruct Ht as [Ht | Ht]; discriminate.
    - reflexivity. }
  assert (Hno : forall ty l, ty = EXCEPTION \/ ty = RESULT -> Forall non_terminal l ->
            List.filter (has_type ty) l = []).
  { intros ty l Hty Hl. induction Hl as [| r l Hr _ IH]; [reflexivity |].
    simpl. rewrite IH. unfold has_type.
    destruct Hr as [-> | ->], Hty as [-> | ->]; reflexivity. }
  assert (Hpost' : Forall non_terminal post).
  { destruct Hpost as [-> | (_ & lines & _ & ->)]; [constructor |].
    constructor; [now right | constructor]. }
  rewrite !List.filter_app, !length_app.
  rewrite (Hno EXCEPTION pre), (Hno EXCEPTION post), (Hno RESULT pre), (Hno RESULT post)
    by auto.
  simpl. unfold has_type. rewrite Htype. simpl. auto.
Qed.

(** C4: the callable of a call raises and the servlet queues the terminal
    EXCEPTION response for it, while the call's log file cannot be opened.
    The generator yields the callable's EXCEPTION (line 300); the log flush
    of the same iteration then fails inside the same [try] (lines 306-318),
    and the handler yields a second EXCEPTION (lines 326-336): the caller
    receives two terminal EXCEPTION responses, not one. *)
Theorem raising_callable_and_unreadable_log_give_two_exceptions :
  let failure := exception_response (PyException "division by zero") in
  let run := _get_results_and_logs_generator "summer" None true [failure]
               [mkTick PollReady (Some [("/logs/summer/summer.out", None)])]
               started_world in
  exit run = Returned
  /\ stream run
     = [failure;
        exception_response (OSError "Permission denied: /logs/summer/summer.out")]
  /\ length (List.filter (has_type EXCEPTION) (stream run)) = 2
  /\ length (List.filter is_terminal (stream run)) = 2.
Proof. vm_compute. auto. Qed.

(** X16: apart from a log file failing after the terminal response, a
    failure of the invoked callable comes back as one EXCEPTION response
    and never as a raised exception.  [call_in_env_servlet] always returns,
    and when the servlet method raises it returns the EXCEPTION response
    carrying the error and its traceback, whatever the lookup key.  In a
    stream, when the poll of a call still waited for raises, the generator
    returns, and the stream is what had been yielded so far (RESULT_STREAM
    and STDOUT responses only) followed by exactly one EXCEPTION response
    carrying the error and its traceback; when the servlet queues partial
    results and then the EXCEPTION response of the callable, and the log
    files stay readable or are not streamed, a stream that has ended holds
    exactly one EXCEPTION response and no RESULT; and no exception ever
    leaves the generator. *)
Theorem raising_callable_yields_one_exception :
  (forall method args e create lk block w,
     exists r w', call_in_env_servlet method args e create lk block w = (Ret r, w'))
  /\ (forall method args e create lk block w h err w2,
        env_servlets w !! routed e lk w = Some h ->
        call_servlet_method h method args block (set_last_active S w) = (Raise err, w2) ->
        call_in_env_servlet method args e create lk block w
          = (Ret (RResp (mkResponse PNone (pickle_b64 (PExn err))
                                    (pickle_b64 (PStr (format_exc err))) EXCEPTION)),
             set_last_active S w2))
  /\ (forall k e sl q before d rest w a err,
        env_servlets w !! or_default e "base" = Some (ActorHandle a) ->
        is_timeout err = false ->
        exit (_get_results_and_logs_generator k e sl q before w) = Suspended ->
        let yielded_before := stream (_get_results_and_logs_generator k e sl q before w) in
        let run := _get_results_and_logs_generator k e sl q
                     (before ++ mkTick (PollFail err) d :: rest) w in
        exit run = Returned
        /\ stream run
           = (yielded_before
              ++ [mkResponse PNone (pickle_b64 (PExn err))
                             (pickle_b64 (PStr (format_exc err))) EXCEPTION])%list
        /\ Forall non_terminal yielded_before
        /\ length (List.filter (has_type EXCEPTION) (stream run)) = 1
        /\ List.filter (has_type RESULT) (stream run) = [])
  /\ (forall k e sl partials exc ticks w,
        Forall (fun r => output_type r = RESULT_STREAM) partials ->
        output_type exc = EXCEPTION ->
        sl = false \/ Forall (fun t => readable (disk t)) ticks ->
        let run := _get_results_and_logs_generator k e sl (partials ++ [exc]) ticks w in
        exit run = Returned ->
        length (List.filter (has_type EXCEPTION) (stream run)) = 1
        /\ List.filter (has_type RESULT) (stream run) = [])
  /\ (forall k e sl q ticks w err,
        exit (_get_results_and_logs_generator k e sl q ticks w) <> Propagated err).
Proof.
  split_and!.
  - intros. apply call_in_env_servlet_returns.
  - intros method args e create lk block w h err w2 Hreg Hcall.
    rewrite dispatch_unfold.
    rewrite (get_env_servlet_registered _ create h (set_last_active S w)) by exact Hreg.
    now rewrite Hcall.
  - intros k e sl q before d rest w a err Hreg Ht.
    unfold _get_results_and_logs_generator. rewrite results_loop_app.
    destruct (results_loop k e sl before (mkG RNone true [] [] [] q) w)
      as [[ex st1] w1] eqn:Hl.
    pose proof (results_loop_invariant k e sl (streaming_inv w) (fun _ _ _ => True) before)
      as Hinv.
    assert (Hstep : forall t s0 w0 oe s1 w2,
              In t before -> waiting_for_results s0 = true -> streaming_inv w s0 w0 ->
              iteration k e sl t s0 w0 = (oe, s1, w2) ->
              match oe with Some _ => True | None => streaming_inv w s1 w2 end).
    { intros t s0 w0 oe s1 w2 _ Hw HP Hi. destruct oe; [exact I |].
      eapply streaming_inv_step; eauto. }
    assert (Hinit : streaming_inv w (mkG RNone true [] [] [] q) w).
    { split_and!; [reflexivity | now left | constructor]. }
    specialize (Hinv Hstep _ _ _ _ _ Hinit Hl). clear Hstep Hinit.
    destruct ex as [| e0 |]; simpl; intros Hexit; try discriminate.
    destruct Hinv as [Hinv Hw].
    destruct (iteration_poll_fails k e sl a w (mkTick (PollFail err) d) st1 w1 err
                Hreg Hinv eq_refl Ht) as (st2 & w2 & Hi & Hy).
    rewrite Hw, Hi. simpl. rewrite Hy.
    destruct Hinv as (_ & _ & Hnt). specialize (Hnt Hw).
    assert (Hno : forall ty, ty = EXCEPTION \/ ty = RESULT ->
              List.filter (has_type ty) (yielded st1) = []).
    { intros ty Hty. clear -Hnt Hty. induction Hnt as [| r l Hr _ IH]; [reflexivity |].
      simpl. rewrite IH. unfold has_type.
      destruct Hr as [-> | ->], Hty as [-> | ->]; reflexivity. }
    split_and!; auto.
    + rewrite List.filter_app, length_app, (Hno EXCEPTION) by auto. reflexivity.
    + rewrite List.filter_app, (Hno RESULT) by auto. reflexivity.
  - intros k e sl partials exc ticks w. apply raised_call_stream_counts.
  - intros k e sl q ticks w err. unfold _get_results_and_logs_generator.
    destruct (results_loop k e sl ticks (mkG RNone true [] [] [] q) w) as [[[| e0 |] st] w'];
      simpl; discriminate.
Qed.

Lemma raising_callable_yields_one_exception_witness :
  call_in_env_servlet "call_fn" [AVal (PStr "divide")] None true (Some "divide") true
    failing_world
    = (Ret (RResp (mkResponse PNone (pickle_b64 (PExn (PyException "division by zero")))
                     (pickle_b64 (PStr (format_exc (PyException "division by zero"))))
                     EXCEPTION)),
       set_last_active S (set_last_active S failing_world))
  /\ stream (_get_results_and_logs_generator "divide" None false
              [EnvServlet.stream_response (PInt 1)]
              ([mkTick PollReady None]
               ++ mkTick (PollFail (RayError "ZeroDivisionError")) None :: [])
              failing_world)
     = (stream (_get_results_and_logs_generator "divide" None false
                  [EnvServlet.stream_response (PInt 1)] [mkTick PollReady None]
                  failing_world)
        ++ [mkResponse PNone (pickle_b64 (PExn (RayError "ZeroDivisionError")))
              (pickle_b64 (PStr (format_exc (RayError "ZeroDivisionError"))))
              EXCEPTION])%list
  /\ length (List.filter (has_type EXCEPTION)
               (stream (_get_results_and_logs_generator "divide" None true
                          ([EnvServlet.stream_response (PInt 1)]
                           ++ [exception_response (PyException "division by zero")])
                          [mkTick PollReady None;
                           mkTick PollReady
                             (Some [("/logs/divide/divide.out", Some ["dividing"])])]
                          failing_world))) = 1.
Proof.
  destruct raising_callable_yields_one_exception as (_ & Hb & Hc & Hd & _). split_and!.
  - apply (Hb "call_fn" [AVal (PStr "divide")] None true (Some "divide") true failing_world
              (ActorHandle 0)).
    + vm_compute. reflexivity.
    + vm_compute. reflexivity.
  - apply (Hc "divide" None false [EnvServlet.stream_response (PInt 1)]
              [mkTick PollReady None] None [] failing_world 0
              (RayError "ZeroDivisionError")).
    + vm_compute. reflexivity.
    + reflexivity.
    + vm_compute. reflexivity.
  - apply (Hd "divide" None true [EnvServlet.stream_response (PInt 1)]
              (exception_response (PyException "division by zero"))
              [mkTick PollReady None;
               mkTick PollReady (Some [("/logs/divide/divide.out", Some ["dividing"])])]
              failing_world).
    + constructor; [reflexivity | constructor].
    + reflexivity.
    + right. constructor; [exact I |]. constructor; [| constructor].
      simpl. constructor; [simpl; discriminate | constructor].
    + vm_compute. reflexivity.
Defined.

(** ** Lazy sequences *)

Lemma flush_logs_calm k sl st w :
  readable (logs w !! k) \/ sl = false ->
  exists st' flushed,
    flush_logs k sl st w = (None, st')
    /\ Forall (fun r => output_type r = STDOUT) flushed
    /\ queue st' = queue st
    /\ waiting_for_results st' = waiting_for_results st
    /\ yielded st' = (yielded st ++ flushed)%list.
Proof.
  intros Hq. destruct (flush_logs_quiet k sl st w Hq) as [st' Hf].
  pose proof (flush_logs_spec _ _ _ _ _ _ Hf) as (_ & Hw & Hqq & (fl & Hy & Hfl) & _).
  exists st', fl. split_and!; auto.
  destruct Hfl as [-> | (lines & _ & -> & _)]; [constructor |].
  constructor; [reflexivity | constructor].
Qed.

Lemma iteration_calm k e sl a w0 t st w :
  env_servlets w0 !! or_default e "base" = Some (ActorHandle a) ->
  streaming_inv w0 st w ->
  calm sl t ->
  exists st' w' flushed,
    iteration k e sl t st w = (None, st', w')
    /\ Forall (fun r => output_type r = STDOUT) flushed
    /\ match poll t, queue st with
       | PollReady, r :: q' =>
           queue st' = q'
           /\ waiting_for_results st'
              = (if OutputType_eqb (output_type r) RESULT_STREAM
                 then waiting_for_results st else false)
           /\ yielded st' = ((yielded st ++ [r]) ++ flushed)%list
       | _, _ =>
           queue st' = queue st
           /\ waiting_for_results st' = waiting_for_results st
           /\ yielded st' = (yielded st ++ flushed)%list
       end.
Proof.
  intros Hreg (Henv & Hpend & _) [Hpoll Hrd].
  destruct (iteration_unfold k e sl t st w) as (o & w1 & Hu & Hlogs & _ & Hkeep & Hnew).
  assert (Ho : exists ref, o = RRef ref).
  { destruct Hpend as [Hn | [ref Hr]].
    - apply (Hnew a); [now rewrite Henv | now rewrite Hn].
    - exists ref. rewrite <- Hr. apply Hkeep. now rewrite Hr. }
  destruct Ho as [ref ->]. rewrite Hu. clear Hu.
  rewrite <- Hlogs in Hrd.
  unfold poll_and_flush. simpl.
  destruct (poll t) as [| | | err] eqn:Hp; simpl.
  - match goal with |- context [flush_logs k sl ?s w1] =>
      destruct (flush_logs_calm k sl s w1 Hrd) as (st' & fl & -> & Hfl & Hq & Hw & Hy) end.
    simpl in *. exists st', w1, fl. destruct (queue st); auto.
  - match goal with |- context [flush_logs k sl ?s w1] =>
      destruct (flush_logs_calm k sl s w1 Hrd) as (st' & fl & -> & Hfl & Hq & Hw & Hy) end.
    simpl in *. exists st', w1, fl. destruct (queue st); auto.
  - destruct (queue st) as [| r q'] eqn:Hqueue.
    + match goal with |- context [flush_logs k sl ?s w1] =>
        destruct (flush_logs_calm k sl s w1 Hrd) as (st' & fl & -> & Hfl & Hq & Hw & Hy) end.
      simpl in *. exists st', w1, fl. auto.
    + match goal with |- context [flush_logs k sl ?s w1] =>
        destruct (flush_logs_calm k sl s w1 Hrd) as (st' & fl & -> & Hfl & Hq & Hw & Hy) end.
      simpl in *. exists st', w1, fl. split_and!; auto.
  - rewrite Hpoll.
    match goal with |- context [flush_logs k sl ?s w1] =>
      destruct (flush_logs_calm k sl s w1 Hrd) as (st' & fl & -> & Hfl & Hq & Hw & Hy) end.
    simpl in *. exists st', w1, fl. destruct (queue st); auto.
Qed.

Lemma results_of_app l1 l2 : results_of (l1 ++ l2) = (results_of l1 ++ results_of l2)%list.
Proof. apply List.filter_app. Qed.

Lemma results_of_stdout l :
  Forall (fun r => output_type r = STDOUT) l -> results_of l = [].
Proof.
  induction 1 as [| r l Hr _ IH]; [reflexivity |].
  unfold results_of in *. simpl. unfold has_type. rewrite Hr. simpl. exact IH.
Qed.

Lemma filter_results_of ty l :
  ty <> STDOUT ->
  List.filter (has_type ty) l = List.filter (has_type ty) (results_of l).
Proof.
  intros Hty. induction l as [| r l IH]; [reflexivity |].
  unfold results_of. simpl. fold (results_of l).
  destruct (has_type STDOUT r) eqn:Hs; simpl.
  - unfold has_type in Hs. apply OutputType_eqb_eq in Hs.
    unfold has_type at 1. rewrite Hs.
    destruct ty; simpl; try congruence; exact IH.
  - rewrite IH. reflexivity.
Qed.

Lemma filter_stream_responses ty elems :
  List.filter (has_type ty) (map EnvServlet.stream_response elems)
  = if OutputType_eqb RESULT_STREAM ty then map EnvServlet.stream_response elems else [].
Proof.
  destruct ty; simpl; induction elems as [| v l IH]; simpl; auto.
  now rewrite IH.
Qed.

(** The loop on a lazy sequence that still has [rem] elements to deliver. *)
Lemma results_loop_lazy k e sl a w0 final ticks :
  env_servlets w0 !! or_default e "base" = Some (ActorHandle a) ->
  Forall (calm sl) ticks ->
  forall rem st w,
    streaming_inv w0 st w ->
    waiting_for_results st = true ->
    queue st = EnvServlet.lazy_sequence_responses rem final ->
    length rem + 1 <= ready_polls ticks ->
    exists st' w',
      results_loop k e sl ticks st w = (LoopDone, st', w')
      /\ results_of (yielded st')
         = (results_of (yielded st) ++ EnvServlet.lazy_sequence_responses rem final)%list.
Proof.
  intros Hreg Hcalm. induction Hcalm as [| t rest Ht _ IH]; intros rem st w Hinv Hw Hq Hn.
  - simpl in Hn. lia.
  - simpl. rewrite Hw.
    destruct (iteration_calm k e sl a w0 t st w Hreg Hinv Ht)
      as (st1 & w1 & fl & Hi & Hfl & Hcase).
    pose proof (streaming_inv_step k e sl a w0 t st w None st1 w1 Hreg Hw Hinv Hi) as Hinv1.
    rewrite Hi. simpl in Hn.
    destruct (poll t) eqn:Hp.
    + destruct Hcase as (Hq1 & Hw1 & Hy1).
      destruct (IH rem st1 w1 Hinv1) as (st' & w' & Hl & Hr); try congruence; [simpl in Hn; lia |].
      exists st', w'. split; [exact Hl |].
      rewrite Hr, Hy1, results_of_app, (results_of_stdout fl Hfl), app_nil_r. reflexivity.
    + destruct Hcase as (Hq1 & Hw1 & Hy1).
      destruct (IH rem st1 w1 Hinv1) as (st' & w' & Hl & Hr); try congruence; [simpl in Hn; lia |].
      exists st', w'. split; [exact Hl |].
      rewrite Hr, Hy1, results_of_app, (results_of_stdout fl Hfl), app_nil_r. reflexivity.
    + rewrite Hq in Hcase. unfold EnvServlet.lazy_sequence_responses in Hcase.
      destruct rem as [| v rem']; simpl in Hcase.
      * destruct Hcase as (Hq1 & Hw1 & Hy1).
        exists st1, w1. split.
        -- destruct rest; simpl; now rewrite Hw1.
        -- rewrite Hy1, !results_of_app, (results_of_stdout fl Hfl), app_nil_r. reflexivity.
      * destruct Hcase as (Hq1 & Hw1 & Hy1). simpl in Hw1.
        destruct (IH rem' st1 w1 Hinv1) as (st' & w' & Hl & Hr);
          [rewrite Hw1; exact Hw | exact Hq1 | simpl in Hn; lia |].
        exists st', w'. split; [exact Hl |].
        rewrite Hr, Hy1, !results_of_app, (results_of_stdout fl Hfl), app_nil_r.
        unfold EnvServlet.lazy_sequence_responses. simpl. now rewrite <- app_assoc.
    + destruct Hcase as (Hq1 & Hw1 & Hy1).
      destruct (IH rem st1 w1 Hinv1) as (st' & w' & Hl & Hr); try congruence; [simpl in Hn; lia |].
      exists st', w'. split; [exact Hl |].
      rewrite Hr, Hy1, results_of_app, (results_of_stdout fl Hfl), app_nil_r. reflexivity.
Qed.

(** C2: for a call whose return value is a lazy sequence of N elements, on
    a script at which the multiplexing loop itself does not fail and the
    servlet is found ready N+1 times, the generator returns and the results
    in its stream (everything but the interleaved log batches) are exactly
    the N RESULT_STREAM responses, in the order the elements were produced,
    followed by the one terminal RESULT. *)
Theorem lazy_sequence_is_streamed_in_order (k : string) (e : option string) (sl : bool)
    (elems : list pyval) (final : pyval) (ticks : list tick) (w : World) (a : nat) :
  env_servlets w !! or_default e "base" = Some (ActorHandle a) ->
  Forall (calm sl) ticks ->
  length elems + 1 <= ready_polls ticks ->
  let run := _get_results_and_logs_generator k e sl
               (EnvServlet.lazy_sequence_responses elems final) ticks w in
  exit run = Returned
  /\ results_of (stream run)
     = (map EnvServlet.stream_response elems ++ [mkResponse final PNone PNone RESULT])%list
  /\ List.filter (has_type RESULT_STREAM) (stream run) = map EnvServlet.stream_response elems
  /\ List.filter (has_type RESULT) (stream run) = [mkResponse final PNone PNone RESULT]
  /\ List.filter (has_type EXCEPTION) (stream run) = [].
Proof.
  intros Hreg Hcalm Hn run.
  assert (Hinit : streaming_inv w
            (mkG RNone true [] [] [] (EnvServlet.lazy_sequence_responses elems final)) w).
  { split_and!; [reflexivity | now left | constructor]. }
  destruct (results_loop_lazy k e sl a w final ticks Hreg Hcalm elems _ w Hinit
              eq_refl eq_refl Hn) as (st' & w' & Hl & Hr).
  simpl in Hr.
  assert (Hrun : exit run = Returned /\ stream run = yielded st').
  { unfold run, _get_results_and_logs_generator. rewrite Hl. auto. }
  destruct Hrun as [Hexit Hstream]. rewrite Hstream.
  assert (Hsub : forall ty, ty <> STDOUT ->
            List.filter (has_type ty) (yielded st')
            = List.filter (has_type ty) (results_of (yielded st'))).
  { intros ty Hty. apply filter_results_of. exact Hty. }
  pose proof (fun ty => filter_stream_responses ty elems) as Hstreams.
  split_and!; auto.
  - rewrite Hsub, Hr by discriminate. unfold EnvServlet.lazy_sequence_responses.
    rewrite List.filter_app, Hstreams. simpl. now rewrite app_nil_r.
  - rewrite Hsub, Hr by discriminate. unfold EnvServlet.lazy_sequence_responses.
    rewrite List.filter_app, Hstreams. reflexivity.
  - rewrite Hsub, Hr by discriminate. unfold EnvServlet.lazy_sequence_responses.
    rewrite List.filter_app, Hstreams. reflexivity.
Qed.

Lemma lazy_sequence_is_streamed_in_order_witness :
  let run := _get_results_and_logs_generator "config_dict" None true
               (EnvServlet.lazy_sequence_responses [PStr "name"; PStr "version"] PNone)
               [mkTick PollReady None;
                mkTick PollTimeout (Some [("/logs/config_dict/config_dict.out", Some ["iterating"])]);
                mkTick PollReady (Some [("/logs/config_dict/config_dict.out", Some ["iterating"])]);
                mkTick PollReady (Some [("/logs/config_dict/config_dict.out", Some ["iterating"; "done"])])]
               started_world in
  exit run = Returned
  /\ results_of (stream run)
     = (map EnvServlet.stream_response [PStr "name"; PStr "version"]
        ++ [mkResponse PNone PNone PNone RESULT])%list
  /\ List.filter (has_type RESULT_STREAM) (stream run)
     = map EnvServlet.stream_response [PStr "name"; PStr "version"]
  /\ List.filter (has_type RESULT) (stream run) = [mkResponse PNone PNone PNone RESULT]
  /\ List.filter (has_type EXCEPTION) (stream run) = [].
Proof.
  apply (lazy_sequence_is_streamed_in_order "config_dict" None true
           [PStr "name"; PStr "version"] PNone _ started_world 0).
  - vm_compute. reflexivity.
  - repeat (constructor; [split; [exact I | left; simpl; repeat constructor; discriminate] |]).
    constructor.
  - simpl. lia.
Defined.

(** ** Put, then get *)

Lemma call_servlet_method_blocking h method args w :
  call_servlet_method h method args true w = EnvServlet.call (handle_actor h) method args w.
Proof. destruct h; reflexivity. Qed.

(** A dispatch that creates the environment when needed and looks nothing
    up. *)
Lemma dispatch_create method args e block w :
  call_in_env_servlet method args e true None block w =
    match get_env_servlet (or_default e "base") true (set_last_active S w) with
    | (Ret h, w0) =>
        match call_servlet_method h method args block w0 with
        | (Ret r, w') => (Ret r, w')
        | (Raise ex, w') => (Ret (RResp (exception_response ex)), set_last_active S w')
        end
    | (Raise ex, w0) => (Ret (RResp (exception_response ex)), set_last_active S w0)
    end.
Proof.
  unfold call_in_env_servlet, bind at 1. simpl. unfold try_except, bind, pure.
  destruct (get_env_servlet (or_default e "base") true (set_last_active S w))
    as [[h | ex] w0]; [| reflexivity].
  destruct (call_servlet_method h method args block w0) as [[r | ex] w']; reflexivity.
Qed.

Lemma dispatch_registered method args e create lk block w h :
  env_servlets w !! routed e lk w = Some h ->
  call_in_env_servlet method args e create lk block w =
    match call_servlet_method h method args block (set_last_active S w) with
    | (Ret r, w') => (Ret r, w')
    | (Raise ex, w') => (Ret (RResp (exception_response ex)), set_last_active S w')
    end.
Proof.
  intros Hreg. unfold routed in Hreg.
  unfold call_in_env_servlet, bind at 1. simpl. unfold try_except, bind.
  destruct (truthy lk).
  - destruct (truthy e).
    + unfold pure at 1.
      rewrite (get_env_servlet_registered _ create h (set_last_active S w)) by exact Hreg.
      destruct (call_servlet_method h method args block (set_last_active S w))
        as [[r | ex] w']; reflexivity.
    + unfold lookup_env_for_name. simpl.
      destruct (truthy (env_for_key w !! default "" lk));
        rewrite (get_env_servlet_registered _ create h (set_last_active S w)) by exact Hreg;
        destruct (call_servlet_method h method args block (set_last_active S w))
          as [[r | ex] w']; reflexivity.
  - unfold pure at 1.
    rewrite (get_env_servlet_registered _ create h (set_last_active S w)) by exact Hreg.
    destruct (call_servlet_method h method args block (set_last_active S w))
      as [[r | ex] w']; reflexivity.
Qed.

Lemma routed_to_holder e k n v w :
  n = or_default e "base" ->
  holds n k v w ->
  routed e (Some k) w = n.
Proof.
  intros Hn (h & s & _ & _ & _ & _ & Hk). unfold routed.
  destruct (truthy (Some k)) eqn:Hkt; [| now subst].
  destruct (truthy e) eqn:He; [now subst |].
  simpl. rewrite Hk.
  assert (n = "base") as ->.
  { subst n. unfold or_default, py_or. now rewrite He. }
  reflexivity.
Qed.

Lemma get_env_servlet_live n w :
  named_consistently w ->
  exists h s w0,
    get_env_servlet n true w = (Ret h, w0)
    /\ env_servlets w0 !! n = Some h
    /\ actors w0 !! handle_actor h = Some s
    /\ servlet_env s = n.
Proof.
  intros [Hreg Hray]. unfold get_env_servlet.
  destruct (env_servlets w !! n) as [h |] eqn:He.
  - destruct (Hreg n h He) as (s & Hs & Hn). exists h, s, w. auto.
  - unfold bind, ray_get_if_exists. destruct (ray_named w !! n) as [a |] eqn:Hr.
    + destruct (Hray n a Hr) as (s & Hs & Hn).
      exists (ActorHandle a), s, (set_env_servlets (insert n (ActorHandle a)) w).
      split_and!; auto. simpl. apply lookup_insert_eq.
    + eexists (ActorHandle (length (actors w))), (mkServlet n ∅), _.
      split; [reflexivity |]. simpl. split_and!; auto.
      * apply lookup_insert_eq.
      * rewrite lookup_app_r by lia. now rewrite Nat.sub_diag.
Qed.

Lemma servlet_put_holds a k v w s :
  actors w !! a = Some s ->
  EnvServlet.call a "put_object" [AVal (PStr k); AVal v] w
    = (Ret (RResp (mkResponse PNone PNone PNone RESULT)),
       set_env_for_key (insert k (servlet_env s))
         (set_actors (fun l => <[a := mkServlet (servlet_env s) (<[k := v]> (store s))]> l) w)).
Proof.
  intros Hs. unfold EnvServlet.call. simpl. unfold EnvServlet.put_object. now rewrite Hs.
Qed.

Lemma holds_after_servlet_put n h s k v w :
  env_servlets w !! n = Some h ->
  actors w !! handle_actor h = Some s ->
  servlet_env s = n ->
  holds n k v
    (set_env_for_key (insert k n)
       (set_actors
          (fun l => <[handle_actor h := mkServlet n (<[k := v]> (store s))]> l) w)).
Proof.
  intros He Hs Hn. exists h, (mkServlet n (<[k := v]> (store s))). simpl.
  split_and!; auto.
  - apply list_lookup_insert_eq. eapply lookup_lt_Some; eauto.
  - apply lookup_insert_eq.
  - apply lookup_insert_eq.
Qed.

Lemma first_put_holds e k v sl sv rm w :
  named_consistently w ->
  fst (put_object (mkMessage (Some k) e v sl sv rm) w)
    = Ret (RResp (mkResponse PNone PNone PNone RESULT))
  /\ holds (or_default e "base") k v (snd (put_object (mkMessage (Some k) e v sl sv rm) w)).
Proof.
  intros Hc. unfold put_object. simpl. rewrite dispatch_create.
  assert (Hc' : named_consistently (set_last_active S w)) by exact Hc.
  destruct (get_env_servlet_live (or_default e "base") _ Hc')
    as (h & s & w0 & -> & He & Hs & Hn).
  rewrite call_servlet_method_blocking, (servlet_put_holds _ k v w0 s Hs). simpl.
  split; [reflexivity |]. rewrite Hn. now apply holds_after_servlet_put.
Qed.

Lemma later_put_holds e k v k' v' w :
  holds (or_default e "base") k v w ->
  holds (or_default e "base") k (if String.eqb k' k then v' else v)
        (snd (put_object (mkMessage (Some k') e v' true false false) w)).
Proof.
  intros (h & s & He & Hs & Hn & Hk & Hek). unfold put_object. simpl.
  rewrite (dispatch_registered _ _ e true None true w h) by exact He.
  rewrite call_servlet_method_blocking.
  rewrite (servlet_put_holds _ k' v' (set_last_active S w) s) by exact Hs. simpl.
  exists h, (mkServlet (servlet_env s) (<[k' := v']> (store s))). simpl.
  split_and!; auto.
  - apply list_lookup_insert_eq. eapply lookup_lt_Some; eauto.
  - destruct (String.eqb_spec k' k) as [-> | Hne].
    + apply lookup_insert_eq.
    + now rewrite lookup_insert_ne.
  - destruct (String.eqb_spec k' k) as [-> | Hne].
    + rewrite Hn. apply lookup_insert_eq.
    + now rewrite lookup_insert_ne.
Qed.

Lemma put_all_holds e k later : forall v w,
  holds (or_default e "base") k v w ->
  holds (or_default e "base") k (last_write k v later) (put_all e later w).
Proof.
  induction later as [| [k' v'] rest IH]; intros v w H; [exact H |].
  unfold put_all, last_write. simpl. apply IH. now apply later_put_holds.
Qed.

Lemma holds_frame n k v w w' :
  env_servlets w' = env_servlets w ->
  actors w' = actors w ->
  env_for_key w' = env_for_key w ->
  holds n k v w -> holds n k v w'.
Proof.
  intros E1 E2 E3 (h & s & H). exists h, s. rewrite E1, E2, E3. exact H.
Qed.

Lemma dispatched_get_holds e k v w :
  holds (or_default e "base") k v w ->
  call_in_env_servlet "get" [AVal (PStr k); AWait] e false (Some k) true w
    = (Ret (RResp (mkResponse v PNone PNone RESULT)), set_last_active S w).
Proof.
  intros H. pose proof (routed_to_holder e k _ v w eq_refl H) as Hr.
  destruct H as (h & s & He & Hs & Hn & Hk & Hek).
  rewrite (dispatch_registered _ _ e false (Some k) true w h) by (now rewrite Hr).
  rewrite call_servlet_method_blocking.
  unfold EnvServlet.call. simpl. unfold EnvServlet.get. simpl. now rewrite Hs, Hk.
Qed.

Lemma dispatched_get_logfiles_holds e k v w :
  holds (or_default e "base") k v w ->
  call_in_env_servlet "get_logfiles" [AVal (PStr k)] e false (Some k) true w
    = (Ret (match logs w !! k with
            | Some files => RVal (PList (map (fun f => PStr (fst f)) files))
            | None => RNone
            end), set_last_active S w).
Proof.
  intros H. pose proof (routed_to_holder e k _ v w eq_refl H) as Hr.
  destruct H as (h & s & He & Hs & Hn & Hk & Hek).
  rewrite (dispatch_registered _ _ e false (Some k) true w h) by (now rewrite Hr).
  rewrite call_servlet_method_blocking.
  unfold EnvServlet.call. simpl. unfold EnvServlet.get_logfiles. simpl.
  destruct (logs w !! k); reflexivity.
Qed.

Lemma open_listed_readable k files w l :
  logs w !! k = Some files ->
  readable (Some files) ->
  (forall f, In f l -> In f (map fst files)) ->
  exists hs, open_listed k (map PStr l) w = (None, hs).
Proof.
  intros Hl Hr. induction l as [| f rest IH]; intros Hsub; simpl; [eauto |].
  destruct (open_file_readable k f w files Hl Hr) as [h ->]; [apply Hsub; now left |].
  destruct IH as [hs ->]; [intros; apply Hsub; now right |]. eauto.
Qed.

Lemma open_logfiles_of_readable k w :
  readable (logs w !! k) ->
  exists hs,
    open_logfiles_of k
      (match logs w !! k with
       | Some files => RVal (PList (map (fun f => PStr (fst f)) files))
       | None => RNone
       end) w = (None, hs).
Proof.
  intros Hr. unfold open_logfiles_of.
  destruct (logs w !! k) as [files |] eqn:Hl; simpl; [| eauto].
  destruct (open_listed_readable k files w (map fst files) Hl Hr) as [hs Hhs]; [auto |].
  rewrite List.map_map in Hhs.
  destruct files as [| f rest]; simpl; [eauto |].
  exists hs. exact Hhs.
Qed.

(** One round of the object-fetch loop when the key is there. *)
Lemma fetch_round_holds e k v flag message t w :
  env message = e ->
  holds (or_default e "base") k v w ->
  arrivals t = [] ->
  readable (odisk t) ->
  exists st' w' batches,
    oiteration (PStr k) flag message t (mkO RNone [] RNone [] []) w = (None, st', w')
    /\ ret_obj st' = RResp (mkResponse v PNone PNone RESULT)
    /\ oyielded st' = batches
    /\ Forall (fun c => exists lines, c = RResp (stdout_response lines)) batches.
Proof.
  intros He H Ha Hr. unfold oiteration. rewrite Ha, He. simpl.
  set (wd := set_disk k (odisk t) w).
  assert (Hd : holds (or_default e "base") k v wd) by (eapply holds_frame; eauto; reflexivity).
  rewrite (dispatched_get_holds e k v wd Hd).
  destruct flag; [| eexists _, _, []; simpl; split_and!; eauto].
  simpl.
  assert (Hd' : holds (or_default e "base") k v (set_last_active S wd))
    by (eapply holds_frame; eauto; reflexivity).
  rewrite (dispatched_get_logfiles_holds e k v _ Hd').
  assert (Hlogs : logs (set_last_active S (set_last_active S wd)) !! k = odisk t)
    by (simpl; apply logs_set_disk).
  assert (Hlogs' : logs (set_last_active S wd) !! k = odisk t)
    by (simpl; apply logs_set_disk).
  set (w2 := set_last_active S (set_last_active S wd)) in *.
  assert (Hrd : readable (logs w2 !! k)) by (now rewrite Hlogs).
  assert (Heq : logs (set_last_active S wd) !! k = logs w2 !! k) by congruence.
  rewrite Heq.
  destruct (open_logfiles_of_readable k w2 Hrd) as [hs ->].
  destruct (read_all_readable k hs w2 Hrd) as (ls & hs' & ->).
  destruct ls as [| l ls]; simpl.
  - eexists _, _, []. split_and!; eauto.
  - eexists _, _, [_]. split_and!; eauto.
Qed.

Lemma empty_world_named_consistently : named_consistently empty_world.
Proof.
  split; intros n x H; simpl in H; rewrite lookup_empty in H; discriminate.
Qed.

(** C1: on a server whose registry is consistent, after [put_object] has
    stored [v] under [k] in an environment, and whatever writes to that
    environment follow, fetching [k] from the same environment returns:
    the stream ends, after at most one batch of log lines, with the RESULT
    response carrying the value of the last write to [k], which is [v]
    itself when no later write touched [k]; never an earlier value, never
    absent. *)
Theorem put_then_get_returns_the_value (w : World) (e : option string) (k : string)
    (v : pyval) (later : list (string * pyval)) (flag : bool)
    (put_message get_message : Message) (t : otick) (rest : list otick) :
  named_consistently w ->
  key put_message = Some k -> env put_message = e -> mdata put_message = v ->
  env get_message = e ->
  mdata get_message = pickle_b64 (PTuple [PStr k; PBool flag]) ->
  arrivals t = [] ->
  readable (odisk t) ->
  let w1 := snd (put_object put_message w) in
  let run := _get_object_and_logs_generator get_message (t :: rest) (put_all e later w1) in
  fst (put_object put_message w) = Ret (RResp (mkResponse PNone PNone PNone RESULT))
  /\ oexit run = Returned
  /\ exists batches,
       ostream run
         = (batches ++ [RResp (mkResponse (last_write k v later) PNone PNone RESULT)])%list
       /\ Forall (fun c => exists lines, c = RResp (stdout_response lines)) batches.
Proof.
  intros Hc Hk He Hv Hge Hgd Ha Hr w1 run.
  destruct put_message as [pk pe pd psl psv prm]. simpl in Hk, He, Hv. subst pk pe pd.
  destruct (first_put_holds e k v psl psv prm w Hc) as [Hreply Hholds].
  split; [exact Hreply |].
  pose proof (put_all_holds e k later v _ Hholds) as Hlast.
  fold w1 in Hlast.
  destruct (fetch_round_holds e k (last_write k v later) flag get_message t
              (put_all e later w1) Hge Hlast Ha Hr)
    as (st' & w' & batches & Hi & Hobj & Hy & Hb).
  unfold run, _get_object_and_logs_generator, unpack_key_and_flag.
  rewrite Hgd. simpl. rewrite Hi, Hobj. simpl.
  split; [reflexivity |]. exists batches. rewrite Hy, Hobj. auto.
Qed.

(** The scenario of the test suite: a list is put under "my_list", another
    caller overwrites an unrelated key, and the list is read back. *)
Lemma put_then_get_returns_the_value_witness :
  let test_list := pickle_b64 (PList [PInt 5; PInt 7; PInt 49; PStr "a string"]) in
  let put_message := mkMessage (Some "my_list") None test_list true false false in
  let get_message :=
    mkMessage None None (pickle_b64 (PTuple [PStr "my_list"; PBool false])) true false false in
  let w1 := snd (put_object put_message empty_world) in
  let run := _get_object_and_logs_generator get_message [mkOTick [] None]
               (put_all None [("other", PInt 1)] w1) in
  fst (put_object put_message empty_world)
    = Ret (RResp (mkResponse PNone PNone PNone RESULT))
  /\ oexit run = Returned
  /\ exists batches,
       ostream run
         = (batches
            ++ [RResp (mkResponse (last_write "my_list" test_list [("other", PInt 1)])
                         PNone PNone RESULT)])%list
       /\ Forall (fun c => exists lines, c = RResp (stdout_response lines)) batches.
Proof.
  apply (put_then_get_returns_the_value empty_world None "my_list" _ [("other", PInt 1)] false
           (mkMessage (Some "my_list") None _ true false false)
           (mkMessage None None _ true false false) (mkOTick [] None) []);
    try reflexivity; try exact I.
  exact empty_world_named_consistently.
Defined.

(** The same exchange, evaluated. *)
Example put_list_then_get_list :
  let test_list := pickle_b64 (PList [PInt 5; PInt 7; PInt 49; PStr "a string"]) in
  let w1 := snd (put_object (mkMessage (Some "list1") None test_list true false false)
                   started_world) in
  ostream (_get_object_and_logs_generator
             (mkMessage None None (pickle_b64 (PTuple [PStr "list1"; PBool false]))
                true false false)
             [mkOTick [] None] w1)
    = [RResp (mkResponse test_list PNone PNone RESULT)].
Proof. vm_compute. reflexivity. Qed.


(** * Further properties of the server *)

(** ** The dispatcher and the registry *)

Lemma servlet_call_counters a method args w r w' :
  EnvServlet.call a method args w = (r, w') ->
  last_active w' = last_active w /\ length (actors w') = length (actors w).
Proof.
  unfold EnvServlet.call.
  destruct (String.eqb method "put_object").
  { destruct args as [| [[] | |] [| [] [| ]]]; unfold raise; try (intros [= <- <-]; auto).
    unfold EnvServlet.put_object. destruct (actors w !! a); intros [= <- <-]; auto.
    simpl. now rewrite length_insert. }
  destruct (String.eqb method "get").
  { destruct args as [| [[] | |] [| [] [| ]]]; unfold raise; try (intros [= <- <-]; auto).
    unfold EnvServlet.get. destruct (actors w !! a) as [s0 |]; [| intros [= <- <-]; auto].
    destruct (store s0 !! s); intros [= <- <-]; auto. }
  destruct (String.eqb method "get_logfiles").
  { destruct args as [| [[] | |] [| ]]; unfold raise; try (intros [= <- <-]; auto).
    unfold EnvServlet.get_logfiles. destruct (logs w !! s); intros [= <- <-]; auto. }
  destruct (actors w !! a); intros [= <- <-]; auto.
Qed.

Lemma call_servlet_method_frame h method args block w r w' :
  call_servlet_method h method args block w = (r, w') ->
  env_servlets w' = env_servlets w /\ ray_named w' = ray_named w
  /\ last_active w' = last_active w /\ length (actors w') = length (actors w).
Proof.
  unfold call_servlet_method. destruct h as [a | a].
  - destruct block; [unfold ray_get; simpl | unfold pure; intros [= <- <-]; auto].
    intros Hc. pose proof (servlet_call_frame _ _ _ _ _ _ Hc) as (? & ? & ?).
    pose proof (servlet_call_counters _ _ _ _ _ _ Hc) as (? & ?). auto.
  - intros Hc. pose proof (servlet_call_frame _ _ _ _ _ _ Hc) as (? & ? & ?).
    pose proof (servlet_call_counters _ _ _ _ _ _ Hc) as (? & ?). auto.
Qed.

Lemma get_env_servlet_frame n create w r w' :
  get_env_servlet n create w = (r, w') ->
  (forall m h, env_servlets w !! m = Some h -> env_servlets w' !! m = Some h)
  /\ last_active w' = last_active w
  /\ length (actors w) <= length (actors w') <= S (length (actors w))
  /\ (create = false -> w' = w).
Proof.
  unfold get_env_servlet.
  destruct (env_servlets w !! n) as [h |] eqn:He.
  - intros [= <- <-]. split_and!; auto; lia.
  - destruct create; [| intros [= <- <-]; split_and!; auto; lia].
    unfold bind, ray_get_if_exists.
    destruct (ray_named w !! n) as [a |]; intros [= <- <-]; simpl.
    + split_and!; auto; try lia; try discriminate.
      intros m h Hm. rewrite lookup_insert_ne; [exact Hm | congruence].
    + rewrite length_app. simpl. split_and!; auto; try lia; try discriminate.
      intros m h Hm. rewrite lookup_insert_ne; [exact Hm | congruence].
Qed.

(** The body of the [try] in [call_in_env_servlet], run from [w0]. *)
Lemma dispatch_body_frame method args e create lk block w0 r w1 :
  (let! env :=
     (if truthy lk then
        if truthy e then pure e else lookup_env_for_name (default "" lk) false
      else pure e) in
   let! servlet := get_env_servlet (or_default env "base") create in
   call_servlet_method servlet method args block) w0 = (r, w1) ->
  (forall m h, env_servlets w0 !! m = Some h -> env_servlets w1 !! m = Some h)
  /\ last_active w1 = last_active w0
  /\ length (actors w0) <= length (actors w1) <= S (length (actors w0))
  /\ (create = false -> env_servlets w1 = env_servlets w0 /\ ray_named w1 = ray_named w0
                        /\ length (actors w1) = length (actors w0)).
Proof.
  unfold bind.
  match goal with |- context [?c w0] =>
    match type of c with M (option string) =>
      destruct (c w0) as [[env' | ee] w2] eqn:Hl end end.
  - assert (w2 = w0) as ->.
    { revert Hl. unfold lookup_env_for_name, pure.
      repeat match goal with |- context [if ?b then _ else _] => destruct b end;
        intros [= <- <-]; auto. }
    destruct (get_env_servlet (or_default env' "base") create w0) as [[h | ex] w3] eqn:Hg;
      pose proof (get_env_servlet_frame _ _ _ _ _ Hg) as (G1 & G2 & G3 & G4).
    + intros Hc. apply call_servlet_method_frame in Hc as (C1 & C2 & C3 & C4).
      split_and!; try lia; try congruence.
      * intros m h0 Hm. rewrite C1. now apply G1.
      * intros Hf. rewrite (G4 Hf) in *. auto.
    + intros [= <- <-]. split_and!; auto; try lia.
      all: try (intros Hf; rewrite (G4 Hf); auto).
  - exfalso. revert Hl. unfold lookup_env_for_name, pure.
    repeat match goal with |- context [if ?b then _ else _] => destruct b end; intros [=].
Qed.

Lemma dispatch_frame method args e create lk block w r w' :
  call_in_env_servlet method args e create lk block w = (r, w') ->
  (forall m h, env_servlets w !! m = Some h -> env_servlets w' !! m = Some h)
  /\ last_active w < last_active w' <= last_active w + 2
  /\ length (actors w) <= length (actors w') <= S (length (actors w))
  /\ (create = false -> env_servlets w' = env_servlets w /\ ray_named w' = ray_named w
                        /\ length (actors w') = length (actors w)).
Proof.
  unfold call_in_env_servlet, bind at 1. simpl. unfold try_except.
  match goal with |- context [bind ?c ?f ?w0] =>
    destruct (bind c f w0) as [[x | ex] w1] eqn:Hb end;
    apply dispatch_body_frame in Hb as (B1 & B2 & B3 & B4); simpl in *.
  - intros [= <- <-]. split_and!; auto; lia.
  - unfold bind, register_activity, pure. intros [= <- <-]. simpl. split_and!; auto; lia.
Qed.

(** X1: a dispatch never removes or rebinds a registered environment and
    constructs at most one actor; without [create] it leaves the registry,
    Ray's table of named actors and the number of actors as they were. *)
Theorem dispatch_keeps_registrations (method : string) (args : list arg)
    (e : option string) (create : bool) (lk : option string) (block : bool)
    (w : World) (r : outcome ret) (w' : World) :
  call_in_env_servlet method args e create lk block w = (r, w') ->
  (forall m h, env_servlets w !! m = Some h -> env_servlets w' !! m = Some h)
  /\ length (actors w) <= length (actors w') <= S (length (actors w))
  /\ (create = false -> env_servlets w' = env_servlets w /\ ray_named w' = ray_named w
                        /\ length (actors w') = length (actors w)).
Proof.
  intros H. apply dispatch_frame in H as (H1 & _ & H3 & H4). auto.
Qed.

Lemma dispatch_keeps_registrations_witness :
  let w' := snd (call_in_env_servlet "put_object" [AVal (PStr "k"); AVal (PInt 1)]
                   (Some "pytorch") true None true started_world) in
  (forall m h, env_servlets started_world !! m = Some h -> env_servlets w' !! m = Some h)
  /\ length (actors started_world) <= length (actors w') <= S (length (actors started_world))
  /\ (true = false -> env_servlets w' = env_servlets started_world
                      /\ ray_named w' = ray_named started_world
                      /\ length (actors w') = length (actors started_world)).
Proof.
  apply (dispatch_keeps_registrations "put_object" [AVal (PStr "k"); AVal (PInt 1)]
           (Some "pytorch") true None true started_world
           (fst (call_in_env_servlet "put_object" [AVal (PStr "k"); AVal (PInt 1)]
                   (Some "pytorch") true None true started_world))).
  apply surjective_pairing.
Defined.

Lemma call_module_method_activity module method message w r w' :
  call_module_method module method message w = (r, w') ->
  last_active w < last_active w'.
Proof.
  unfold call_module_method. unfold bind at 1. simpl.
  set (w0 := set_last_active S w).
  assert (H0 : last_active w < last_active w0) by (simpl; lia). clearbody w0.
  set (method' := if bool_decide (method = Some "None") then None else method).
  set (message' := default (mkMessage None None PNone false false false) message).
  unfold bind at 1.
  assert (Hgen : forall (nk : option string) w1,
     last_active w <= last_active w1 ->
     (let! r := try_except
        (let! env :=
           (if truthy (env (set_key nk message')) then pure (env (set_key nk message'))
            else lookup_env_for_name module false) in
         let! obj_ref :=
           call_in_env_servlet "call_module_method"
             [AVal (PStr module); AVal (of_opt method'); AMsg (set_key nk message')]
             env true None false in
         match key (set_key nk message') with
         | None => raise (TypeError "unsupported operand type(s) for +")
         | Some k =>
             run! (fun w => (Ret tt, set_obj_store (insert (k ++ "_ref") obj_ref) w)) in
             if remote (set_key nk message')
             then pure (Plain (mkResponse (pickle_b64 (PStr k)) PNone PNone RESULT))
             else pure (Streaming k env (stream_logs (set_key nk message')))
         end)
        (fun e =>
           run! register_activity in
           pure (Plain (exception_response e))) in
      pure (r, set_key nk message')) w1 = (r, w') ->
     last_active w1 < last_active w').
  { intros nk w1 _. unfold bind at 1. unfold try_except.
    match goal with |- context [match ?b w1 with _ => _ end] =>
      destruct (b w1) as [[rep | ex] w2] eqn:Hb end.
    - unfold pure. intros [= <- <-]. revert Hb. unfold bind.
      match goal with |- context [?c w1] =>
        match type of c with M (option string) =>
          destruct (c w1) as [[env' | ee] w3] eqn:Hl end end; [| discriminate].
      assert (w3 = w1) as ->.
      { revert Hl. unfold lookup_env_for_name, pure.
        repeat match goal with |- context [if ?b then _ else _] => destruct b end;
          intros [= <- <-]; auto. }
      match goal with |- context [call_in_env_servlet ?m ?a ?e0 ?c ?l ?b w1] =>
        destruct (call_in_env_servlet m a e0 c l b w1) as [[o | ee] w4] eqn:Hc end;
        [| discriminate].
      apply dispatch_frame in Hc as (_ & Hact & _).
      simpl. destruct nk; simpl; unfold raise, pure; try discriminate.
      destruct (remote message'); intros [= <- <-]; simpl; lia.
    - unfold bind, register_activity, pure. intros [= <- <-]. simpl.
      revert Hb. unfold bind.
      match goal with |- context [?c w1] =>
        match type of c with M (option string) =>
          destruct (c w1) as [[env' | ee] w3] eqn:Hl end end.
      + assert (w3 = w1) as ->.
        { revert Hl. unfold lookup_env_for_name, pure.
          repeat match goal with |- context [if ?b then _ else _] => destruct b end;
            intros [= <- <-]; auto. }
        match goal with |- context [call_in_env_servlet ?m ?a ?e0 ?c ?l ?b w1] =>
          destruct (call_in_env_servlet m a e0 c l b w1) as [[o | ee] w4] eqn:Hc end.
        * apply dispatch_frame in Hc as (_ & Hact & _).
          simpl. destruct nk; simpl; unfold raise, pure.
          -- destruct (remote message'); intros [=].
          -- intros [= <- <-]. lia.
        * apply dispatch_frame in Hc as (_ & Hact & _). intros [= <- <-]. lia.
      + intros [= <- <-]. revert Hl. unfold lookup_env_for_name, pure.
        repeat match goal with |- context [if ?b then _ else _] => destruct b end;
          intros [=]. }
  destruct (truthy (key message')).
  - unfold pure at 1. intros H. apply Hgen in H; lia.
  - unfold bind at 1, _generate_default_name, pure at 1. intros H. apply Hgen in H; lia.
Qed.

(** X2: serving a request registers activity, except when the keys of the
    server's own store are listed.  On every route but the key listing
    without an environment, whether the request succeeds or fails, the
    last-active mark has moved forward when the route returns; the key
    listing without an environment (none given, or the empty name) answers
    from the server's own store and leaves the mark, and the whole state,
    as they were; and a single dispatch moves the mark by one, or by two
    when its failure handler runs. *)
Theorem routes_register_activity_but_own_key_listing :
  (forall r message w res w',
     (forall e, r = GetKeys e -> truthy e = true) ->
     serve r message w = (res, w') -> last_active w < last_active w')
  /\ (forall e message w,
        truthy e = false ->
        serve (GetKeys e) message w = (Ret message, w)
        /\ get_keys e w
           = (Ret (RResp (mkResponse (pickle_b64 (obj_store_keys w)) PNone PNone RESULT)), w))
  /\ (forall method args e create lk block w res w',
        call_in_env_servlet method args e create lk block w = (res, w') ->
        last_active w < last_active w' <= last_active w + 2).
Proof.
  split_and!.
  - intros r message w res w' Hkeys.
    assert (Hd : forall (c : M ret),
              (forall x w1, c w = (x, w1) -> last_active w < last_active w1) ->
              (run! c in pure message) w = (res, w') -> last_active w < last_active w').
    { intros c Hc. unfold bind, pure. destruct (c w) as [[x | ex] w1] eqn:E;
        intros [= <- <-]; eapply Hc; eauto. }
    assert (Hdisp : forall method args e create lk block x w1,
              call_in_env_servlet method args e create lk block w = (x, w1) ->
              last_active w < last_active w1).
    { intros. eapply dispatch_frame; eauto. }
    destruct r; simpl; try (apply Hd; apply Hdisp).
    + unfold check_server, bind, register_activity, pure.
      destruct ray_status; simpl; intros [= <- <-]; simpl; lia.
    + unfold bind at 1.
      destruct (call_module_method module method (Some message) w) as [[p | ex] w1] eqn:E;
        unfold pure; intros [= <- <-]; eapply call_module_method_activity; eauto.
    + unfold get_object, bind, register_activity, pure. intros [= <- <-]. simpl. lia.
    + apply Hd. unfold get_keys. rewrite (Hkeys env0 eq_refl). apply Hdisp.
  - intros e message w He. unfold serve, get_keys, bind, pure. now rewrite He.
  - intros. eapply dispatch_frame; eauto.
Qed.





(** ** Log files: listing, opening, reading *)

Lemma substring_head i n s c r :
  substring i (S n) s = String c r ->
  substring i 1 s = String c "" /\ substring (S i) n s = r.
Proof.
  revert s. induction i as [| i IH]; intros s; destruct s as [| c0 s']; simpl;
    try discriminate.
  - intros [= -> <-]. split; [| reflexivity]. now destruct s'.
  - apply IH.
Qed.

Lemma suffix_matches_default_pattern (c1 c2 c3 : string) (p : string) :
  String.length c1 = 1 -> String.length c2 = 1 -> String.length c3 = 1 ->
  one_of "o" "e" c1 = true -> one_of "u" "r" c2 = true -> one_of "t" "r" c3 = true ->
  ends_with ("." ++ c1 ++ c2 ++ c3) p = true ->
  glob_matches None p = true.
Proof.
  destruct c1 as [| a1 [|]]; try discriminate. destruct c2 as [| a2 [|]]; try discriminate.
  destruct c3 as [| a3 [|]]; try discriminate. intros _ _ _ H1 H2 H3.
  unfold ends_with, glob_matches. simpl String.length. simpl append.
  intros H. apply andb_true_iff in H as [Hlen Hs].
  apply Nat.leb_le in Hlen. apply String.eqb_eq in Hs.
  apply substring_head in Hs as [E0 Hs].
  apply substring_head in Hs as [E1 Hs].
  apply substring_head in Hs as [E2 Hs].
  assert (E3 : substring (S (S (S (String.length p - 4)))) 1 p = String a3 "") by exact Hs.
  replace (String.length p - 3) with (S (String.length p - 4)) by lia.
  replace (String.length p - 2) with (S (S (String.length p - 4))) by lia.
  replace (String.length p - 1) with (S (S (S (String.length p - 4)))) by lia.
  rewrite E0, E1, E2, E3, H1, H2, H3.
  apply Nat.leb_le in Hlen. now rewrite Hlen.
Qed.

Lemma sublist_map {A B} (f : A -> B) (l1 l2 : list A) :
  l1 `sublist_of` l2 -> map f l1 `sublist_of` map f l2.
Proof. induction 1; simpl; constructor; auto. Qed.

(** X4: [_get_logfiles] gives [None] exactly when the call has no log
    directory, and otherwise the paths of the directory that match the
    pattern, in directory order (an empty list when none matches).  With no
    log type asked for, every path ending in ".out" or ".err" is listed, so
    the listing contains those of either log type; the default pattern
    accepts other endings as well, such as ".ort". *)
Theorem get_logfiles_lists_matching_paths :
  (forall k lt w, _get_logfiles k lt w = None <-> logs w !! k = None)
  /\ (forall k lt w files l,
        logs w !! k = Some files -> _get_logfiles k lt w = Some l ->
        l `sublist_of` map fst files
        /\ forall f, In f l <-> (In f (map fst files) /\ glob_matches lt f = true))
  /\ (forall p, ends_with ".out" p = true \/ ends_with ".err" p = true ->
                glob_matches None p = true)
  /\ (forall k lt w l_typed l_all f,
        lt = Some "stdout" \/ lt = Some "stderr" ->
        _get_logfiles k lt w = Some l_typed ->
        _get_logfiles k None w = Some l_all ->
        In f l_typed -> In f l_all)
  /\ glob_matches None "summer.ort" = true.
Proof.
  assert (Hpat : forall p, ends_with ".out" p = true \/ ends_with ".err" p = true ->
                           glob_matches None p = true).
  { intros p [H | H].
    - now apply (suffix_matches_default_pattern "o" "u" "t" p).
    - now apply (suffix_matches_default_pattern "e" "r" "r" p). }
  assert (Hmem : forall k lt w files l,
            logs w !! k = Some files -> _get_logfiles k lt w = Some l ->
            forall f, In f l <-> (In f (map fst files) /\ glob_matches lt f = true)).
  { intros k lt w files l Hl. unfold _get_logfiles. rewrite Hl. intros [= <-] f.
    rewrite !in_map_iff. split.
    - intros ([f0 c] & <- & Hin). apply list_elem_of_In, list_elem_of_filter in Hin as [Hm Hin].
      split; [| exact Hm]. exists (f0, c). split; [reflexivity | now apply list_elem_of_In].
    - intros [([f0 c] & <- & Hin) Hm]. exists (f0, c). split; [reflexivity |].
      apply list_elem_of_In, list_elem_of_filter. split; [exact Hm | now apply list_elem_of_In]. }
  split_and!.
  - intros k lt w. unfold _get_logfiles. destruct (logs w !! k); split; congruence.
  - intros k lt w files l Hl Hg. split; [| now apply (Hmem k lt w files)].
    unfold _get_logfiles in Hg. rewrite Hl in Hg. inversion Hg; subst.
    apply sublist_map, sublist_filter.
  - exact Hpat.
  - intros k lt w l_typed l_all f Hlt Ht Ha Hin.
    destruct (logs w !! k) as [files |] eqn:Hl.
    + apply (Hmem k None w files l_all Hl Ha).
      destruct (proj1 (Hmem k lt w files l_typed Hl Ht f) Hin) as [Hin' Hm].
      split; [exact Hin' |]. apply Hpat.
      destruct Hlt as [-> | ->]; simpl in Hm; auto.
    + unfold _get_logfiles in Ht. rewrite Hl in Ht. discriminate.
  - reflexivity.
Qed.

Lemma is_open_iff f (open_files : list LogHandle) :
  existsb (fun o => String.eqb (name o) f) open_files = true <-> In f (map name open_files).
Proof.
  rewrite existsb_exists, in_map_iff. split.
  - intros (o & Hin & He). apply String.eqb_eq in He. eauto.
  - intros (o & He & Hin). exists o. split; [exact Hin | now apply String.eqb_eq].
Qed.

Lemma open_file_handle k f w h : open_file k f w = Ret h -> h = mkHandle f 0.
Proof.
  unfold open_file. destruct (List.find _ _) as [[? [?|]] |]; intros [=]; now subst.
Qed.

Lemma open_each_spec k logfiles : forall open_files w oe hs,
  open_each k logfiles open_files w = (oe, hs) ->
  exists added,
    hs = (open_files ++ added)%list
    /\ Forall (fun h => pos h = 0 /\ In (name h) logfiles
                        /\ ~ In (name h) (map name open_files)) added
    /\ NoDup (map name added)
    /\ (oe = None -> forall f, In f logfiles -> In f (map name hs)).
Proof.
  induction logfiles as [| f rest IH]; intros open_files w oe hs; simpl.
  - intros [= <- <-]. exists []. rewrite app_nil_r.
    split_and!; auto; [apply NoDup_nil_2 | intros _ f []].
  - destruct (existsb (fun o => String.eqb (name o) f) open_files) eqn:Hex.
    + intros H. destruct (IH _ _ _ _ H) as (added & -> & Hadd & Hnd & Hcov).
      exists added. split_and!; auto.
      * eapply List.Forall_impl; [| exact Hadd]. simpl. intros h (? & ? & ?). auto.
      * intros Hoe f0 [<- | Hin]; [| now apply Hcov].
        rewrite map_app. apply in_or_app. left. now apply is_open_iff.
    + destruct (open_file k f w) as [h | e0] eqn:Ho.
      * apply open_file_handle in Ho. subst h.
        intros H. destruct (IH _ _ _ _ H) as (added & -> & Hadd & Hnd & Hcov).
        exists (mkHandle f 0 :: added). rewrite <- app_assoc. simpl.
        assert (Hnot : ~ In f (map name open_files)).
        { intros Hin. apply is_open_iff in Hin. congruence. }
        split_and!; auto.
        -- constructor; [simpl; auto |].
           eapply List.Forall_impl; [| exact Hadd]. simpl. intros h (? & ? & Hn).
           split_and!; auto. intros Hin. apply Hn. rewrite map_app.
           apply in_or_app. now left.
        -- constructor; [| exact Hnd].
           rewrite list_elem_of_In. intros Hin. apply in_map_iff in Hin as (h & Hname & Hin).
           rewrite List.Forall_forall in Hadd. destruct (Hadd h Hin) as (_ & _ & Hn).
           apply Hn. rewrite map_app. apply in_or_app. right. simpl. auto.
        -- intros Hoe f0 [<- | Hin].
           ++ rewrite map_app. apply in_or_app. right. simpl. auto.
           ++ specialize (Hcov Hoe f0 Hin). now rewrite <- app_assoc in Hcov.
      * intros [= <- <-]. exists []. rewrite app_nil_r.
        split_and!; auto; [apply NoDup_nil_2 | discriminate].
Qed.

Lemma open_each_all_open k logfiles hs w :
  (forall f, In f logfiles -> In f (map name hs)) ->
  open_each k logfiles hs w = (None, hs).
Proof.
  induction logfiles as [| f rest IH]; intros Hall; simpl; [reflexivity |].
  assert (Hex : existsb (fun o => String.eqb (name o) f) hs = true)
    by (apply is_open_iff, Hall; now left).
  rewrite Hex. apply IH. intros; apply Hall; now right.
Qed.

Lemma open_new_logfiles_again k open_files w hs hs' :
  open_new_logfiles k open_files w = (None, hs) ->
  map name hs' = map name hs ->
  open_new_logfiles k hs' w = (None, hs').
Proof.
  unfold open_new_logfiles.
  destruct (_get_logfiles k None w) as [[| f rest] |]; try reflexivity.
  intros H Hnames. apply open_each_all_open.
  destruct (open_each_spec _ _ _ _ _ _ H) as (_ & _ & _ & _ & Hcov).
  intros f0 Hin. rewrite Hnames. now apply Hcov.
Qed.

(** X5: [open_new_logfiles] opens each listed log file once.  It keeps the
    handles it is given, in place and with their read positions, and
    appends handles at position 0, each for a path that [_get_logfiles]
    lists and that was not open, no path twice, so handles with distinct
    paths stay so; when it succeeds every listed path has a handle, and
    calling it again on the same directory opens nothing; and it fails only
    with the error of an [open]. *)
Theorem open_new_logfiles_opens_each_path_once (k : string) (open_files : list LogHandle)
    (w : World) (oe : option exn) (hs : list LogHandle) :
  open_new_logfiles k open_files w = (oe, hs) ->
  let listed := default [] (_get_logfiles k None w) in
  (exists added,
     hs = (open_files ++ added)%list
     /\ Forall (fun h => pos h = 0 /\ In (name h) listed
                         /\ ~ In (name h) (map name open_files)) added
     /\ NoDup (map name added))
  /\ (NoDup (map name open_files) -> NoDup (map name hs))
  /\ (oe = None ->
      (forall f, In f listed -> In f (map name hs))
      /\ open_new_logfiles k hs w = (None, hs))
  /\ (forall e, oe = Some e -> is_os_error e).
Proof.
  unfold open_new_logfiles.
  destruct (_get_logfiles k None w) as [[| f rest] |] eqn:Hg; cbv [default from_option id].
  - intros [= <- <-]. split_and!; auto; try discriminate.
    + exists []. rewrite app_nil_r. split_and!; auto. apply NoDup_nil_2.
    + intros _. split; [intros f [] | reflexivity].
  - intros H. destruct (open_each_spec _ _ _ _ _ _ H) as (added & -> & Hadd & Hnd & Hcov).
    split_and!.
    + exists added. split_and!; auto.
    + intros Hno. rewrite map_app. apply NoDup_app. split_and!; auto.
      intros x Hx Hx'. rewrite list_elem_of_In in Hx, Hx'.
      apply in_map_iff in Hx' as (h & <- & Hin).
      rewrite List.Forall_forall in Hadd. destruct (Hadd h Hin) as (_ & _ & Hn). auto.
    + intros Hoe. split; [now apply Hcov |]. apply open_each_all_open. now apply Hcov.
    + intros e ->. eapply open_each_raises; eauto.
  - intros [= <- <-]. split_and!; auto; try discriminate.
    + exists []. rewrite app_nil_r. split_and!; auto. apply NoDup_nil_2.
    + intros _. split; [intros f [] | reflexivity].
Qed.

Lemma open_new_logfiles_opens_each_path_once_witness :
  let w := set_disk "k" (Some [("/logs/k/k.out", Some ["a"]); ("/logs/k/k.err", Some [])])
             started_world in
  let hs := snd (open_new_logfiles "k" [mkHandle "/logs/k/k.out" 1] w) in
  let listed := default [] (_get_logfiles "k" None w) in
  (exists added,
     hs = ([mkHandle "/logs/k/k.out" 1] ++ added)%list
     /\ Forall (fun h => pos h = 0 /\ In (name h) listed
                         /\ ~ In (name h) (map name [mkHandle "/logs/k/k.out" 1])) added
     /\ NoDup (map name added))
  /\ (NoDup (map name [mkHandle "/logs/k/k.out" 1]) -> NoDup (map name hs))
  /\ (@None exn = None ->
      (forall f, In f listed -> In f (map name hs))
      /\ open_new_logfiles "k" hs w = (None, hs))
  /\ (forall e, @None exn = Some e -> is_os_error e).
Proof.
  apply (open_new_logfiles_opens_each_path_once "k" [mkHandle "/logs/k/k.out" 1]).
  vm_compute. reflexivity.
Defined.

Lemma read_all_catches_up k hs w lines hs' :
  read_all k hs w = (None, lines, hs') ->
  map name hs' = map name hs /\ Forall (caught_up k w) hs'.
Proof.
  revert lines hs'. induction hs as [| h rest IH]; intros lines hs'; simpl.
  - intros [= <- <-]. auto.
  - destruct (readlines k h w) as [[fl h'] | e0] eqn:Hr; [| discriminate].
    destruct (read_all k rest w) as [[oe rl] rest'] eqn:Hall.
    intros [= -> <- <-]. destruct (IH _ _ eq_refl) as [Hn Hc]. simpl.
    unfold readlines in Hr.
    destruct (List.find (fun lf => String.eqb (fst lf) (name h)) (default [] (logs w !! k)))
      as [[f0 [ls |]] |] eqn:Hf; inversion Hr; subst; simpl.
    + split; [now rewrite Hn |]. constructor; [| exact Hc].
      unfold caught_up. simpl. now rewrite Hf.
    + split; [now rewrite Hn |]. constructor; [| exact Hc].
      unfold caught_up. now rewrite Hf.
Qed.

Lemma read_all_nothing_new k hs w :
  Forall (caught_up k w) hs -> read_all k hs w = (None, [], hs).
Proof.
  induction 1 as [| h rest Hh _ IH]; simpl; [reflexivity |].
  unfold readlines. unfold caught_up in Hh.
  destruct (List.find (fun lf => String.eqb (fst lf) (name h)) (default [] (logs w !! k)))
    as [[f0 [ls |]] |]; try contradiction.
  - rewrite IH, Hh, drop_all. destruct h as [n p]. simpl in *. now subst.
  - now rewrite IH.
Qed.

(** X6: log lines are delivered once.  After a flush that succeeded, a
    second flush that finds the directory as the first one left it opens no
    file, reads no line and yields nothing: it leaves the loop variables
    exactly as they are. *)
Theorem flush_logs_delivers_lines_once (k : string) (st : gstate) (w : World)
    (st1 : gstate) :
  flush_logs k true st w = (None, st1) ->
  flush_logs k true st1 w = (None, st1).
Proof.
  unfold flush_logs.
  destruct (open_new_logfiles k (open_logfiles st) w) as [[e1 |] hs] eqn:Ho; [discriminate |].
  destruct (read_all k hs w) as [[[e2 |] ret_lines] hs'] eqn:Hr; [discriminate |].
  intros [= <-]. simpl.
  destruct (read_all_catches_up _ _ _ _ _ Hr) as [Hnames Hcaught].
  assert (Hopen : open_new_logfiles k hs' w = (None, hs'))
    by exact (open_new_logfiles_again _ _ _ _ _ Ho Hnames).
  rewrite Hopen, (read_all_nothing_new k hs' w Hcaught).
  unfold new_paths. rewrite drop_all. simpl. rewrite app_nil_r.
  destruct ret_lines; reflexivity.
Qed.

Lemma flush_logs_delivers_lines_once_witness :
  let w := set_disk "k" (Some [("/logs/k/k.out", Some ["a"; "b"])]) started_world in
  let st1 := snd (flush_logs "k" true (mkG RNone true [] [] [] []) w) in
  flush_logs "k" true st1 w = (None, st1).
Proof.
  apply (flush_logs_delivers_lines_once "k" (mkG RNone true [] [] [] [])).
  vm_compute. reflexivity.
Defined.

(** ** A growing log file is delivered line by line *)













(** ** Log files are opened once and closed on the way out *)

Lemma read_all_names k hs w oe lines hs' :
  read_all k hs w = (oe, lines, hs') -> map name hs' = map name hs.
Proof.
  revert oe lines hs'. induction hs as [| h rest IH]; intros oe lines hs'; simpl.
  - intros [= <- <- <-]. reflexivity.
  - unfold readlines.
    destruct (List.find (fun lf => String.eqb (fst lf) (name h)) (default [] (logs w !! k)))
      as [[f0 [ls |]] |].
    + destruct (read_all k rest w) as [[oe1 rl] rest'] eqn:Hall.
      intros [= <- <- <-]. simpl. now rewrite (IH _ _ _ eq_refl).
    + intros [= <- <- <-]. reflexivity.
    + destruct (read_all k rest w) as [[oe1 rl] rest'] eqn:Hall.
      intros [= <- <- <-]. simpl. now rewrite (IH _ _ _ eq_refl).
Qed.

Lemma open_new_logfiles_added k open_files w oe hs :
  open_new_logfiles k open_files w = (oe, hs) ->
  exists added,
    hs = (open_files ++ added)%list
    /\ Forall (fun h => glob_matches None (name h) = true
                        /\ ~ In (name h) (map name open_files)) added
    /\ NoDup (map name added).
Proof.
  unfold open_new_logfiles.
  destruct (_get_logfiles k None w) as [[| f rest] |] eqn:Hg.
  - intros [= <- <-]. exists []. rewrite app_nil_r. split_and!; auto. apply NoDup_nil_2.
  - intros H. destruct (open_each_spec _ _ _ _ _ _ H) as (added & -> & Hadd & Hnd & _).
    exists added. split_and!; auto.
    eapply List.Forall_impl; [| exact Hadd]. cbv beta. intros h (_ & Hin & Hn).
    split; [| exact Hn].
    unfold _get_logfiles in Hg. destruct (logs w !! k) as [files |]; [| discriminate].
    injection Hg as Hg. rewrite <- Hg in Hin.
    apply in_map_iff in Hin as ([f0 c] & <- & Hin).
    apply list_elem_of_In, list_elem_of_filter in Hin as [Hm _]. exact Hm.
  - intros [= <- <-]. exists []. rewrite app_nil_r. split_and!; auto. apply NoDup_nil_2.
Qed.

Lemma flush_logs_tracked k sl st w oe st' :
  flush_logs k sl st w = (oe, st') -> tracked sl st -> tracked sl st'.
Proof.
  unfold flush_logs, tracked. intros H (Hop & Hnd & Hall). destruct sl.
  - destruct (open_new_logfiles k (open_logfiles st) w) as [oe1 files] eqn:Ho.
    destruct (open_new_logfiles_added _ _ _ _ _ Ho) as (added & -> & Hadd & Hnda).
    assert (Hnew : new_paths (open_logfiles st) (open_logfiles st ++ added) = map name added).
    { unfold new_paths. now rewrite drop_app_length. }
    rewrite Hnew in H.
    assert (Hgoal : forall files',
              map name files' = map name (open_logfiles st ++ added) ->
              (opened st ++ map name added)%list = map name files'
              /\ NoDup (opened st ++ map name added)
              /\ Forall (fun f => true = true /\ glob_matches None f = true)
                        (opened st ++ map name added)).
    { intros files' Hn. rewrite Hn, map_app, Hop. split_and!; auto.
      - apply NoDup_app. rewrite <- Hop. split_and!; auto.
        intros x Hx Hx'. rewrite list_elem_of_In in Hx, Hx'.
        apply in_map_iff in Hx' as (h & <- & Hin).
        rewrite List.Forall_forall in Hadd. destruct (Hadd h Hin) as (_ & Hno).
        apply Hno. now rewrite <- Hop.
      - rewrite <- Hop. apply Forall_app. split; [exact Hall |].
        apply List.Forall_forall. intros f Hin. apply in_map_iff in Hin as (h & <- & Hin).
        rewrite List.Forall_forall in Hadd. destruct (Hadd h Hin) as (Hm & _). auto. }
    destruct oe1 as [e1 |].
    + injection H as <- <-. simpl. now apply Hgoal.
    + destruct (read_all k (open_logfiles st ++ added) w) as [[oe2 rl] files'] eqn:Hr.
      apply read_all_names in Hr.
      destruct oe2; injection H as <- <-; simpl; now apply Hgoal.
  - simpl in H. injection H as <- <-. simpl. rewrite app_nil_r.
    destruct (opened st) as [| f rest]; [split_and!; auto |].
    apply Forall_cons in Hall as [[Hf _] _]. discriminate.
Qed.

Lemma iteration_tracked k e sl t st w oe st' w' :
  iteration k e sl t st w = (oe, st', w') -> tracked sl st -> tracked sl st'.
Proof.
  destruct (iteration_unfold k e sl t st w) as (o & w1 & -> & _).
  unfold poll_and_flush. simpl.
  destruct (ray_get_timeout o (poll t) (queue st)) as [[[r |] | e0] q0];
    [| | destruct (is_timeout e0)];
    try (intros [= H <-] Ht; revert H; match goal with
         | |- flush_logs _ _ ?s _ = _ -> _ =>
             destruct (flush_logs k sl s w1) as [oe1 s1] eqn:Hf; intros [= <- <-];
             exact (flush_logs_tracked _ _ _ _ _ _ Hf Ht)
         end).
  intros [= <- <- <-] Ht. exact Ht.
Qed.

(** X8: the results generator opens a log file at most once and closes what
    it opened.  Over any script, the paths it opens are pairwise distinct
    log files of the call, none when logs are not streamed; and when it
    returns, by the result or through its exception handler, [finally] has
    closed exactly the files that were opened, while a generator still
    suspended has closed none. *)
Theorem log_files_are_opened_once_and_closed (k : string) (e : option string) (sl : bool)
    (q : list Response) (ticks : list tick) (w : World) :
  let run := _get_results_and_logs_generator k e sl q ticks w in
  NoDup (opened_files run)
  /\ Forall (fun f => sl = true /\ glob_matches None f = true) (opened_files run)
  /\ closed_files run
     = match exit run with Returned => opened_files run | _ => [] end.
Proof.
  unfold _get_results_and_logs_generator.
  destruct (results_loop k e sl ticks (mkG RNone true [] [] [] q) w) as [[ex st] w'] eqn:Hl.
  pose proof (results_loop_invariant k e sl (fun st _ => tracked sl st)
                (fun _ st _ => tracked sl st) ticks) as Hinv. simpl in Hinv.
  assert (Hstep : forall t s0 w0 oe s1 w1,
            In t ticks -> waiting_for_results s0 = true -> tracked sl s0 ->
            iteration k e sl t s0 w0 = (oe, s1, w1) ->
            match oe with None => tracked sl s1 | Some _ => tracked sl s1 end).
  { intros t s0 w0 oe s1 w1 _ _ Ht Hi. destruct oe; eapply iteration_tracked; eauto. }
  assert (H0 : tracked sl (mkG RNone true [] [] [] q)).
  { unfold tracked. simpl. split_and!; auto. apply NoDup_nil_2. }
  specialize (Hinv Hstep _ _ _ _ _ H0 Hl).
  assert (Ht : tracked sl st) by (destruct ex; tauto).
  destruct Ht as (Hop & Hnd & Hall).
  destruct ex; simpl; split_and!; auto.
Qed.

(** ** Results leave in the order of the servlet's queue *)

Lemma results_of_flushed (flushed : list Response) (P : Prop) :
  flushed = [] \/ (exists lines, lines <> [] /\ flushed = [stdout_response lines] /\ P) ->
  results_of flushed = [].
Proof. intros [-> | (lines & _ & -> & _)]; reflexivity. Qed.

Lemma ray_get_timeout_ready o ev q r q' :
  ray_get_timeout o ev q = (Ret (Some r), q') -> ev = PollReady.
Proof.
  unfold ray_get_timeout. destruct o; try discriminate.
  destruct ev; try discriminate. reflexivity.
Qed.

Lemma iteration_polls_one k e sl t st w oe st' w' :
  iteration k e sl t st w = (oe, st', w') ->
  exists polled,
    queue st = (polled ++ queue st')%list
    /\ results_of (yielded st') = (results_of (yielded st) ++ results_of polled)%list
    /\ length polled <= match poll t with PollReady => 1 | _ => 0 end.
Proof.
  destruct (iteration_unfold k e sl t st w) as (o & w1 & -> & _).
  unfold poll_and_flush. simpl.
  assert (Hflush : forall s polled oe1 s1,
            flush_logs k sl s w1 = (oe1, s1) ->
            queue st = (polled ++ queue s)%list ->
            yielded s = (yielded st ++ polled)%list ->
            queue st = (polled ++ queue s1)%list
            /\ results_of (yielded s1) = (results_of (yielded st) ++ results_of polled)%list).
  { intros s polled oe1 s1 Hf Hq Hy.
    apply flush_logs_spec in Hf as (_ & _ & Hqq & (fl & Hy1 & Hfl) & _).
    rewrite Hqq, Hy1, Hy, !results_of_app, (results_of_flushed fl _ Hfl), app_nil_r. auto. }
  destruct (ray_get_timeout o (poll t) (queue st)) as [[[r |] | e0] q0] eqn:Hg;
    pose proof (ray_get_timeout_spec _ _ _ _ _ Hg) as Hq; simpl in Hq.
  - apply ray_get_timeout_ready in Hg. rewrite Hg.
    match goal with |- (flush_logs _ _ ?s _, _) = _ -> _ =>
      destruct (flush_logs k sl s w1) as [oe1 s1] eqn:Hf end.
    intros [= <- <- <-]. exists [r].
    destruct (Hflush _ [r] _ _ Hf) as [H1 H2]; simpl; auto.
  - match goal with |- (flush_logs _ _ ?s _, _) = _ -> _ =>
      destruct (flush_logs k sl s w1) as [oe1 s1] eqn:Hf end.
    intros [= <- <- <-]. exists [].
    destruct (Hflush _ [] _ _ Hf) as [H1 H2]; simpl; auto; [now rewrite app_nil_r |].
    split_and!; auto. lia.
  - destruct (is_timeout e0).
    + match goal with |- (flush_logs _ _ ?s _, _) = _ -> _ =>
        destruct (flush_logs k sl s w1) as [oe1 s1] eqn:Hf end.
      intros [= <- <- <-]. exists [].
      destruct (Hflush _ [] _ _ Hf) as [H1 H2]; simpl; auto; [now rewrite app_nil_r |].
      split_and!; auto. lia.
    + intros [= <- <- <-]. exists []. simpl. rewrite app_nil_r. split_and!; auto. lia.
Qed.

Lemma results_loop_queue_order k e sl : forall ticks st w ex st' w',
  results_loop k e sl ticks st w = (ex, st', w') ->
  exists polled,
    queue st = (polled ++ queue st')%list
    /\ results_of (yielded st') = (results_of (yielded st) ++ results_of polled)%list
    /\ length polled <= ready_polls ticks.
Proof.
  assert (Hstay : forall (st : gstate),
            exists polled : list Response,
              queue st = (polled ++ queue st)%list
              /\ results_of (yielded st) = (results_of (yielded st) ++ results_of polled)%list
              /\ length polled = 0).
  { intros st. exists []. simpl. rewrite app_nil_r. auto. }
  induction ticks as [| t rest IH]; intros st w ex st' w'; simpl.
  - destruct (waiting_for_results st); intros [= <- <- <-];
      destruct (Hstay st) as (p & ? & ? & Hp); exists p; rewrite Hp; auto.
  - destruct (waiting_for_results st).
    + destruct (iteration k e sl t st w) as [[oe st1] w1] eqn:Hi.
      destruct (iteration_polls_one _ _ _ _ _ _ _ _ _ Hi) as (p1 & Hq1 & Hr1 & Hn1).
      destruct oe as [e0 |].
      * intros [= <- <- <-]. exists p1. split_and!; auto. lia.
      * intros Hl. destruct (IH _ _ _ _ _ Hl) as (p2 & Hq2 & Hr2 & Hn2).
        exists (p1 ++ p2)%list. split_and!.
        -- now rewrite Hq1, Hq2, app_assoc.
        -- now rewrite Hr2, Hr1, results_of_app, app_assoc.
        -- rewrite length_app. lia.
    + intros [= <- <- <-]. destruct (Hstay st) as (p & ? & ? & Hp). exists p.
      rewrite Hp. split_and!; auto. lia.
Qed.

(** X9: results are handed on in the order the servlet queued them.  Over
    any script, whether or not polls or log files fail, what the stream
    holds besides log batches is an initial part of the servlet's queue,
    nothing dropped, repeated or reordered, followed by at most the
    EXCEPTION response of the generator's own handler; and no more
    responses leave the queue than there were polls that found the servlet
    ready. *)
Theorem results_leave_in_queue_order (k : string) (e : option string) (sl : bool)
    (q : list Response) (ticks : list tick) (w : World) :
  let run := _get_results_and_logs_generator k e sl q ticks w in
  exists taken,
    taken `prefix_of` q
    /\ length taken <= ready_polls ticks
    /\ (results_of (stream run) = results_of taken
        \/ exists e0,
             results_of (stream run) = (results_of taken ++ [exception_response e0])%list
             /\ exit run = Returned).
Proof.
  unfold _get_results_and_logs_generator.
  destruct (results_loop k e sl ticks (mkG RNone true [] [] [] q) w) as [[ex st] w'] eqn:Hl.
  destruct (results_loop_queue_order _ _ _ _ _ _ _ _ _ Hl) as (taken & Hq & Hr & Hn).
  simpl in Hq, Hr. exists taken.
  split; [now exists (queue st) |]. split; [exact Hn |].
  destruct ex; simpl; auto.
  right. exists e0. rewrite results_of_app, Hr. auto.
Qed.

(** ** The stream of an object fetch *)

(** Whatever iterates to two items unpacks into key and flag. *)
Example two_character_payload_unpacks :
  unpack_key_and_flag (pickle_b64 (PStr "ab")) = Ret (PStr "a", true)
  /\ unpack_key_and_flag (pickle_b64 (PList [PInt 7; PInt 0])) = Ret (PInt 7, false)
  /\ unpack_key_and_flag (pickle_b64 (PStr "abc"))
     = Raise (ValueError "not enough or too many values to unpack (expected 2)").
Proof. vm_compute. auto. Qed.

(** When an [open] of the comprehension fails, the files before it have
    been opened all the same, and none is closed. *)
Example failed_open_leaves_files_opened :
  let message :=
    mkMessage None None (pickle_b64 (PTuple [PStr "k"; PBool true])) false false false in
  let run := _get_object_and_logs_generator message
               [mkOTick [] (Some [("/logs/k/k.out", Some ["a"]); ("/logs/k/k.err", None)])]
               started_world in
  oexit run = Propagated (OSError "Permission denied: /logs/k/k.err")
  /\ oopened_files run = ["/logs/k/k.out"]
  /\ oclosed_files run = [].
Proof. vm_compute. auto. Qed.

Lemma oiteration_inv k sl m t st w oe st' w' :
  oiteration k sl m t st w = (oe, st', w') ->
  object_inv sl st ->
  Forall is_batch (oyielded st')
  /\ (sl = false -> oyielded st' = [] /\ oopened st' = [])
  /\ (oe = None -> object_inv sl st').
Proof.
  unfold oiteration, object_inv. intros H (HA & HB & HC & HD).
  destruct (call_in_env_servlet "get" _ _ _ _ _ _) as [[r | e0] w1]; [| injection H as <- <- <-; split_and!; auto; discriminate].
  destruct sl; [| injection H as <- <- <-; simpl; split_and!; auto].
  cbn [logfiles open_files oyielded oopened] in H.
  destruct (no_logfiles (logfiles st)) eqn:Hn.
  - destruct (call_in_env_servlet "get_logfiles" _ _ _ _ _ _) as [[lf | e1] w2];
      [| injection H as <- <- <-; split_and!; auto; discriminate].
    destruct (open_logfiles_of (key_dir k) lf w2) as [[e2 |] files] eqn:Hopen;
      [injection H as <- <- <-; split_and!; auto; discriminate |].
    destruct (read_all (key_dir k) files w2) as [[[e3 |] rl] files'] eqn:Hr;
      pose proof (read_all_names _ _ _ _ _ _ Hr) as Hnames;
      injection H as <- <- <-; cbn [logfiles open_files oyielded oopened].
    + split_and!; auto; discriminate.
    + assert (HA' : Forall is_batch
                (match rl with [] => oyielded st
                 | _ :: _ => oyielded st ++ [RResp (stdout_response rl)] end)).
      { destruct rl as [| l0 rl0]; [exact HA |]. apply Forall_app. split; [exact HA |].
        constructor; [| constructor]. exists (l0 :: rl0). split; [discriminate | reflexivity]. }
      split_and!; auto; try discriminate. intros _. split_and!; auto; try discriminate.
      * rewrite HB, (HC eq_refl), Hnames. reflexivity.
      * intros Hlf. unfold open_logfiles_of in Hopen. rewrite Hlf in Hopen.
        injection Hopen as <-. simpl in Hr. now injection Hr as _ <-.
  - destruct (read_all (key_dir k) (open_files st) w1) as [[[e3 |] rl] files'] eqn:Hr;
      pose proof (read_all_names _ _ _ _ _ _ Hr) as Hnames;
      injection H as <- <- <-; cbn [logfiles open_files oyielded oopened].
    + split_and!; auto; discriminate.
    + assert (HA' : Forall is_batch
                (match rl with [] => oyielded st
                 | _ :: _ => oyielded st ++ [RResp (stdout_response rl)] end)).
      { destruct rl as [| l0 rl0]; [exact HA |]. apply Forall_app. split; [exact HA |].
        constructor; [| constructor]. exists (l0 :: rl0). split; [discriminate | reflexivity]. }
      split_and!; auto; try discriminate. intros _. split_and!; auto; try discriminate.
      * rewrite app_nil_r, HB, Hnames. reflexivity.
      * rewrite Hn. discriminate.
Qed.

Lemma object_loop_inv k sl m : forall ticks st w ex st' w',
  object_loop k sl m ticks st w = (ex, st', w') ->
  object_inv sl st ->
  Forall is_batch (oyielded st')
  /\ (sl = false -> oyielded st' = [] /\ oopened st' = [])
  /\ (ex = LoopDone ->
      oopened st' = map name (open_files st') /\ is_py_none (ret_obj st') = false).
Proof.
  induction ticks as [| t rest IH]; intros st w ex st' w'; simpl.
  - intros [= <- <- <-] (HA & _ & _ & HD). split_and!; auto; discriminate.
  - destruct (oiteration k sl m t st w) as [[oe st1] w1] eqn:Hi. intros H Hinv.
    destruct (oiteration_inv _ _ _ _ _ _ _ _ _ Hi Hinv) as (HA & HD & Hnext).
    destruct oe as [e0 |]; [injection H as <- <- <-; split_and!; auto; discriminate |].
    destruct (is_py_none (ret_obj st1)) eqn:Hnone.
    + exact (IH _ _ _ _ _ H (Hnext eq_refl)).
    + injection H as <- <- <-. destruct (Hnext eq_refl) as (_ & HB & _).
      split_and!; auto.
Qed.

(** X10: the stream of an object fetch is log batches, then the object.
    Over any script, everything the object generator yields before it
    returns is a non-empty batch of log lines; it returns only by yielding
    the fetched object last, which is never [None], and has then closed the
    files it opened; a generator that is still waiting, or that was left by
    an exception, has yielded batches only and closed nothing; and unless
    the pickled payload carries a true flag there are no batches and no
    file is opened. *)
Theorem object_stream_ends_with_the_object (message : Message) (ticks : list otick)
    (w : World) :
  let run := _get_object_and_logs_generator message ticks w in
  exists batches,
    Forall is_batch batches
    /\ match oexit run with
       | Returned =>
           exists obj, ostream run = (batches ++ [obj])%list
                       /\ is_py_none obj = false
                       /\ oclosed_files run = oopened_files run
       | _ => ostream run = batches /\ oclosed_files run = []
       end
    /\ match unpack_key_and_flag (mdata message) with
       | Ret (_, true) => True
       | _ => batches = [] /\ oopened_files run = []
       end.
Proof.
  unfold _get_object_and_logs_generator.
  destruct (unpack_key_and_flag (mdata message)) as [[k sl] | e0].
  - destruct (object_loop k sl message ticks (mkO RNone [] RNone [] []) w)
      as [[ex st] w'] eqn:Hl.
    assert (H0 : object_inv sl (mkO RNone [] RNone [] [])).
    { unfold object_inv. simpl. split_and!; auto. }
    destruct (object_loop_inv _ _ _ _ _ _ _ _ _ Hl H0) as (HA & HD & Hdone).
    exists (oyielded st). split; [exact HA |].
    destruct ex; simpl.
    + destruct (Hdone eq_refl) as [HB Hobj]. split.
      * exists (ret_obj st). split_and!; auto.
        destruct sl; [now rewrite HB |]. now destruct (HD eq_refl) as [_ ->].
      * destruct sl; auto.
    + split; [auto |]. destruct sl; auto.
    + split; [auto |]. destruct sl; auto.
  - exists []. simpl. auto.
Qed.

(** ** Module calls and their streams *)

Lemma get_env_servlet_actor n w :
  all_actors w ->
  exists a w',
    get_env_servlet n true w = (Ret (ActorHandle a), w')
    /\ env_servlets w' !! n = Some (ActorHandle a)
    /\ obj_store w' = obj_store w
    /\ all_actors w'.
Proof.
  intros Hall. unfold get_env_servlet.
  destruct (env_servlets w !! n) as [h |] eqn:Hn.
  - destruct (Hall n h Hn) as [a ->]. exists a, w. auto.
  - unfold bind, ray_get_if_exists.
    destruct (ray_named w !! n) as [a |]; eexists _, _; (split; [reflexivity |]); simpl;
      (split; [apply lookup_insert_eq |]); (split; [reflexivity |]);
      unfold all_actors; simpl; intros m h; (destruct (decide (m = n)) as [-> | Hne];
        [rewrite lookup_insert_eq; intros [= <-]; eauto
        | rewrite lookup_insert_ne by congruence; apply Hall]).
Qed.

Lemma module_call_body module method' (msg : Message) k w0 :
  all_actors w0 ->
  key msg = Some k ->
  exists e a w1,
    try_except
      (let! env :=
         (if truthy (env msg) then pure (env msg)
          else lookup_env_for_name module false) in
       let! obj_ref :=
         call_in_env_servlet "call_module_method"
           [AVal (PStr module); AVal (of_opt method'); AMsg msg]
           env true None false in
       match key msg with
       | None => raise (TypeError "unsupported operand type(s) for +")
       | Some k =>
           run! (fun w => (Ret tt, set_obj_store (insert (k ++ "_ref") obj_ref) w)) in
           if remote msg
           then pure (Plain (mkResponse (pickle_b64 (PStr k)) PNone PNone RESULT))
           else pure (Streaming k env (stream_logs msg))
       end)
      (fun e =>
         run! register_activity in
         pure (Plain (exception_response e))) w0
    = (Ret (if remote msg
            then Plain (mkResponse (pickle_b64 (PStr k)) PNone PNone RESULT)
            else Streaming k e (stream_logs msg)), w1)
    /\ e = (if truthy (env msg) then env msg
              else if truthy (env_for_key w0 !! module) then env_for_key w0 !! module
                   else None)
    /\ env_servlets w1 !! or_default e "base" = Some (ActorHandle a)
    /\ obj_store w1 !! (k ++ "_ref")
       = Some (RRef (mkRef a "call_module_method"
                       [AVal (PStr module); AVal (of_opt method'); AMsg msg]))
    /\ all_actors w1.
Proof.
  intros Hall Hk.
  set (env0 := if truthy (env msg) then env msg
               else if truthy (env_for_key w0 !! module) then env_for_key w0 !! module
                    else None).
  assert (Hall0 : all_actors (set_last_active S w0)) by exact Hall.
  destruct (get_env_servlet_actor (or_default env0 "base") _ Hall0)
    as (a & w1 & Hg & Hreg & Hst & Hall1).
  exists env0, a.
  eexists. unfold try_except. unfold bind at 1.
  assert (Hl : (if truthy (env msg) then pure (env msg)
                else lookup_env_for_name module false) w0 = (Ret env0, w0)).
  { unfold env0, lookup_env_for_name, pure.
    destruct (truthy (env msg)); [reflexivity |].
    destruct (truthy (env_for_key w0 !! module)); reflexivity. }
  rewrite Hl. unfold bind at 1. rewrite dispatch_create, Hg. simpl.
  rewrite Hk. unfold bind, pure. simpl.
  split; [destruct (remote msg); reflexivity |].
  split; [reflexivity |]. simpl. split; [exact Hreg |].
  split; [apply lookup_insert_eq |]. exact Hall1.
Qed.

Lemma call_module_method_reply (module : string) (method : option string)
    (message : option Message) (w : World) :
  all_actors w ->
  let msg := default (mkMessage None None PNone false false false) message in
  exists k e a w',
    call_module_method module method message w
      = (Ret (if remote msg
              then Plain (mkResponse (pickle_b64 (PStr k)) PNone PNone RESULT)
              else Streaming k e (stream_logs msg),
              set_key (Some k) msg), w')
    /\ env_servlets w' !! or_default e "base" = Some (ActorHandle a).
Proof.
  intros Hall msg.
  unfold call_module_method. unfold bind at 1. simpl. fold msg.
  set (method' := if bool_decide (method = Some "None") then None else method).
  set (prefix := if bool_decide (method' = Some "__call__") || negb (truthy method')
                 then module else module ++ "_" ++ default "" method').
  assert (Hall0 : all_actors (set_last_active S w)) by exact Hall.
  unfold bind at 1.
  destruct (truthy (key msg)) eqn:Hk.
  - destruct (key msg) as [k |] eqn:Hkey; [| discriminate].
    unfold pure at 1.
    destruct (module_call_body module method' (set_key (Some k) msg) k _ Hall0 eq_refl)
      as (e & a & w1 & Hb & _ & Hreg & _).
    exists k, e, a, w1. unfold bind at 1. simpl in Hb. rewrite Hb. unfold pure. auto.
  - unfold bind at 1, _generate_default_name, pure at 1.
    set (k := prefix ++ "_" ++ clock (set_last_active S w)).
    destruct (module_call_body module method' (set_key (Some k) msg) k _ Hall0 eq_refl)
      as (e & a & w1 & Hb & _ & Hreg & _).
    exists k, e, a, w1. unfold bind at 1. simpl in Hb. rewrite Hb. unfold pure. auto.
Qed.

(** X11: a module call leaves the reference of the remote call it started.
    On a server whose environments are Ray actors, [call_module_method]
    returns without raising; the message it processed carries a key, its
    own if it had one and a generated one otherwise; the environment the
    call was routed to is registered when the route returns, created if it
    was missing; the server's object store holds, under the key followed by
    [_ref], the reference of the pending [call_module_method] call on that
    environment's actor; and the reply is the pickled key for a remote
    message and otherwise the stream over that key, that environment and
    the message's [stream_logs]. *)
Theorem module_call_stores_its_reference (module : string) (method : option string)
    (message : option Message) (w : World) :
  all_actors w ->
  let msg := default (mkMessage None None PNone false false false) message in
  let method' := if bool_decide (method = Some "None") then None else method in
  exists k e a w',
    call_module_method module method message w
      = (Ret (if remote msg
              then Plain (mkResponse (pickle_b64 (PStr k)) PNone PNone RESULT)
              else Streaming k e (stream_logs msg),
              set_key (Some k) msg), w')
    /\ (truthy (key msg) = true -> key msg = Some k)
    /\ env_servlets w' !! or_default e "base" = Some (ActorHandle a)
    /\ obj_store w' !! (k ++ "_ref")
       = Some (RRef (mkRef a "call_module_method"
                       [AVal (PStr module); AVal (of_opt method');
                        AMsg (set_key (Some k) msg)]))
    /\ all_actors w'.
Proof.
  intros Hall msg method'.
  unfold call_module_method. unfold bind at 1. simpl.
  fold msg. fold method'.
  set (prefix := if bool_decide (method' = Some "__call__") || negb (truthy method')
                 then module else module ++ "_" ++ default "" method').
  assert (Hall0 : all_actors (set_last_active S w)) by exact Hall.
  unfold bind at 1.
  destruct (truthy (key msg)) eqn:Hk.
  - destruct (key msg) as [k |] eqn:Hkey; [| discriminate].
    unfold pure at 1.
    destruct (module_call_body module method' (set_key (Some k) msg) k _ Hall0 eq_refl)
      as (e & a & w1 & Hb & _ & Hreg & Hst & Hall1).
    exists k, e, a, w1. unfold bind at 1. simpl in Hb. rewrite Hb. unfold pure. auto.
  - unfold bind at 1, _generate_default_name, pure at 1.
    set (k := prefix ++ "_" ++ clock (set_last_active S w)).
    destruct (module_call_body module method' (set_key (Some k) msg) k _ Hall0 eq_refl)
      as (e & a & w1 & Hb & _ & Hreg & Hst & Hall1).
    exists k, e, a, w1. unfold bind at 1. simpl in Hb. rewrite Hb. unfold pure.
    split_and!; auto. discriminate.
Qed.

Lemma module_call_stores_its_reference_witness :
  let msg := mkMessage None (Some "gpu_env") PNone true false false in
  exists k e a w',
    call_module_method "summer" (Some "__call__") (Some msg) empty_world
      = (Ret (if remote msg
              then Plain (mkResponse (pickle_b64 (PStr k)) PNone PNone RESULT)
              else Streaming k e (stream_logs msg),
              set_key (Some k) msg), w')
    /\ (truthy (key msg) = true -> key msg = Some k)
    /\ env_servlets w' !! or_default e "base" = Some (ActorHandle a)
    /\ obj_store w' !! (k ++ "_ref")
       = Some (RRef (mkRef a "call_module_method"
                       [AVal (PStr "summer"); AVal (of_opt (Some "__call__"));
                        AMsg (set_key (Some k) msg)]))
    /\ all_actors w'.
Proof.
  apply (module_call_stores_its_reference "summer" (Some "__call__")
           (Some (mkMessage None (Some "gpu_env") PNone true false false)) empty_world).
  intros n h H. simpl in H. rewrite lookup_empty in H. discriminate.
Defined.

Lemma results_loop_calm k e sl a w0 ticks :
  env_servlets w0 !! or_default e "base" = Some (ActorHandle a) ->
  Forall (calm sl) ticks ->
  forall st w ex st' w',
    streaming_inv w0 st w ->
    results_loop k e sl ticks st w = (ex, st', w') ->
    forall e0, ex <> LoopRaised e0.
Proof.
  intros Hreg Hcalm st w ex st' w' Hinv Hl e0 ->.
  pose proof (results_loop_invariant k e sl (fun st w => streaming_inv w0 st w)
                (fun _ _ _ => False) ticks) as H. simpl in H.
  assert (Hstep : forall t s1 w1 oe s2 w2,
            In t ticks -> waiting_for_results s1 = true -> streaming_inv w0 s1 w1 ->
            iteration k e sl t s1 w1 = (oe, s2, w2) ->
            match oe with Some _ => False | None => streaming_inv w0 s2 w2 end);
    [| exact (H Hstep _ _ _ _ _ Hinv Hl)].
  intros t s1 w1 oe s2 w2 Hin Hw HP Hi.
  rewrite List.Forall_forall in Hcalm.
  destruct (iteration_calm k e sl a w0 t s1 w1 Hreg HP (Hcalm t Hin))
    as (s3 & w3 & fl & Hi' & _).
  rewrite Hi in Hi'. injection Hi' as -> -> ->.
  exact (streaming_inv_step _ _ _ _ _ _ _ _ _ _ _ Hreg Hw HP Hi).
Qed.

(** X12: a module call and the stream it answers with.  When
    [call_module_method] has answered with a stream, the generator of that
    stream finds its environment registered: over a script at which the
    polls and the log files do not fail, it never ends in its exception
    handler, the environment is still registered when it stops, and the
    results it has yielded are an initial part of what the servlet queued,
    one at most per poll that found the servlet ready. *)
Theorem module_call_is_followed_by_its_results (module : string) (method : option string)
    (message : option Message) (w : World) (q : list Response) (ticks : list tick)
    (k : string) (e : option string) (sl : bool) (m' : Message) (w' : World) :
  all_actors w ->
  call_module_method module method message w = (Ret (Streaming k e sl, m'), w') ->
  Forall (calm sl) ticks ->
  let run := _get_results_and_logs_generator k e sl q ticks w' in
  key m' = Some k
  /\ (exists a, env_servlets (world run) !! or_default e "base" = Some (ActorHandle a))
  /\ exists taken,
       taken `prefix_of` q
       /\ length taken <= ready_polls ticks
       /\ results_of (stream run) = results_of taken.
Proof.
  intros Hall Hcall Hcalm.
  destruct (call_module_method_reply module method message w Hall)
    as (k0 & e0 & a & w0 & Hc & Hreg).
  rewrite Hc in Hcall.
  destruct (remote (default (mkMessage None None PNone false false false) message));
    [discriminate |].
  injection Hcall as H1 H2 H3 H4 H5. subst k0 e0 w0 m'. clear H3. simpl.
  split; [reflexivity |].
  unfold _get_results_and_logs_generator.
  destruct (results_loop k e sl ticks (mkG RNone true [] [] [] q) w')
    as [[ex st] w1] eqn:Hl.
  assert (Hinit : streaming_inv w' (mkG RNone true [] [] [] q) w').
  { split_and!; [reflexivity | now left | constructor]. }
  pose proof (results_loop_calm _ _ _ _ _ _ Hreg Hcalm _ _ _ _ _ Hinit Hl) as Hno.
  destruct (results_loop_queue_order _ _ _ _ _ _ _ _ _ Hl) as (taken & Hq & Hr & Hn).
  simpl in Hq, Hr.
  assert (Henv : env_servlets w1 = env_servlets w').
  { pose proof (results_loop_invariant k e sl (fun _ w => env_servlets w = env_servlets w')
                  (fun _ _ w => env_servlets w = env_servlets w') ticks) as H. simpl in H.
    assert (Hstep : forall t s1 w2 oe s2 w3,
              In t ticks -> waiting_for_results s1 = true ->
              env_servlets w2 = env_servlets w' ->
              iteration k e sl t s1 w2 = (oe, s2, w3) ->
              match oe with
              | Some _ => env_servlets w3 = env_servlets w'
              | None => env_servlets w3 = env_servlets w'
              end).
    { intros t s1 w2 oe s2 w3 _ _ HP Hi.
      apply iteration_spec in Hi as (_ & _ & _ & _ & _ & _ & _ & _ & Hsame).
      destruct oe; congruence. }
    specialize (H Hstep _ _ _ _ _ eq_refl Hl). destruct ex; tauto. }
  split.
  - exists a. destruct ex; simpl; rewrite Henv; exact Hreg.
  - exists taken. split; [now exists (queue st) |]. split; [exact Hn |].
    destruct ex as [| err |]; simpl; auto. now destruct (Hno err).
Qed.

Lemma module_call_is_followed_by_its_results_witness :
  let msg := mkMessage None (Some "gpu_env") PNone true false false in
  let k := "summer_20231103_171500_123" in
  let w' := snd (call_module_method "summer" (Some "__call__") (Some msg) empty_world) in
  let q := [mkResponse (PInt 50) PNone PNone RESULT] in
  let ticks := [mkTick PollTimeout None;
                mkTick PollReady (Some [("/logs/summer/summer.out", Some ["adding"])])] in
  let run := _get_results_and_logs_generator k (Some "gpu_env") true q ticks w' in
  key (set_key (Some k) msg) = Some k
  /\ (exists a, env_servlets (world run) !! or_default (Some "gpu_env") "base"
                = Some (ActorHandle a))
  /\ exists taken,
       taken `prefix_of` q
       /\ length taken <= ready_polls ticks
       /\ results_of (stream run) = results_of taken.
Proof.
  apply (module_call_is_followed_by_its_results "summer" (Some "__call__")
           (Some (mkMessage None (Some "gpu_env") PNone true false false)) empty_world).
  - intros n h H. simpl in H. rewrite lookup_empty in H. discriminate.
  - vm_compute. reflexivity.
  - repeat (constructor; [split; [exact I | left; simpl; repeat constructor; discriminate] |]).
    constructor.
Defined.

(** ** Streams for an environment that is not registered *)

(** X13: a stream for an environment that is not registered.  The results
    generator polls without [create]; when the environment it is given is
    not registered, the dispatcher hands back the "environment does not
    exist" EXCEPTION response in place of a reference, [ray.get] refuses
    what is not an ObjectRef, and the generator returns in its first
    iteration having yielded one EXCEPTION response, which carries that
    [ValueError] and not the missing environment; no log file is opened,
    the environment is still not registered, and activity was registered
    twice. *)
Theorem stream_for_an_unregistered_environment (k : string) (e : option string)
    (sl : bool) (q : list Response) (t : tick) (rest : list tick) (w : World) :
  env_servlets w !! or_default e "base" = None ->
  let run := _get_results_and_logs_generator k e sl q (t :: rest) w in
  exit run = Returned
  /\ stream run
     = [exception_response
          (ValueError "'object_refs' must either be an ObjectRef or a list of ObjectRefs.")]
  /\ opened_files run = []
  /\ env_servlets (world run) = env_servlets w
  /\ last_active (world run) = last_active w + 2.
Proof.
  intros Hreg. unfold _get_results_and_logs_generator. simpl. unfold iteration. simpl.
  assert (Hreg' : env_servlets (set_disk k (disk t) w) !! routed e None (set_disk k (disk t) w)
                  = None) by exact Hreg.
  rewrite (dispatch_unregistered _ _ _ _ _ _ Hreg').
  unfold poll_and_flush. simpl. split_and!; auto. lia.
Qed.

Lemma stream_for_an_unregistered_environment_witness :
  let run := _get_results_and_logs_generator "summer" (Some "gpu_env") true
               [mkResponse (PInt 50) PNone PNone RESULT]
               [mkTick PollReady None; mkTick PollReady None] started_world in
  exit run = Returned
  /\ stream run
     = [exception_response
          (ValueError "'object_refs' must either be an ObjectRef or a list of ObjectRefs.")]
  /\ opened_files run = []
  /\ env_servlets (world run) = env_servlets started_world
  /\ last_active (world run) = last_active started_world + 2.
Proof.
  apply (stream_for_an_unregistered_environment "summer" (Some "gpu_env") true).
  vm_compute. reflexivity.
Defined.

(** X14: an object fetch from an environment that is not registered.  When
    the environment the fetch is routed to is not registered, the
    dispatcher's EXCEPTION response counts as the fetched object: without
    the log flag the generator returns in its first round with that
    response, which carries the "environment does not exist" error, as its
    only item; with the flag the same response also comes back as the list
    of log files, opening them fails with a [TypeError], and the generator
    is left by that exception having yielded nothing.  Either way no file
    is opened and the registry is as it was. *)
Theorem object_fetch_from_an_unregistered_environment (message : Message) (k : string)
    (flag : bool) (t : otick) (rest : list otick) (w : World) :
  mdata message = pickle_b64 (PTuple [PStr k; PBool flag]) ->
  arrivals t = [] ->
  env_servlets w !! routed (env message) (Some k) w = None ->
  let run := _get_object_and_logs_generator message (t :: rest) w in
  let not_found := EnvironmentNotFound (routed (env message) (Some k) w) in
  ostream run = (if flag then [] else [RResp (exception_response not_found)])
  /\ (if flag then exists m, oexit run = Propagated (TypeError m) else oexit run = Returned)
  /\ oopened_files run = []
  /\ env_servlets (oworld run) = env_servlets w.
Proof.
  intros Hd Ha Hreg. unfold _get_object_and_logs_generator, unpack_key_and_flag.
  rewrite Hd. simpl. unfold oiteration. rewrite Ha. simpl.
  set (wd := set_disk k (odisk t) w).
  assert (Hr : routed (env message) (Some k) wd = routed (env message) (Some k) w)
    by reflexivity.
  assert (Hreg' : env_servlets wd !! routed (env message) (Some k) wd = None) by exact Hreg.
  rewrite (dispatch_unregistered _ _ _ _ _ _ Hreg'), Hr.
  destruct flag; simpl.
  - set (w2 := set_last_active S (set_last_active S wd)).
    assert (Hr2 : routed (env message) (Some k) w2 = routed (env message) (Some k) w)
      by reflexivity.
    assert (Hreg2 : env_servlets w2 !! routed (env message) (Some k) w2 = None) by exact Hreg.
    rewrite (dispatch_unregistered _ _ _ _ _ _ Hreg2). simpl.
    split_and!; eauto.
  - split_and!; auto.
Qed.

Lemma object_fetch_from_an_unregistered_environment_witness :
  let message :=
    mkMessage None (Some "gpu_env") (pickle_b64 (PTuple [PStr "my_list"; PBool true]))
              false false false in
  let run := _get_object_and_logs_generator message [mkOTick [] None] started_world in
  let not_found := EnvironmentNotFound (routed (env message) (Some "my_list") started_world) in
  ostream run = (if true then [] else [RResp (exception_response not_found)])
  /\ (if true then exists m, oexit run = Propagated (TypeError m) else oexit run = Returned)
  /\ oopened_files run = []
  /\ env_servlets (oworld run) = env_servlets started_world.
Proof.
  apply (object_fetch_from_an_unregistered_environment
           (mkMessage None (Some "gpu_env")
                      (pickle_b64 (PTuple [PStr "my_list"; PBool true])) false false false)
           "my_list" true (mkOTick [] None) [] started_world).
  - reflexivity.
  - reflexivity.
  - vm_compute. reflexivity.
Defined.

(** ** What streaming does to the server and to the actors *)

Lemma poll_dispatch_effect k e w r w' :
  call_in_env_servlet "_get_result_from_stream" [AVal (PStr k)] e false None false w = (r, w') ->
  same_server_state w w'
  /\ last_active w < last_active w' <= last_active w + 2
  /\ (issued w' = issued w
      \/ exists a, env_servlets w !! or_default e "base" = Some (ActorHandle a)
                   /\ issued w' = (issued w ++ [result_poll a k])%list).
Proof.
  rewrite dispatch_unfold. unfold get_env_servlet.
  change (env_servlets (set_last_active S w)) with (env_servlets w).
  change (routed e None w) with (or_default e "base").
  destruct (env_servlets w !! or_default e "base") as [[a | a] |] eqn:Hreg.
  - simpl. intros [= <- <-]. unfold same_server_state. simpl.
    split_and!; auto; try lia. right. exists a. auto.
  - simpl. unfold EnvServlet.call. simpl.
    destruct (actors w !! a) as [s |]; simpl.
    + destruct (collaborators w (servlet_env s) "_get_result_from_stream" [AVal (PStr k)]);
        intros [= <- <-]; unfold same_server_state; simpl; split_and!; auto; lia.
    + intros [= <- <-]. unfold same_server_state. simpl. split_and!; auto; lia.
  - intros [= <- <-]. unfold same_server_state. simpl. split_and!; auto; lia.
Qed.

Lemma iteration_effect k e sl t st w oe st' w' :
  iteration k e sl t st w = (oe, st', w') ->
  same_server_state w w'
  /\ last_active w <= last_active w' <= last_active w + 2
  /\ (issued w' = issued w
      \/ exists a, env_servlets w !! or_default e "base" = Some (ActorHandle a)
                   /\ issued w' = (issued w ++ [result_poll a k])%list).
Proof.
  unfold iteration.
  destruct (is_none (obj_ref st)).
  - destruct (call_in_env_servlet "_get_result_from_stream" [AVal (PStr k)] e false None false
                (set_disk k (disk t) w)) as [[o | e0] w1] eqn:Hc;
      apply poll_dispatch_effect in Hc as (Hs & Hl & Hi); simpl in Hl;
      intros H; assert (w1 = w') as <- by congruence;
      (split; [exact Hs |]); (split; [lia | exact Hi]).
  - intros H. assert (set_disk k (disk t) w = w') as <- by congruence.
    unfold same_server_state. simpl. split_and!; auto; lia.
Qed.

Lemma results_loop_effect k e sl : forall ticks st w ex st' w',
  results_loop k e sl ticks st w = (ex, st', w') ->
  same_server_state w w'
  /\ last_active w <= last_active w' <= last_active w + 2 * length ticks
  /\ exists polls,
       issued w' = (issued w ++ polls)%list
       /\ length polls <= length ticks
       /\ Forall (fun r => exists a,
                    env_servlets w !! or_default e "base" = Some (ActorHandle a)
                    /\ r = result_poll a k) polls.
Proof.
  assert (Hstay : forall w : World,
            same_server_state w w
            /\ exists polls,
                 issued w = (issued w ++ polls)%list /\ length polls = 0
                 /\ Forall (fun r => exists a,
                              env_servlets w !! or_default e "base" = Some (ActorHandle a)
                              /\ r = result_poll a k) polls).
  { intros w. split; [unfold same_server_state; auto |].
    exists []. rewrite app_nil_r. auto. }
  induction ticks as [| t rest IH]; intros st w ex st' w'; simpl.
  - destruct (waiting_for_results st); intros [= <- <- <-];
      destruct (Hstay w) as (Hs & p & Hp & Hn & Hf); (split; [exact Hs |]);
      (split; [lia |]); exists p; rewrite Hn; auto.
  - destruct (waiting_for_results st).
    + destruct (iteration k e sl t st w) as [[oe st1] w1] eqn:Hi.
      apply iteration_effect in Hi as ((S1 & S2 & S3) & Hl1 & Hi1).
      assert (Hone : exists p1,
                issued w1 = (issued w ++ p1)%list /\ length p1 <= 1
                /\ Forall (fun r => exists a,
                             env_servlets w !! or_default e "base" = Some (ActorHandle a)
                             /\ r = result_poll a k) p1).
      { destruct Hi1 as [Hi1 | (a & Hreg & Hi1)].
        - exists []. rewrite app_nil_r. simpl. auto.
        - exists [result_poll a k]. simpl. split_and!; auto.
          constructor; [eauto | constructor]. }
      destruct Hone as (p1 & Hp1 & Hn1 & Hf1).
      destruct oe as [e0 |].
      * intros [= <- <- <-]. split; [unfold same_server_state; auto |].
        split; [lia |]. exists p1. split_and!; auto. lia.
      * intros Hl. destruct (IH _ _ _ _ _ Hl) as ((T1 & T2 & T3) & Hl2 & p2 & Hp2 & Hn2 & Hf2).
        split; [unfold same_server_state; split_and!; congruence |].
        split; [lia |]. exists (p1 ++ p2)%list. split_and!.
        -- now rewrite Hp2, Hp1, app_assoc.
        -- rewrite length_app. lia.
        -- apply Forall_app. split; [exact Hf1 |].
           eapply List.Forall_impl; [| exact Hf2]. cbv beta.
           intros r (a & Hreg & ->). exists a. split; [| reflexivity].
           now rewrite <- S1.
    + intros [= <- <- <-].
      destruct (Hstay w) as (Hs & p & Hp & Hn & Hf). split; [exact Hs |].
      split; [lia |]. exists p. rewrite Hn. split_and!; auto. lia.
Qed.

(** X15: what streaming results does to the server and to the actors.
    Over any script the results generator leaves the registry, Ray's table
    of named actors and the server's own object store exactly as they
    were, so it never creates or registers an environment; the activity
    mark moves by at most two for each iteration; and the only remote calls
    it starts are polls, [_get_result_from_stream] for its key on the actor
    registered for its environment, at most one for each iteration and
    appended in order to the calls in flight.  What those polls do inside
    the servlet is the servlet's. *)
Theorem streaming_starts_only_result_polls (k : string) (e : option string) (sl : bool)
    (q : list Response) (ticks : list tick) (w : World) :
  let run := _get_results_and_logs_generator k e sl q ticks w in
  same_server_state w (world run)
  /\ last_active w <= last_active (world run) <= last_active w + 2 * length ticks
  /\ exists polls,
       issued (world run) = (issued w ++ polls)%list
       /\ length polls <= length ticks
       /\ Forall (fun r => exists a,
                    env_servlets w !! or_default e "base" = Some (ActorHandle a)
                    /\ r = result_poll a k) polls.
Proof.
  unfold _get_results_and_logs_generator.
  destruct (results_loop k e sl ticks (mkG RNone true [] [] [] q) w) as [[ex st] w'] eqn:Hl.
  pose proof (results_loop_effect _ _ _ _ _ _ _ _ _ Hl) as H.
  destruct ex; simpl; exact H.
Qed.
